(** * compose-db: the schema compiler's two emitters

    A shallow embedding of [src/parser/to-sql.js] (the SQL emitter) and
    [src/parser/to-lua.js] (the descriptor emitter), and the properties of
    the schema compiler that hold of them.

    Modelling conventions.
    - A column, which the code treats as a property bag, is an association
      list in own-property order, the order in which [Object.keys] gives
      the object's properties; reading a missing property gives [VUndef].
      A property holds any value [JSON.parse] yields: a primitive, an
      array or an object. No property has the name of a property of
      [Object.prototype] ([__proto__], [constructor], ...). Databases,
      tables and indexes, of which the code reads fixed properties only,
      are records.
    - A number of a schema is an integer that a double holds ([Z]); every
      integer up to 2^53 in magnitude is one. [Number.isSafeInteger] is
      the bound [|n| <= 2^53 - 1]. The conversion of a string to a number
      is [StringToNumber], rounding to the nearest double included; the
      code only compares its result with integers, and the result is kept
      as far as that needs.
    - Strings are sequences of ASCII characters.
    - A thrown exception is the [Throw] outcome of [result]; only its class
      is kept, the message is quoted in a comment at the throw site. An
      exception of the runtime (a property of [undefined], a call of what
      is not a function) is a [TypeError].
    - The emitters mutate what they read. The SQL emitter only writes
      files; the descriptor emitter updates column objects in place, and
      its model threads the two databases through the loops.
    - A file is written under the output directory by its name;
      [luamin.minify] is a parameter of the descriptor emitter's file
      step. *)

From Stdlib Require Import ZArith List String Ascii Bool Lia.
From Stdlib Require DecimalString.
Import ListNotations.

Open Scope string_scope.
Open Scope Z_scope.

(** ** Exceptions *)

Inductive error : Type :=
| Error | TypeError | RangeError | ReferenceError | SyntaxError.

Inductive result (A : Type) : Type :=
| Ok (a : A)
| Throw (e : error).

Arguments Ok {A} a.
Arguments Throw {A} e.

Definition bind {A B : Type} (m : result A) (k : A -> result B) : result B :=
  match m with
  | Ok a => k a
  | Throw e => Throw e
  end.

Notation "x <- m ;; k" := (bind m (fun x => k))
  (at level 61, m at next level, right associativity).
Notation "m ;;; k" := (bind m (fun _ => k))
  (at level 61, right associativity).

Definition accepted {A : Type} (r : result A) : bool :=
  match r with Ok _ => true | Throw _ => false end.

Definition thrown {A : Type} (r : result A) : option error :=
  match r with Ok _ => None | Throw e => Some e end.

(** [if (c) throw new E(...)] *)
Definition throw_if (c : bool) (e : error) : result unit :=
  if c then Throw e else Ok tt.

(** ** Strings *)

Definition nl : string := String (ascii_of_nat 10) EmptyString.
Definition dq : string := String (ascii_of_nat 34) EmptyString.
Definition bsl : string := String (ascii_of_nat 92) EmptyString.

Fixpoint spaces (n : nat) : string :=
  match n with
  | O => EmptyString
  | S k => String " " (spaces k)
  end.

Fixpoint string_forallb (p : ascii -> bool) (s : string) : bool :=
  match s with
  | EmptyString => true
  | String c r => p c && string_forallb p r
  end.

Definition nonempty (s : string) : bool :=
  match s with EmptyString => false | _ => true end.

Fixpoint drop (n : nat) (s : string) : string :=
  match n, s with
  | O, _ => s
  | S k, EmptyString => EmptyString
  | S k, String _ r => drop k r
  end.

Definition in_range (lo hi : nat) (c : ascii) : bool :=
  (lo <=? nat_of_ascii c)%nat && (nat_of_ascii c <=? hi)%nat.

Definition is_digit : ascii -> bool := in_range 48 57.
Definition is_lower : ascii -> bool := in_range 97 122.
Definition is_upper : ascii -> bool := in_range 65 90.
Definition is_underscore (c : ascii) : bool := (nat_of_ascii c =? 95)%nat.
Definition is_hex (c : ascii) : bool :=
  is_digit c || in_range 97 102 c || in_range 65 70 c.
Definition is_line_terminator (c : ascii) : bool :=
  (nat_of_ascii c =? 10)%nat || (nat_of_ascii c =? 13)%nat.

(** [s.split('.')] *)
Fixpoint split_dot_aux (cur : string) (s : string) : list string :=
  match s with
  | EmptyString => [cur]
  | String c r =>
      if (nat_of_ascii c =? 46)%nat then cur :: split_dot_aux EmptyString r
      else split_dot_aux (cur ++ String c EmptyString) r
  end.

Definition split_dot (s : string) : list string := split_dot_aux EmptyString s.

(** [l.join(sep)] on strings *)
Fixpoint join (sep : string) (l : list string) : string :=
  match l with
  | [] => EmptyString
  | [x] => x
  | x :: r => x ++ sep ++ join sep r
  end.

(** [s.replace(pat, rep)] with a string pattern: the first occurrence only *)
Fixpoint replace_first (pat rep s : string) : string :=
  if prefix pat s then rep ++ drop (String.length pat) s
  else match s with
       | EmptyString => EmptyString
       | String c r => String c (replace_first pat rep r)
       end.

(** [s.replace(/DEFAULT .*$/, "")]: without the [m] flag [$] is the end of
    the input and [.] is any character but a line terminator, so the match
    is the leftmost ["DEFAULT "] that no line terminator follows, up to the
    end of the string. *)
Fixpoint strip_default (s : string) : string :=
  if prefix "DEFAULT " s
     && string_forallb (fun c => negb (is_line_terminator c)) (drop 8 s)
  then EmptyString
  else match s with
       | EmptyString => EmptyString
       | String c r => String c (strip_default r)
       end.

(** A character of a decimal rendering *)
Definition is_dec_char (c : ascii) : bool :=
  is_digit c || (nat_of_ascii c =? 45)%nat.

(** The decimal digits of an integer, with its sign: what [String(n)]
    gives for a magnitude below 10^21 ([number_to_string] is [String(n)]
    for every integer) *)
Definition dec (n : Z) : string := DecimalString.NilZero.string_of_int (Z.to_int n).

(** The integer a string of decimal digits denotes (callers check the digits) *)
Fixpoint digits_value (acc : Z) (s : string) : Z :=
  match s with
  | EmptyString => acc
  | String c r => digits_value (10 * acc + Z.of_nat (nat_of_ascii c - 48)) r
  end.

Definition all_digits (s : string) : bool :=
  nonempty s && string_forallb is_digit s.

(** ** Numbers

    What a conversion to a number gives, as far as a comparison with an
    integer tells: not a number, an integer, a finite number that is not
    an integer (with the integer just below it), or an infinite one. *)

Inductive number : Type :=
| NaN
| Int (n : Z)
| Frac (below : Z)
| Inf (negative : bool).

Definition negate (x : number) : number :=
  match x with
  | NaN => NaN
  | Int n => Int (- n)
  | Frac below => Frac (- below - 1)
  | Inf negative => Inf (negb negative)
  end.

(** The double nearest to [a / b], for positive [a] and [b]; a tie goes to
    the even significand, and what is beyond the largest double is
    infinite *)
Definition round_ratio (a b : Z) : number :=
  let e0 := Z.log2 a - Z.log2 b in
  let under := if 0 <=? e0 then a <? b * 2 ^ e0 else a * 2 ^ (- e0) <? b in
  let e := if under then e0 - 1 else e0 in
  let s := Z.max e (-1022) - 52 in
  let num := if 0 <=? s then a else a * 2 ^ (- s) in
  let den := if 0 <=? s then b * 2 ^ s else b in
  let q := num / den in
  let r := num mod den in
  let m := if 2 * r <? den then q
           else if den <? 2 * r then q + 1
           else if Z.even q then q else q + 1 in
  if 0 <=? s then
    if 2 ^ 1024 <=? m * 2 ^ s then Inf false else Int (m * 2 ^ s)
  else if m mod 2 ^ (- s) =? 0 then Int (m / 2 ^ (- s))
  else Frac (m / 2 ^ (- s)).

(** The double nearest to [digits * 10 ^ k], for [digits] not negative *)
Definition round_decimal (digits k : Z) : number :=
  if digits =? 0 then Int 0
  else if 0 <=? k then round_ratio (digits * 10 ^ k) 1
  else round_ratio digits (10 ^ (- k)).

Definition is_space (c : ascii) : bool :=
  in_range 9 13 c || (nat_of_ascii c =? 32)%nat.

Fixpoint trim_left (s : string) : string :=
  match s with
  | String c r => if is_space c then trim_left r else s
  | EmptyString => EmptyString
  end.

(** The longest prefix of characters of a kind, and the rest *)
Fixpoint span (p : ascii -> bool) (s : string) : string * string :=
  match s with
  | String c r =>
      if p c then let (a, b) := span p r in (String c a, b)
      else (EmptyString, s)
  | EmptyString => (EmptyString, EmptyString)
  end.

(** The value of a digit of a radix up to 16 *)
Definition digit_value (c : ascii) : Z :=
  let n := nat_of_ascii c in
  if is_digit c then Z.of_nat (n - 48)
  else if in_range 97 102 c then Z.of_nat (n - 87)
  else Z.of_nat (n - 55).

Fixpoint radix_value (radix acc : Z) (s : string) : Z :=
  match s with
  | EmptyString => acc
  | String c r => radix_value radix (radix * acc + digit_value c) r
  end.

Definition is_char (n : nat) (c : ascii) : bool := (nat_of_ascii c =? n)%nat.

(** A sign, and the rest *)
Definition sign (s : string) : bool * string :=
  match s with
  | String c r =>
      if is_char 45 c then (true, r)
      else if is_char 43 c then (false, r)
      else (false, s)
  | EmptyString => (false, s)
  end.

(** ExponentPart, when there is one: the exponent and the rest *)
Definition exponent_part (s : string) : option (Z * string) :=
  match s with
  | String c r =>
      if is_char 101 c || is_char 69 c then
        let (negative, r) := sign r in
        let (digits, rest) := span is_digit r in
        if nonempty digits
        then Some (if negative then - radix_value 10 0 digits
                   else radix_value 10 0 digits, rest)
        else None
      else Some (0, s)
  | EmptyString => Some (0, s)
  end.

(** StrUnsignedDecimalLiteral other than [Infinity] *)
Definition unsigned_decimal (s : string) : option (number * string) :=
  let (whole, r1) := span is_digit s in
  let '(fraction, r2, dot) :=
    match r1 with
    | String c r =>
        if is_char 46 c then let (f, r2) := span is_digit r in (f, r2, true)
        else (EmptyString, r1, false)
    | EmptyString => (EmptyString, r1, false)
    end in
  if nonempty whole || (dot && nonempty fraction) then
    match exponent_part r2 with
    | Some (e, rest) =>
        Some (round_decimal (radix_value 10 0 (whole ++ fraction))
                (e - Z.of_nat (String.length fraction)), rest)
    | None => None
    end
  else None.

(** NonDecimalIntegerLiteral: [0x], [0o] or [0b] and digits of the radix *)
Definition non_decimal (s : string) : option (number * string) :=
  match s with
  | String z (String x r) =>
      if is_char 48 z then
        let radix :=
          if is_char 120 x || is_char 88 x then Some (16, is_hex)
          else if is_char 111 x || is_char 79 x then Some (8, in_range 48 55)
          else if is_char 98 x || is_char 66 x then Some (2, in_range 48 49)
          else None in
        match radix with
        | Some (radix, is_digit_of) =>
            let (digits, rest) := span is_digit_of r in
            if nonempty digits
            then Some (round_decimal (radix_value radix 0 digits) 0, rest)
            else None
        | None => None
        end
      else None
  | _ => None
  end.

(** StrNumericLiteral: a literal of another radix, or an optionally signed
    [Infinity] or decimal literal *)
Definition numeric_literal (s : string) : option (number * string) :=
  match non_decimal s with
  | Some found => Some found
  | None =>
      let (negative, body) := sign s in
      let found :=
        if prefix "Infinity" body
        then Some (Inf false, substring 8 (String.length body - 8) body)
        else unsigned_decimal body in
      match found with
      | Some (x, rest) => Some (if negative then negate x else x, rest)
      | None => None
      end
  end.

(** [StringToNumber]: white space around a literal is skipped, the empty
    string is 0, and what is no literal is [NaN] *)
Definition string_to_number (s : string) : number :=
  let s := trim_left s in
  match s with
  | EmptyString => Int 0
  | _ =>
      match numeric_literal s with
      | Some (x, rest) => if string_forallb is_space rest then x else NaN
      | None => NaN
      end
  end.

(** The integer that [round_decimal] gives an integer, when it is finite *)
Definition as_double (n : Z) : option Z :=
  match round_decimal (Z.abs n) 0 with
  | Int m => Some (if n <? 0 then - m else m)
  | _ => None
  end.

Fixpoint strip_zeros (digits : Z) (fuel : nat) : Z :=
  match fuel with
  | O => digits
  | S k => if digits mod 10 =? 0 then strip_zeros (digits / 10) k else digits
  end.

(** The shortest run of decimal digits, of [k] digits or more, that
    denotes the double [x] of [len] digits; of two runs of one length the
    nearer to [x] *)
Fixpoint shortest_digits (x len : Z) (k : Z) (fuel : nat) : Z :=
  let unit := 10 ^ (len - k) in
  let lo := x / unit in
  match fuel with
  | O => lo * unit
  | S fuel' =>
      let ok c := match as_double (c * unit) with
                  | Some y => y =? x
                  | None => false
                  end in
      let near_lo := x - lo * unit <=? (lo + 1) * unit - x in
      if ok lo && (near_lo || negb (ok (lo + 1))) then lo * unit
      else if ok (lo + 1) then (lo + 1) * unit
      else shortest_digits x len (k + 1) fuel'
  end.

(** [Number::toString] of an integer: decimal digits below 10^21, and from
    there on the shortest digits that denote the number, with an exponent *)
Definition number_to_string (n : Z) : string :=
  if Z.abs n <? 10 ^ 21 then dec n
  else
    let x := match as_double (Z.abs n) with Some y => y | None => Z.abs n end in
    let len := Z.of_nat (String.length (dec x)) in
    let value := shortest_digits x len 1 17 in
    let exponent := Z.of_nat (String.length (dec value)) - 1 in
    let digits := dec (strip_zeros value (Z.to_nat len)) in
    (if n <? 0 then "-" else "")
    ++ match digits with
       | String first EmptyString => digits
       | String first rest => String first ("." ++ rest)
       | EmptyString => digits
       end
    ++ "e+" ++ dec exponent.

(** ** JavaScript values *)

Inductive prim : Type :=
| VUndef
| VNull
| VBool (b : bool)
| VNum (n : Z)
| VStr (s : string).

(** What [JSON.parse] yields: a primitive, an array, or an object with its
    properties in own-property order. *)
#[warnings="-register-all"] Inductive val : Type :=
| Prim (p : prim)
| Arr (l : list val)
| Obj (o : list (string * val)).

Coercion Prim : prim >-> val.

Definition prim_eqb (a b : prim) : bool :=
  match a, b with
  | VUndef, VUndef => true
  | VNull, VNull => true
  | VBool x, VBool y => Bool.eqb x y
  | VNum x, VNum y => x =? y
  | VStr x, VStr y => String.eqb x y
  | _, _ => false
  end.

(** [set.has(v)] for a value [a] of the set: primitives compare by value,
    and two arrays or objects of a parsed file are never the same object *)
Definition same_value (a v : val) : bool :=
  match a, v with
  | Prim p, Prim q => prim_eqb p q
  | _, _ => false
  end.

(** [String(p)] *)
Definition prim_to_string (p : prim) : string :=
  match p with
  | VUndef => "undefined"
  | VNull => "null"
  | VBool true => "true"
  | VBool false => "false"
  | VNum n => number_to_string n
  | VStr s => s
  end.

(** [String(v)]: an array joins its elements with commas, [null] and
    [undefined] among them as the empty string, and an object is
    ["[object Object]"] *)
Fixpoint to_string (v : val) : string :=
  match v with
  | Prim p => prim_to_string p
  | Arr l =>
      join ","
        (map (fun e => match e with
                       | Prim (VUndef | VNull) => ""
                       | _ => to_string e
                       end) l)
  | Obj _ => "[object Object]"
  end.

(** [Number(v)]; an array or an object converts through its string *)
Definition to_number (v : val) : number :=
  match v with
  | Prim VUndef => NaN
  | Prim VNull => Int 0
  | Prim (VBool b) => Int (if b then 1 else 0)
  | Prim (VNum n) => Int n
  | Prim (VStr s) => string_to_number s
  | Arr _ | Obj _ => string_to_number (to_string v)
  end.

(** [Boolean(v)] *)
Definition truthy (v : val) : bool :=
  match v with
  | Prim VUndef | Prim VNull => false
  | Prim (VBool b) => b
  | Prim (VNum n) => negb (n =? 0)
  | Prim (VStr s) => nonempty s
  | Arr _ | Obj _ => true
  end.

(** [v != undefined] *)
Definition defined (v : val) : bool :=
  match v with
  | Prim VUndef | Prim VNull => false
  | _ => true
  end.

(** [v === p] for a primitive [p] *)
Definition strict_eq (v : val) (p : prim) : bool :=
  match v with
  | Prim q => prim_eqb q p
  | Arr _ | Obj _ => false
  end.

(** [x == y] on two numbers *)
Definition number_eqb (x y : number) : bool :=
  match x, y with
  | Int a, Int b => a =? b
  | Inf a, Inf b => Bool.eqb a b
  | _, _ => false
  end.

(** [v == p] for a primitive [p] (abstract equality): [null] and
    [undefined] equal each other and nothing else; two strings compare as
    strings, and so does an array or an object (through its string) with a
    string; every other pair compares as numbers. Of two numbers compared
    here one at least comes from a number or a boolean, so two numbers
    that are not integers never meet. *)
Definition loose_eq (v : val) (p : prim) : bool :=
  match v, p with
  | Prim (VUndef | VNull), (VUndef | VNull) => true
  | Prim (VUndef | VNull), _ => false
  | _, (VUndef | VNull) => false
  | Prim (VStr a), VStr b => String.eqb a b
  | (Arr _ | Obj _), VStr b => String.eqb (to_string v) b
  | _, _ => number_eqb (to_number v) (to_number p)
  end.

(** [v < n] and [v > n] for an integer [n] *)
Definition lt_num (v : val) (n : Z) : bool :=
  match to_number v with
  | Int m => m <? n
  | Frac below => below <? n
  | Inf negative => negative
  | NaN => false
  end.

Definition gt_num (v : val) (n : Z) : bool :=
  match to_number v with
  | Int m => m >? n
  | Frac below => below >=? n
  | Inf negative => negb negative
  | NaN => false
  end.

Definition MAX_SAFE_INTEGER : Z := 9007199254740991.

(** [Number.isSafeInteger(v)], with the integer *)
Definition as_safe_integer (v : val) : option Z :=
  match v with
  | Prim (VNum n) =>
      if (- MAX_SAFE_INTEGER <=? n) && (n <=? MAX_SAFE_INTEGER) then Some n
      else None
  | _ => None
  end.

Definition isSafeInteger (v : val) : bool :=
  match as_safe_integer v with Some _ => true | None => false end.

(** ** Objects as property lists *)

Definition obj : Type := list (string * val).

Fixpoint get (k : string) (o : obj) : val :=
  match o with
  | [] => VUndef
  | (k', v) :: r => if String.eqb k k' then v else get k r
  end.

Fixpoint has (k : string) (o : obj) : bool :=
  match o with
  | [] => false
  | (k', _) :: r => String.eqb k k' || has k r
  end.

(** [o[k] = v]: an existing property keeps its place, a new one goes last *)
Fixpoint set (k : string) (v : val) (o : obj) : obj :=
  match o with
  | [] => [(k, v)]
  | (k', v') :: r =>
      if String.eqb k k' then (k', v) :: r else (k', v') :: set k v r
  end.

(** [delete o[k]] *)
Fixpoint del (k : string) (o : obj) : obj :=
  match o with
  | [] => []
  | (k', v') :: r =>
      if String.eqb k k' then del k r else (k', v') :: del k r
  end.

(** [Object.assign(target, src)] *)
Definition assign (target src : obj) : obj :=
  fold_left (fun t kv => set (fst kv) (snd kv) t) src target.

(** [l.find(p)] together with the position of what it finds, which stands
    for the identity of the object found *)
Fixpoint findi {A : Type} (p : A -> bool) (i : nat) (l : list A)
  : option (nat * A) :=
  match l with
  | [] => None
  | x :: r => if p x then Some (i, x) else findi p (S i) r
  end.

(** [l.pop()]: the last element, and the list without it *)
Definition pop {A : Type} (l : list A) : option A * list A :=
  match List.rev l with
  | [] => (None, [])
  | x :: r => (Some x, List.rev r)
  end.

(** [l.push(x)] *)
Definition push {A : Type} (l : list A) (x : A) : list A := (l ++ [x])%list.

(** [l.forEach(x => ...)] over a body that updates captured variables [S]
    and may throw *)
Fixpoint foldM {A S : Type} (f : S -> A -> result S) (s : S) (l : list A)
  : result S :=
  match l with
  | [] => Ok s
  | x :: r => s' <- f s x ;; foldM f s' r
  end.

(** The string of a string value *)
Definition as_string (v : val) : option string :=
  match v with
  | Prim (VStr s) => Some s
  | _ => None
  end.

(** [v.k] for a name [k] that no prototype has: the property of an object,
    [undefined] on another value, and an exception of the runtime on
    [null] and [undefined] *)
Definition member (k : string) (v : val) : result val :=
  match v with
  | Prim (VUndef | VNull) => Throw TypeError
  | Obj o => Ok (get k o)
  | _ => Ok (Prim VUndef)
  end.

(** ** The schema model, as [JSON.parse] hands it to both emitters *)

Record Index : Type := mkIndex {
  idx_type : string;
  idx_columns : list string
}.

Record Table : Type := mkTable {
  tbl_name : string;
  tbl_type : string;
  columns : list obj;
  indexes : list Index
}.

Record Database : Type := mkDatabase {
  db_name : string;
  db_type : string;
  tables : list Table
}.

(** ** The output directory

    File name to content. [fs.outputFileSync] creates or replaces the
    file. *)
Definition disk : Type := list (string * string).

Fixpoint outputFileSync (path data : string) (d : disk) : disk :=
  match d with
  | [] => [(path, data)]
  | (p, c) :: r =>
      if String.eqb p path then (p, data) :: r
      else (p, c) :: outputFileSync path data r
  end.

(** * The SQL emitter, [src/parser/to-sql.js] *)

Module Sql.

Inductive int_size : Type := TINYINT | SMALLINT | MEDIUMINT | INT | BIGINT.

Definition size_name (sz : int_size) : string :=
  match sz with
  | TINYINT => "TINYINT"
  | SMALLINT => "SMALLINT"
  | MEDIUMINT => "MEDIUMINT"
  | INT => "INT"
  | BIGINT => "BIGINT"
  end.

Definition INTEGER_SIZES : list int_size :=
  [TINYINT; SMALLINT; MEDIUMINT; INT; BIGINT].

(** [INTEGER_SIZES.has(size)], with the member found *)
Definition integer_size (size : val) : option int_size :=
  find (fun sz => strict_eq size (VStr (size_name sz))) INTEGER_SIZES.

Definition INTEGER_MIN (sz : int_size) : Z :=
  match sz with
  | TINYINT => -128
  | SMALLINT => -32768
  | MEDIUMINT => -8388608
  | INT => -2147483648
  | BIGINT => -99999999999999
  end.

Definition INTEGER_MAX_UNSIGNED (sz : int_size) : Z :=
  match sz with
  | TINYINT => 255
  | SMALLINT => 65535
  | MEDIUMINT => 16777215
  | INT => 4294967295
  | BIGINT => 99999999999999
  end.

Definition INTEGER_MAX_SIGNED (sz : int_size) : Z :=
  match sz with
  | TINYINT => 127
  | SMALLINT => 32767
  | MEDIUMINT => 8388607
  | INT => 2147483647
  | BIGINT => 99999999999999
  end.

Definition absMin (isUnsigned : val) (sz : int_size) : Z :=
  if truthy isUnsigned then 0 else INTEGER_MIN sz.

Definition absMax (isUnsigned : val) (sz : int_size) : Z :=
  if truthy isUnsigned then INTEGER_MAX_UNSIGNED sz else INTEGER_MAX_SIGNED sz.

(** [nullable ? "NULL" : "NOT NULL"] *)
Definition null_clause (nullable : val) : string :=
  if truthy nullable then "NULL" else "NOT NULL".

(** [defaultValue != undefined ? ("DEFAULT " + defaultValue) : ""] *)
Definition default_clause (defaultValue : val) : string :=
  if defined defaultValue then "DEFAULT " ++ to_string defaultValue else "".

Definition processIntegerColumn (col : obj) : result string :=
  let size := get "size" col in
  match integer_size size with
  | None => Throw TypeError (* Integer column has invalid size *)
  | Some sz =>
      let isUnsigned := get "unsigned" col in
      let absMin := absMin isUnsigned sz in
      let absMax := absMax isUnsigned sz in
      let minimum := get "minValue" col in
      (* Integer column has out-of-range minimum value *)
      throw_if (defined minimum && lt_num minimum absMin) RangeError ;;;
      let maximum := get "maxValue" col in
      (* Integer column has out-of-range maximum value *)
      throw_if (defined maximum && gt_num maximum absMax) RangeError ;;;
      let defaultValue := get "defaultValue" col in
      (* Integer column has non-integer default value *)
      throw_if (defined defaultValue && negb (isSafeInteger defaultValue))
        TypeError ;;;
      (* Integer column has out-of-range default value *)
      throw_if (defined defaultValue
                && (lt_num defaultValue absMin || gt_num defaultValue absMax))
        RangeError ;;;
      let nullable := get "nullable" col in
      Ok (size_name sz ++ " "
          ++ (if truthy isUnsigned then "UNSIGNED" else "") ++ " "
          ++ null_clause nullable ++ " "
          ++ default_clause defaultValue)
  end.

Definition processSerialColumn (col : obj) : result string :=
  let size := get "size" col in
  match integer_size size with
  | None => Throw TypeError (* Serial column has invalid size *)
  | Some sz => Ok (size_name sz ++ " UNSIGNED NOT NULL AUTO_INCREMENT")
  end.

Definition processTimestampColumn (col : obj) : result string :=
  let isUnsigned := get "unsigned" col in
  let defaultValue := get "defaultValue" col in
  (* Default values for signed timestamps are not allowed *)
  throw_if (defined defaultValue && negb (truthy isUnsigned)) Error ;;;
  (* Timestamp column has non-zero default value *)
  throw_if (defined defaultValue && negb (strict_eq defaultValue (VNum 0)))
    RangeError ;;;
  Ok ("BIGINT UNSIGNED NOT NULL " ++ default_clause defaultValue).

Definition processStringColumn (col : obj) : result string :=
  let minimumLength := get "minLength" col in
  let maximumLength := get "maxLength" col in
  match as_safe_integer maximumLength with
  | None => Throw TypeError (* String column has non-integer maximum length *)
  | Some maxLen =>
      (if defined minimumLength then
         match as_safe_integer minimumLength with
         | None => Throw TypeError (* non-integer minimum length *)
         | Some minLen =>
             (* String column has out-of-range minimum length *)
             throw_if ((minLen <? 1) || (minLen >? maxLen)) RangeError
         end
       else Ok tt) ;;;
      let defaultValue := get "defaultValue" col in
      (* String column has non-empty literal string default value *)
      throw_if (defined defaultValue
                && negb (strict_eq defaultValue (VStr "''"))
                && negb (strict_eq defaultValue (VStr (dq ++ dq))))
        Error ;;;
      let nullable := get "nullable" col in
      Ok ("VARCHAR(" ++ dec maxLen ++ ") "
          ++ null_clause nullable ++ " "
          ++ (if defined defaultValue then "DEFAULT ''" else ""))
  end.

(** [/^0x[0-9a-fA-F]+$/.test(s)] *)
Definition is_hex_literal (s : string) : bool :=
  prefix "0x" s && nonempty (drop 2 s) && string_forallb is_hex (drop 2 s).

Definition processBinaryColumn (col : obj) : result string :=
  let minimumSize := get "minSize" col in
  let maximumSize := get "maxSize" col in
  match as_safe_integer maximumSize with
  | None => Throw TypeError (* Binary column has non-integer maximum length *)
  | Some maxSize =>
      minSize <-
        (if defined minimumSize then
           match as_safe_integer minimumSize with
           | None => Throw TypeError (* non-integer minimum length *)
           | Some minSize =>
               (* Binary column has out-of-range minimum length *)
               throw_if ((minSize <? 1) || (minSize >? maxSize)) RangeError ;;;
               Ok minSize
           end
         else Ok 0) ;;
      let defaultValue := get "defaultValue" col in
      defaultValue <-
        (if defined defaultValue
            && negb (is_hex_literal (to_string defaultValue))
         then
           if loose_eq defaultValue (VStr "''")
              || loose_eq defaultValue (VStr (dq ++ dq))
           then Ok (Prim (VStr "''"))
           else Throw Error (* Invalid default value for binary column *)
         else Ok defaultValue) ;;
      let nullable := get "nullable" col in
      Ok ((if minSize =? maxSize then "" else "VAR")
          ++ "BINARY(" ++ dec maxSize ++ ") "
          ++ null_clause nullable ++ " "
          ++ default_clause defaultValue)
  end.

Definition processBooleanColumn (col : obj) : result string :=
  let defaultValue := get "defaultValue" col in
  (* Boolean column has invalid default value *)
  throw_if (defined defaultValue
            && negb (strict_eq defaultValue (VNum 0))
            && negb (strict_eq defaultValue (VNum 1)))
    TypeError ;;;
  let nullable := get "nullable" col in
  Ok ("TINYINT(1) UNSIGNED "
      ++ null_clause nullable ++ " "
      ++ default_clause defaultValue).

(** [/^[A-Z0-9_]+$/.test(s)] *)
Definition is_code_name (s : string) : bool :=
  nonempty s
  && string_forallb (fun c => is_upper c || is_digit c || is_underscore c) s.

(** The variables the loop of [processCodeColumn] updates *)
Record code_state : Type := mkCodeState {
  valueCodes : list Z;
  valueNames : list val;
  highestCode : Z
}.

(** The body of [col.values.forEach(val => ...)] *)
Definition processCodeValue (st : code_state) (val : val)
  : result code_state :=
  code <- member "code" val ;;
  name <- member "value" val ;;
  match as_safe_integer code with
  | None => Throw TypeError (* Code column has invalid value code *)
  | Some code =>
      throw_if (code <? 0) TypeError ;;;
      (* Code column has invalid value name *)
      throw_if (negb (is_code_name (to_string name))) Error ;;;
      (* Code column contains duplicate value code *)
      throw_if (existsb (Z.eqb code) (valueCodes st)) ReferenceError ;;;
      (* Code column contains duplicate value name *)
      throw_if (existsb (same_value name) (valueNames st)) ReferenceError ;;;
      Ok (mkCodeState (push (valueCodes st) code) (push (valueNames st) name)
            (if code >? highestCode st then code else highestCode st))
  end.

Definition processCodeColumn (col : obj) : result string :=
  values <-
    match get "values" col with
    | Arr l =>
        (* Code column has no values *)
        throw_if (Nat.eqb (List.length l) 0) Error ;;; Ok l
    | Prim (VUndef | VNull) => Throw TypeError (* no property of undefined *)
    | Prim (VStr s) =>
        throw_if (Nat.eqb (String.length s) 0) Error ;;;
        Throw TypeError (* a string has no forEach *)
    | Prim (VBool _ | VNum _) => Throw Error (* its length is undefined *)
    | Obj o =>
        throw_if (negb (truthy (get "length" o))) Error ;;;
        Throw TypeError (* forEach is no function of an object *)
    end ;;
  st <- foldM processCodeValue (mkCodeState [] [] 0) values ;;
  (* Code column contains too large value code *)
  throw_if (highestCode st >? 255) RangeError ;;;
  let defaultValue := get "defaultValue" col in
  (* Code column has unknown default value *)
  throw_if (defined defaultValue
            && negb (existsb (fun c => strict_eq defaultValue (VNum c))
                       (valueCodes st)))
    ReferenceError ;;;
  let nullable := get "nullable" col in
  Ok ("TINYINT UNSIGNED "
      ++ null_clause nullable ++ " "
      ++ default_clause defaultValue).

(** [/^[a-z_]+$/.test(s)] *)
Definition is_table_name (s : string) : bool :=
  nonempty s && string_forallb (fun c => is_lower c || is_underscore c) s.

(** [/^[a-z][a-zA-Z0-9]+$/.test(s)] *)
Definition is_column_name (s : string) : bool :=
  match s with
  | EmptyString => false
  | String c r =>
      is_lower c && nonempty r
      && string_forallb (fun c => is_lower c || is_upper c || is_digit c) r
  end.

(** The body of [indexes.forEach(idx => ...)]: the clause pushed *)
Definition processIndex (idx : Index) : result string :=
  let cols := join "," (idx_columns idx) in
  if String.eqb (idx_type idx) "primary" then Ok ("PRIMARY KEY (" ++ cols ++ ")")
  else if String.eqb (idx_type idx) "unique" then Ok ("UNIQUE (" ++ cols ++ ")")
  else if String.eqb (idx_type idx) "index" then Ok ("INDEX (" ++ cols ++ ")")
  else Throw Error (* Unrecognised index type *).

(** What the FK case finds: the target database (with its position in
    [databases]), table and column. *)
Record fk_target : Type := mkTarget {
  targetDatabase : nat * Database;
  targetTable : Table;
  targetCol : obj
}.

(** The FK case of [processTable] up to the nullable check: the dotted path
    is split and popped from its end, and each segment looked up. *)
Definition resolveTarget (col : obj) (database : nat * Database)
    (databases : list Database) : result fk_target :=
  match as_string (get "column" col) with
  | None => Throw TypeError (* col.column.split is not a function *)
  | Some path =>
      let targetParts := split_dot path in
      let (targetCol, targetParts) := pop targetParts in
      match targetCol with
      | None | Some EmptyString =>
          Throw ReferenceError (* No column provided for FK reference column *)
      | Some targetCol =>
          let (targetTable, targetParts) := pop targetParts in
          match targetTable with
          | None | Some EmptyString =>
              Throw ReferenceError (* No table provided *)
          | Some targetTable =>
              let (targetDatabase, _) := pop targetParts in
              targetDatabase <-
                match targetDatabase with
                | None => Ok database
                | Some dbname =>
                    match findi (fun db => String.eqb (db_name db) dbname)
                            0 databases with
                    | None => Throw ReferenceError (* Non-existent database *)
                    | Some found => Ok found
                    end
                end ;;
              match find (fun t => String.eqb (tbl_name t) targetTable)
                      (tables (snd targetDatabase)) with
              | None => Throw ReferenceError (* Non-existent table *)
              | Some targetTable =>
                  match find (fun c => strict_eq (get "name" c) (VStr targetCol))
                          (columns targetTable) with
                  | None => Throw ReferenceError (* Non-existent column *)
                  | Some targetCol =>
                      (* FK reference column is nullable *)
                      throw_if (truthy (get "nullable" targetCol)) TypeError ;;;
                      Ok (mkTarget targetDatabase targetTable targetCol)
                  end
              end
          end
      end
  end.

(** The rest of the FK case: the target's clause with its auto-increment
    and default removed, the FOREIGN KEY clause pushed, and the
    declaration's own nullability and default applied. *)
Definition processFKColumn (colName : string) (col : obj)
    (database : nat * Database) (databases : list Database)
    (tableSqlIdxes : list string) : result (string * list string) :=
  t <- resolveTarget col database databases ;;
  let type := get "type" (targetCol t) in
  colSqlDesc <-
    (if strict_eq type (VStr "integer") then
       d <- processIntegerColumn (targetCol t) ;;
       Ok (strip_default (replace_first "AUTO_INCREMENT" "" d))
     else if strict_eq type (VStr "serial") then
       d <- processSerialColumn (targetCol t) ;;
       Ok (strip_default (replace_first "AUTO_INCREMENT" "" d))
     else Throw TypeError (* type not suitable as FK reference *)) ;;
  let ondelete := get "ondelete" col in
  let tableSqlIdxes :=
    if defined ondelete && negb (loose_eq ondelete (VStr "NO ACTION"))
    then push tableSqlIdxes
           ("FOREIGN KEY (" ++ colName ++ ") REFERENCES "
               ++ (if Nat.eqb (fst (targetDatabase t)) (fst database) then ""
                   else db_name (snd (targetDatabase t)) ++ ".")
               ++ tbl_name (targetTable t)
               ++ " (" ++ to_string (get "name" (targetCol t))
               ++ ") ON DELETE " ++ to_string ondelete)
    else tableSqlIdxes in
  let colSqlDesc :=
    if truthy (get "nullable" col)
    then replace_first "NOT NULL" "NULL" colSqlDesc
    else colSqlDesc in
  let defaultValue := get "defaultValue" col in
  if defined defaultValue then
    (* Invalid FK default value *)
    throw_if (negb (isSafeInteger defaultValue)) TypeError ;;;
    Ok (colSqlDesc ++ " DEFAULT " ++ to_string defaultValue, tableSqlIdxes)
  else Ok (colSqlDesc, tableSqlIdxes).

(** The body of [table.columns.forEach(col => ...)], on the two arrays
    [tableSqlCols] and [tableSqlIdxes] it pushes to. *)
Definition processColumn (database : nat * Database)
    (databases : list Database) (acc : list string * list string)
    (col : obj) : result (list string * list string) :=
  let (tableSqlCols, tableSqlIdxes) := acc in
  let colName := to_string (get "name" col) in
  (* Invalid table column name *)
  throw_if (negb (is_column_name colName)) Error ;;;
  let type := get "type" col in
  r <-
    (if strict_eq type (VStr "FK") then
       processFKColumn colName col database databases tableSqlIdxes
     else if strict_eq type (VStr "integer") then
       d <- processIntegerColumn col ;; Ok (d, tableSqlIdxes)
     else if strict_eq type (VStr "serial") then
       d <- processSerialColumn col ;; Ok (d, tableSqlIdxes)
     else if strict_eq type (VStr "timestamp") then
       d <- processTimestampColumn col ;; Ok (d, tableSqlIdxes)
     else if strict_eq type (VStr "string") then
       d <- processStringColumn col ;; Ok (d, tableSqlIdxes)
     else if strict_eq type (VStr "binary") then
       d <- processBinaryColumn col ;; Ok (d, tableSqlIdxes)
     else if strict_eq type (VStr "boolean") then
       d <- processBooleanColumn col ;; Ok (d, tableSqlIdxes)
     else if strict_eq type (VStr "code") then
       d <- processCodeColumn col ;; Ok (d, tableSqlIdxes)
     else Throw TypeError (* Unknown table column type *)) ;;
  let (colSqlDesc, tableSqlIdxes) := r in
  Ok (push tableSqlCols (colName ++ " " ++ colSqlDesc), tableSqlIdxes).

(** The statement [processTable] returns, around its clauses *)
Definition createTable (name : string) (clauses : list string) : string :=
  nl ++ spaces 8 ++ "CREATE TABLE " ++ name ++ " (" ++ nl
     ++ spaces 12 ++ join ("," ++ nl) clauses ++ nl
     ++ spaces 8 ++ ");" ++ nl
     ++ spaces 4.

Definition processTable (table : Table) (database : nat * Database)
    (databases : list Database) : result string :=
  let name := tbl_name table in
  (* Invalid table name *)
  throw_if (negb (is_table_name name)) Error ;;;
  (* Non-fixed tables are not supported yet *)
  throw_if (negb (String.eqb (tbl_type table) "fixed")) TypeError ;;;
  tableSqlIdxes <-
    foldM (fun idxes idx => c <- processIndex idx ;; Ok (push idxes c))
      [] (indexes table) ;;
  r <- foldM (processColumn database databases) ([], tableSqlIdxes)
         (columns table) ;;
  let (tableSqlCols, tableSqlIdxes) := r in
  Ok (createTable name (List.app tableSqlCols tableSqlIdxes)).

(** The text [dbSql] starts as *)
Definition prologue (db : Database) : string :=
  nl ++ spaces 12 ++ "CREATE DATABASE " ++ db_name db
     ++ " CHARACTER SET utf8mb4 COLLATE utf8mb4_unicode_ci;" ++ nl
     ++ spaces 12 ++ "USE " ++ db_name db ++ ";" ++ nl
     ++ spaces 8.

(** The text [dbSql] built for one database, before it is written *)
Definition databaseSql (database : nat * Database) (databases : list Database)
  : result string :=
  let db := snd database in
  let dbSql := prologue db in
  foldM (fun dbSql table =>
           t <- processTable table database databases ;; Ok (dbSql ++ t))
    dbSql (tables db).

(** [databases.forEach(db => ...)] for the input file [f], from the
    database at position [i] on: an exception leaves the loop and the disk
    as the earlier iterations made it. *)
Fixpoint compileDatabases (f : string) (databases : list Database)
    (i : nat) (rest : list Database) (d : disk) : disk * option error :=
  match rest with
  | [] => (d, None)
  | db :: rest' =>
      match databaseSql (i, db) databases with
      | Throw e => (d, Some e)
      | Ok dbSql =>
          compileDatabases f databases (S i) rest'
            (outputFileSync (f ++ ".sql") dbSql d)
      end
  end.

(** The emitter on one input file [f].json holding [databases] *)
Definition compileFile (f : string) (databases : list Database) (d : disk)
  : disk * option error :=
  compileDatabases f databases 0 databases d.

(** The emitter on the input files in directory order; the first exception
    ends the process. *)
Fixpoint compile (files : list (string * list Database)) (d : disk)
  : disk * option error :=
  match files with
  | [] => (d, None)
  | (f, databases) :: rest =>
      match compileFile f databases d with
      | (d', None) => compile rest d'
      | (d', Some e) => (d', Some e)
      end
  end.

End Sql.

(** * The descriptor emitter, [src/parser/to-lua.js] *)

Module Lua.

(** One line of a template literal: its indentation, its text, a newline *)
Definition line (indent : nat) (text : string) : string :=
  spaces indent ++ text ++ nl.

(** [s.replace(/c/g, rep)] for a single character [c] *)
Fixpoint replace_all_char (c : ascii) (rep : string) (s : string) : string :=
  match s with
  | EmptyString => EmptyString
  | String x r =>
      if Ascii.eqb x c then rep ++ replace_all_char c rep r
      else String x (replace_all_char c rep r)
  end.

(** The key of [objectToLua]: a key of digits is parsed, to the nearest
    double, and bracketed *)
Definition luaKey (k : string) : string :=
  if all_digits k then
    "[" ++ match as_double (digits_value 0 k) with
           | Some n => number_to_string n
           | None => "Infinity"
           end ++ "]"
  else k.

(** The value of [objectToLua], by [typeof value] *)
Definition luaValue (value : val) : result string :=
  match value with
  | Prim (VStr s) =>
      Ok (dq ++ replace_all_char (ascii_of_nat 34) (bsl ++ dq)
                  (replace_all_char (ascii_of_nat 92) (bsl ++ bsl) s)
             ++ dq)
  | Prim VNull | Arr _ | Obj _ =>
      Throw SyntaxError (* Detected nested object within column object *)
  | Prim p => Ok (prim_to_string p)
  end.

(** The body of [Object.keys(obj).forEach(k => ...)] in [objectToLua] *)
Definition propertyToLua (luaCode : string) (kv : string * val)
  : result string :=
  let (k, value) := kv in
  let key := luaKey k in
  value <- luaValue value ;;
  Ok (luaCode ++ key ++ " = " ++ value ++ ",").

Definition objectToLua (o : obj) : result string :=
  luaCode <- foldM propertyToLua "{" o ;;
  Ok (luaCode ++ "}").

(** The variables of the per-file closure that [writeTable] reads and
    updates. The two databases are kept as the loop leaves them: a
    column that is not an FK is updated in place, and a later FK lookup
    sees it so. *)
Record state : Type := mkState {
  coreDatabase : option Database;
  instDatabase : option Database;
  luaCode : string
}.

Definition emit (text : string) (st : state) : state :=
  mkState (coreDatabase st) (instDatabase st) (luaCode st ++ text).

Fixpoint set_nth {A : Type} (n : nat) (f : A -> A) (l : list A) : list A :=
  match n, l with
  | _, [] => []
  | O, x :: r => f x :: r
  | S k, x :: r => x :: set_nth k f r
  end.

(** The column object at position [k] of table [j] is now [column] *)
Definition store_column (j k : nat) (column : obj) (db : Database) : Database :=
  mkDatabase (db_name db) (db_type db)
    (set_nth j (fun t =>
                  mkTable (tbl_name t) (tbl_type t)
                    (set_nth k (fun _ => column) (columns t)) (indexes t))
       (tables db)).

Definition update_column (type : string) (j k : nat) (column : obj)
    (st : state) : state :=
  if String.eqb type "core"
  then mkState (option_map (store_column j k column) (coreDatabase st))
         (instDatabase st) (luaCode st)
  else mkState (coreDatabase st)
         (option_map (store_column j k column) (instDatabase st)) (luaCode st).

(** [parts[i]] *)
Definition item (parts : list string) (i : nat) : prim :=
  match nth_error parts i with
  | Some s => VStr s
  | None => VUndef
  end.

(** The FK branch of [writeTable] up to the check of what it found: the
    column a declaration refers to, in the two databases as they are *)
Definition fkTarget (coreDatabase instDatabase : option Database)
    (type : string) (column : obj) : result obj :=
  match as_string (get "column" column) with
  | None => Throw TypeError (* column.column.split is not a function *)
  | Some path =>
      let parts := split_dot path in
      let '(fkDatabase, fkTable, fkColName) :=
        if Nat.eqb (List.length parts) 3
        then (item parts 0, item parts 1, item parts 2)
        else (VUndef, item parts 0, item parts 1) in
      db <-
        match fkDatabase with
        | VUndef =>
            Ok (if String.eqb type "core" then coreDatabase
                else instDatabase)
        | _ =>
            match coreDatabase with
            | None => Throw TypeError (* no property name of undefined *)
            | Some core =>
                Ok (if loose_eq fkDatabase (VStr (db_name core))
                    then coreDatabase else instDatabase)
            end
        end ;;
      match db with
      | None => Throw TypeError (* no property tables of undefined *)
      | Some db =>
          match find (fun t => loose_eq (VStr (tbl_name t)) fkTable)
                  (tables db) with
          | None => Throw TypeError (* no property columns of undefined *)
          | Some t =>
              match find (fun col => loose_eq (get "name" col) fkColName)
                      (columns t) with
              | None => Throw ReferenceError (* column for FK not found *)
              | Some fkCol => Ok fkCol
              end
          end
      end
  end.

(** The FK branch of [writeTable]: the column the declaration stands for,
    a fresh object. *)
Definition resolveFK (st : state) (type : string) (column : obj)
  : result obj :=
  let name := get "name" column in
  fkCol <- fkTarget (coreDatabase st) (instDatabase st) type column ;;
  let nullable := get "nullable" column in
  let column :=
    assign (assign [] fkCol) [("name", name); ("nullable", nullable)] in
  Ok (del "values" column).

(** The signed minimum of the [switch (column.size)] for [minValue] *)
Definition signedMin (size : val) : option Z :=
  if strict_eq size (VStr "TINYINT") then Some (-128)
  else if strict_eq size (VStr "SMALLINT") then Some (-32768)
  else if strict_eq size (VStr "MEDIUMINT") then Some (-8388608)
  else if strict_eq size (VStr "INT") then Some (-2147483648)
  else if strict_eq size (VStr "BIGINT") then Some (-99999999999999)
  else None.

(** The [switch (column.size)] of an integer column for [maxValue] *)
Definition integerMax (size : val) (unsigned : val) : option Z :=
  if strict_eq size (VStr "TINYINT")
  then Some (if truthy unsigned then 255 else 127)
  else if strict_eq size (VStr "SMALLINT")
  then Some (if truthy unsigned then 65535 else 32767)
  else if strict_eq size (VStr "MEDIUMINT")
  then Some (if truthy unsigned then 16777215 else 8388607)
  else if strict_eq size (VStr "INT")
  then Some (if truthy unsigned then 4294967295 else 2147483647)
  else if strict_eq size (VStr "BIGINT")
  then Some (if truthy unsigned then 99999999999999 else 99999999999999)
  else None.

(** The [switch (column.size)] of a serial column for [maxValue] *)
Definition serialMax (size : val) : option Z :=
  if strict_eq size (VStr "TINYINT") then Some 255
  else if strict_eq size (VStr "SMALLINT") then Some 65535
  else if strict_eq size (VStr "MEDIUMINT") then Some 16777215
  else if strict_eq size (VStr "INT") then Some 4294967295
  else if strict_eq size (VStr "BIGINT") then Some 99999999999999
  else None.

(** The bounds [writeTable] attaches to an integer or serial column *)
Definition attachBounds (column : obj) : result obj :=
  if loose_eq (get "type" column) (VStr "integer") then
    column <-
      (if negb (defined (get "minValue" column)) then
         if truthy (get "autoIncrement" column)
         then Ok (set "minValue" (VNum 1) column)
         else if truthy (get "unsigned" column)
         then Ok (set "minValue" (VNum 0) column)
         else match signedMin (get "size" column) with
              | Some m => Ok (set "minValue" (VNum m) column)
              | None => Throw SyntaxError (* Unrecognised integer type *)
              end
       else Ok column) ;;
    if negb (defined (get "maxValue" column)) then
      match integerMax (get "size" column) (get "unsigned" column) with
      | Some m => Ok (set "maxValue" (VNum m) column)
      | None => Throw SyntaxError (* Unrecognised integer type *)
      end
    else Ok column
  else if loose_eq (get "type" column) (VStr "serial") then
    let column := set "minValue" (VNum 1) column in
    match serialMax (get "size" column) with
    | Some m => Ok (set "maxValue" (VNum m) column)
    | None => Throw SyntaxError (* Unrecognised serial size *)
    end
  else Ok column.

(** The body of [column.values.forEach(value => ...)]: the two lines of an
    entry, under the path [this] of the column object *)
Definition codeValueLua (this : string) (codeValuesLua : string) (value : val)
  : result string :=
  name <- member "value" value ;;
  code <- member "code" value ;;
  Ok (codeValuesLua ++ nl
        ++ line 24 (this ++ "." ++ to_string name ++ " = " ++ to_string code)
        ++ line 24 (this ++ "[" ++ to_string code ++ "] = "
                    ++ dq ++ to_string name ++ dq)
        ++ spaces 20).

(** [column.values.map(v => v.code)] *)
Definition codesOf (values : list val) : result (list val) :=
  foldM (fun codes v => code <- member "code" v ;; Ok (push codes code))
    [] values.

(** The text [codeValuesLua] of a [values] array, under the path [this]
    of the column object: the lines of each entry, then the set of the
    codes *)
Definition codeValues (this : string) (values : list val) : result string :=
  codeValuesLua <- foldM (codeValueLua this) "" values ;;
  codes <- codesOf values ;;
  let validCodes := to_string (Arr codes) in
  Ok (codeValuesLua ++ nl
        ++ line 20 (this ++ ".codes = Set:new({" ++ validCodes ++ "})")
        ++ spaces 16).

(** The column object as [objectToLua] receives it, and [codeValuesLua] *)
Definition finishColumn (prefix : string) (column : obj)
  : result (obj * string) :=
  let column := del "comments" column in
  let column := set "_objectType" (VStr "column") column in
  let values := get "values" column in
  if loose_eq (get "type" column) (VStr "code") && truthy values then
    match values with
    | Arr l =>
        let this := prefix ++ "." ++ to_string (get "name" column) in
        codeValuesLua <- codeValues this l ;;
        Ok (del "values" column, codeValuesLua)
    | _ => Throw TypeError (* column.values.forEach is not a function *)
    end
  else Ok (column, "").

(** The text [writeTable] appends for a column; [this] is the path of the
    column object and [prefix] that of its table *)
Definition columnBlock (prefix this lua codeValuesLua : string) : string :=
  nl
  ++ line 16 (this ++ " = " ++ lua)
  ++ line 16 (this ++ "._parentTable = " ++ prefix)
  ++ line 16 codeValuesLua
  ++ line 16 ("setmetatable(" ++ this ++ ", FrozenTableMetatable)")
  ++ spaces 12.

(** The text [writeTable] appends before and after the columns *)
Definition tableOpen (prefix name : string) : string :=
  nl
  ++ line 12 (prefix ++ " = {}")
  ++ line 12 (prefix ++ "._objectType = " ++ dq ++ "table" ++ dq)
  ++ line 12 (prefix ++ "._objectName = " ++ dq ++ name ++ dq)
  ++ spaces 8.

Definition tableClose (prefix : string) : string :=
  nl
  ++ line 12 ("setmetatable(" ++ prefix ++ ", FrozenTableMetatable)")
  ++ spaces 8.

(** The body of [table.columns.forEach(column => ...)] for the column at
    position [k] of the table at position [j] of the [type] database *)
Definition writeColumn (type : string) (j : nat) (table : Table)
    (st : state) (kc : nat * obj) : result state :=
  let (k, column) := kc in
  let isFK := loose_eq (get "type" column) (VStr "FK") in
  column <- (if isFK then resolveFK st type column else Ok column) ;;
  column <- attachBounds column ;;
  let prefix := "Schema." ++ type ++ "." ++ tbl_name table in
  r <- finishColumn prefix column ;;
  let (column, codeValuesLua) := r in
  let this := prefix ++ "." ++ to_string (get "name" column) in
  lua <- objectToLua column ;;
  let st := if isFK then st else update_column type j k column st in
  Ok (emit (columnBlock prefix this lua codeValuesLua) st).

(** Each element with its position *)
Definition indexed {A : Type} (l : list A) : list (nat * A) :=
  combine (seq 0 (List.length l)) l.

(** [writeTable(type, table)] for the table at position [j]. No iteration
    touches the column object of a later one, so the array is read at the
    start of the loop. *)
Definition writeTable (type : string) (st : state) (jt : nat * Table)
  : result state :=
  let (j, table) := jt in
  let prefix := "Schema." ++ type ++ "." ++ tbl_name table in
  let st := emit (tableOpen prefix (tbl_name table)) st in
  st <- foldM (writeColumn type j table) st (indexed (columns table)) ;;
  Ok (emit (tableClose prefix) st).

(** The fixed texts of the per-file template *)
Definition header : string :=
  nl
  ++ line 8 "local FrozenTableMetatable = require('Base.Lua.FrozenTableMetatable')"
  ++ line 8 "local Set = require('Base.DataStructure.Set')"
  ++ nl
  ++ line 8 "local Schema = {}"
  ++ spaces 4.

Definition coreOpen (core : Database) : string :=
  nl
  ++ line 12 "Schema.core = {}"
  ++ line 12 ("Schema.core._objectType = " ++ dq ++ "database" ++ dq)
  ++ line 12 ("Schema.core._objectName = " ++ dq ++ db_name core ++ dq)
  ++ spaces 8.

Definition instOpen : string :=
  nl
  ++ line 12 "Schema.inst = {}"
  ++ line 12 ("Schema.inst._objectType = " ++ dq ++ "database" ++ dq)
  ++ spaces 8.

Definition databaseClose (type : string) : string :=
  nl
  ++ line 12 ("setmetatable(Schema." ++ type ++ ", FrozenTableMetatable)")
  ++ spaces 8.

Definition footer : string :=
  nl
  ++ line 8 "setmetatable(Schema, FrozenTableMetatable)"
  ++ nl
  ++ line 8 "return Schema"
  ++ spaces 4.

(** The tables of one of the two databases, when the file has it *)
Definition writeDatabase (type : string) (db : option Database) (st : state)
  : result state :=
  match db with
  | Some db =>
      st <- foldM (writeTable type) st (indexed (tables db)) ;;
      Ok (emit (databaseClose type) st)
  | None => Ok st
  end.

(** The text handed to [luamin.minify] for one input file *)
Definition compileSchema (databases : list Database) : result string :=
  (* Invalid amount of databases *)
  throw_if ((List.length databases <? 1)%nat || (2 <? List.length databases)%nat)
    SyntaxError ;;;
  let coreDatabase :=
    find (fun db => String.eqb (db_type db) "fixed") databases in
  let instDatabase :=
    find (fun db => String.eqb (db_type db) "instance") databases in
  let st := mkState coreDatabase instDatabase header in
  let st :=
    match coreDatabase with
    | Some core => emit (coreOpen core) st
    | None => st
    end in
  let st :=
    match instDatabase with
    | Some _ => emit instOpen st
    | None => st
    end in
  st <- writeDatabase "core" coreDatabase st ;;
  st <- writeDatabase "inst" instDatabase st ;;
  Ok (luaCode st ++ footer).

(** The emitter on one input file [f].json holding [databases]. The
    minifier is the library's, a function of the text it is given. *)
Definition compileFile (minify : string -> result string) (f : string)
    (databases : list Database) (d : disk) : disk * option error :=
  match luaCode <- compileSchema databases ;; minify luaCode with
  | Throw e => (d, Some e)
  | Ok luaCode => (outputFileSync (f ++ ".lua") luaCode d, None)
  end.

End Lua.

(** * The input directory

    Both emitters, and the listing of the schema server, take the schemas
    of a directory from its file names, as
    [files.filter(f => /\.json$/.test(f)).map(f => f.slice(0, -5))]. *)

Fixpoint take (n : nat) (s : string) : string :=
  match n, s with
  | O, _ => EmptyString
  | S k, EmptyString => EmptyString
  | S k, String c r => String c (take k r)
  end.

(** [/\.json$/.test(f)] *)
Definition is_json_file (f : string) : bool :=
  String.eqb (drop (String.length f - 5)%nat f) ".json".

(** [s.slice(0, -n)] *)
Definition slice_end (n : nat) (s : string) : string :=
  take (String.length s - n)%nat s.

Definition schemaNames (files : list string) : list string :=
  map (slice_end 5) (filter is_json_file files).

(** The content of a file of a directory, when the file is there *)
Fixpoint readFile (path : string) (d : disk) : option string :=
  match d with
  | [] => None
  | (p, c) :: r => if String.eqb p path then Some c else readFile path r
  end.

(** * The schema server, [src/app/server.js]

    A handler answers at once, or calls the file system and answers from
    the callback. Files are named within the schemas directory. The body
    of a PUT is the text [JSON.stringify(req.body, null, 4)], and the list
    of a listing is sent through [JSON.stringify]. *)

Module Server.

(** [err.code], as far as a handler tells errors apart *)
Inductive fs_error : Type := ENOENT | EOTHER.

Inductive response : Type :=
| sendStatus (status : nat)
| send (body : string)
| sendList (names : list string).

Inductive action : Type :=
| Respond (r : response)
| Readdir (callback : fs_error + list string -> response)
| ReadFile (file : string) (callback : fs_error + string -> response)
| WriteFile (file data : string) (callback : option fs_error -> response).

(** A character of [[a-z0-9-_.]] *)
Definition is_name_char (c : ascii) : bool :=
  is_lower c || is_digit c || (nat_of_ascii c =? 45)%nat || is_underscore c
  || (nat_of_ascii c =? 46)%nat.

(** [/^[a-z0-9-_.]{1,100}$/.test(name)] *)
Definition is_schema_name (name : string) : bool :=
  (1 <=? String.length name)%nat && (String.length name <=? 100)%nat
  && string_forallb is_name_char name.

(** [!name || !/^[a-z0-9-_.]{1,100}$/.test(name)] *)
Definition invalid (name : string) : bool :=
  negb (nonempty name) || negb (is_schema_name name).

(** [GET /schemas] *)
Definition getSchemas : action :=
  Readdir (fun r =>
             match r with
             | inl _ => sendStatus 500
             | inr files => sendList (schemaNames files)
             end).

(** [GET /schema/:name] *)
Definition getSchema (name : string) : action :=
  if invalid name then Respond (sendStatus 400)
  else ReadFile (name ++ ".json")
         (fun r =>
            match r with
            | inl ENOENT => sendStatus 404
            | inl EOTHER => sendStatus 500
            | inr schema => send schema
            end).

(** [PUT /schema/:name] *)
Definition putSchema (name body : string) : action :=
  if invalid name then Respond (sendStatus 400)
  else WriteFile (name ++ ".json") body
         (fun err =>
            match err with
            | Some _ => sendStatus 500
            | None => sendStatus 200
            end).

End Server.

(** * Specification-level definitions *)

(** An object has each property once *)
Definition wf_obj (o : obj) : Prop := NoDup (map fst o).

(** The absolute bounds of an integer column, as the specification lists
    them by size: the unsigned pair when [unsigned], the signed pair
    otherwise. *)
Definition documented_bounds (size : Sql.int_size) (unsigned : bool) : Z * Z :=
  match size, unsigned with
  | Sql.TINYINT, true => (0, 255)
  | Sql.TINYINT, false => (-128, 127)
  | Sql.SMALLINT, true => (0, 65535)
  | Sql.SMALLINT, false => (-32768, 32767)
  | Sql.MEDIUMINT, true => (0, 16777215)
  | Sql.MEDIUMINT, false => (-8388608, 8388607)
  | Sql.INT, true => (0, 4294967295)
  | Sql.INT, false => (-2147483648, 2147483647)
  | Sql.BIGINT, true => (0, 99999999999999)
  | Sql.BIGINT, false => (-99999999999999, 99999999999999)
  end.

(** An entry [{code: ..., value: ...}] of a code column's [values] whose
    two properties are primitives *)
Record codeval : Type := mkCodeval { code : prim; value : prim }.

Definition entry (v : codeval) : val :=
  Obj [("code", Prim (code v)); ("value", Prim (value v))].

(** The [values] of a code column whose entries are, as the data model
    has them, a number and a name *)
Definition code_values (entries : list (Z * string)) : list codeval :=
  map (fun e => mkCodeval (VNum (fst e)) (VStr (snd e))) entries.

(** An entry the data model allows: a safe integer code that is not
    negative, and a name of capitals, digits and underscores *)
Definition valid_entry (e : Z * string) : Prop :=
  0 <= fst e <= MAX_SAFE_INTEGER /\ Sql.is_code_name (snd e) = true.

(** Some element occurs twice *)
Fixpoint has_duplicate {A : Type} (eqb : A -> A -> bool) (l : list A) : bool :=
  match l with
  | [] => false
  | x :: r => existsb (eqb x) r || has_duplicate eqb r
  end.

(** Some element of [l] is in [seen] *)
Definition overlaps {A : Type} (eqb : A -> A -> bool) (seen l : list A) : bool :=
  existsb (fun x => existsb (eqb x) seen) l.

(** The highest of a list of codes, 0 for none *)
Definition highest (codes : list Z) : Z := fold_left Z.max codes 0.

(** What looking up a table and then a column by name comes to; [same]
    is the comparison of a column's name with the name looked for. *)
Inductive lookup : Type :=
| NoDatabase
| NoTable
| NoColumn
| Found (c : obj).

Definition lookup_column (same : val -> string -> bool)
    (db : option Database) (table column : string) : lookup :=
  match db with
  | None => NoDatabase
  | Some db =>
      match find (fun t => String.eqb (tbl_name t) table) (tables db) with
      | None => NoTable
      | Some t =>
          match find (fun c => same (get "name" c) column) (columns t) with
          | None => NoColumn
          | Some c => Found c
          end
      end
  end.

(** The segments of a reference path [[database.]table.column] *)
Definition segments (dbref : option string) (table column : string)
  : list string :=
  match dbref with
  | Some database => [database; table; column]
  | None => [table; column]
  end.


(** The database a reference path selects in the descriptor emitter: the
    core database when it is the one named and the instance database
    otherwise, or the declaring table's own *)
Definition lua_database (st : Lua.state) (type : string)
    (dbref : option string) : option Database :=
  match dbref with
  | None =>
      if String.eqb type "core" then Lua.coreDatabase st
      else Lua.instDatabase st
  | Some name =>
      match Lua.coreDatabase st with
      | None => None
      | Some core =>
          if String.eqb name (db_name core) then Lua.coreDatabase st
          else Lua.instDatabase st
      end
  end.

(** The bounds of a column in closed form: an explicit bound, or else the
    bound of the size and signedness, the minimum of an autoIncrement or
    serial column being 1 *)
Definition resolved_bounds (column : obj) : result (val * val) :=
  if loose_eq (get "type" column) (VStr "integer") then
    lo <- (if defined (get "minValue" column) then Ok (get "minValue" column)
           else if truthy (get "autoIncrement" column) then Ok (Prim (VNum 1))
           else if truthy (get "unsigned" column) then Ok (Prim (VNum 0))
           else match Lua.signedMin (get "size" column) with
                | Some m => Ok (Prim (VNum m))
                | None => Throw SyntaxError
                end) ;;
    hi <- (if defined (get "maxValue" column) then Ok (get "maxValue" column)
           else match Lua.integerMax (get "size" column)
                        (get "unsigned" column) with
                | Some m => Ok (Prim (VNum m))
                | None => Throw SyntaxError
                end) ;;
    Ok (lo, hi)
  else if loose_eq (get "type" column) (VStr "serial") then
    match Lua.serialMax (get "size" column) with
    | Some m => Ok (Prim (VNum 1), Prim (VNum m))
    | None => Throw SyntaxError
    end
  else Ok (get "minValue" column, get "maxValue" column).

(** The column clause the SQL emitter gives an FK declaration: the
    target's size and signedness, then the declaration's own nullability
    and default *)
Definition fk_clause (size : Sql.int_size) (unsigned nullable : bool)
    (default : option Z) : string :=
  Sql.size_name size ++ " "
  ++ (if unsigned then "UNSIGNED" else "") ++ " "
  ++ (if nullable then "NULL" else "NOT NULL") ++ " "
  ++ match default with
     | Some d => " DEFAULT " ++ dec d
     | None => ""
     end.

(** The bounds a column object has after the bounds step of [writeTable]:
    those the step attaches to an integer or serial column, and those the
    object holds, if any, when it is of another type. An FK declaration
    reaches that step as the copy of its target. *)
Definition bounds_of (column : obj) : result (val * val) :=
  column <- Lua.attachBounds column ;;
  Ok (get "minValue" column, get "maxValue" column).

(** The texts of a list, one after the other *)
Definition flatten (parts : list string) : string :=
  fold_right append "" parts.

(** [text] is made of one part per declaration, in the order of the
    declarations *)
Definition in_order {A : Type} (part_of : A -> string -> Prop)
    (decls : list A) (text : string) : Prop :=
  exists parts, Forall2 part_of decls parts /\ text = flatten parts.

(** An FK declaration with a delete action, for which the SQL emitter
    writes a FOREIGN KEY clause *)
Definition fk_action (col : obj) : bool :=
  strict_eq (get "type" col) (VStr "FK")
  && defined (get "ondelete" col)
  && negb (loose_eq (get "ondelete" col) (VStr "NO ACTION")).

(** The part of a column in its table's statement: the clause that
    [processColumn] makes of the column *)
Definition sql_column_part (database : nat * Database)
    (databases : list Database) (c : obj) (clause : string) : Prop :=
  exists idxes idxes',
    Sql.processColumn database databases ([], idxes) c
    = Ok ([clause], idxes').

(** The FOREIGN KEY clause of an FK declaration *)
Definition fk_clause_part (c : obj) (clause : string) : Prop :=
  exists target,
    clause = "FOREIGN KEY (" ++ to_string (get "name" c)
             ++ ") REFERENCES " ++ target
             ++ ") ON DELETE " ++ to_string (get "ondelete" c).

(** The part of a table in its database's SQL: a statement of the table's
    name whose clauses are the column clauses, in declaration order, then
    the clauses of the declared indexes, in declaration order, and then
    the FOREIGN KEY clauses of the FK declarations with a delete action,
    in declaration order *)
Definition sql_table_part (database : nat * Database)
    (databases : list Database) (t : Table) (statement : string) : Prop :=
  exists cols declared fks,
    statement = Sql.createTable (tbl_name t) (cols ++ declared ++ fks)
    /\ Forall2 (sql_column_part database databases) (columns t) cols
    /\ Forall2 (fun idx clause => Sql.processIndex idx = Ok clause)
         (indexes t) declared
    /\ Forall2 fk_clause_part (filter fk_action (columns t)) fks.

(** The part of a property in a column object of the descriptor *)
Definition lua_property_part (kv : string * val) (part : string) : Prop :=
  exists v,
    Lua.luaValue (snd kv) = Ok v
    /\ part = Lua.luaKey (fst kv) ++ " = " ++ v ++ ",".

(** The properties the descriptor emitter sets on the object of a column,
    and those it deletes *)
Definition set_keys : list string :=
  ["name"; "nullable"; "minValue"; "maxValue"; "_objectType"].

Definition deleted_keys : list string := ["comments"; "values"].

(** [column] is [source] as the descriptor emitter leaves it: its
    properties are those of [source] that it keeps, in the order of
    [source], followed by properties among [set_keys] that [source] does
    not have; it keeps every property of [source] but those of
    [deleted_keys]; and every property that is in neither list has the
    value it has in [source]. *)
Definition emitted_from (source column : obj) : Prop :=
  (exists added,
      map fst column
      = (filter (fun k => has k column) (map fst source) ++ added)%list
      /\ incl added set_keys
      /\ Forall (fun k => has k source = false) added)
  /\ (forall k, has k source = true -> In k deleted_keys \/ has k column = true)
  /\ (forall k, ~ In k (deleted_keys ++ set_keys) ->
                get k column = get k source).

(** Every column object of a database has each property once *)
Definition wf_database (db : Database) : Prop :=
  Forall (fun t => Forall wf_obj (columns t)) (tables db).

(** The declared column the object of a column is made from: the column
    itself, or for an FK declaration the column it refers to in the two
    databases [core] and [inst] of the file *)
Definition lua_source (core inst : option Database) (type : string)
    (c source : obj) : Prop :=
  if loose_eq (get "type" c) (VStr "FK")
  then Lua.fkTarget core inst type c = Ok source
  else source = c.

(** The text [codeValuesLua] of a column: that of its [values] when it is
    a code column that has some, and empty otherwise *)
Definition lua_code_values (this : string) (c : obj) (codeValuesLua : string)
  : Prop :=
  if loose_eq (get "type" c) (VStr "code") && truthy (get "values" c)
  then exists l,
         get "values" c = Arr l /\ Lua.codeValues this l = Ok codeValuesLua
  else codeValuesLua = "".

(** The part of a column in its table's descriptor text: the block of a
    column object under the column's name. The object is made from the
    column's source, has the column's name and nullability and the object
    type of a column, and its properties are rendered in their order. *)
Definition lua_column_part (core inst : option Database)
    (type prefix : string) (c : obj) (part : string) : Prop :=
  let this := prefix ++ "." ++ to_string (get "name" c) in
  exists (source column : obj) (body codeValuesLua : string),
    lua_source core inst type c source
    /\ emitted_from source column
    /\ get "name" column = get "name" c
    /\ get "nullable" column = get "nullable" c
    /\ get "_objectType" column = VStr "column"
    /\ in_order lua_property_part column body
    /\ lua_code_values this c codeValuesLua
    /\ part = Lua.columnBlock prefix this ("{" ++ body ++ "}") codeValuesLua.

(** The part of a table in its database's descriptor text *)
Definition lua_table_part (core inst : option Database) (type : string)
    (t : Table) (part : string) : Prop :=
  let prefix := "Schema." ++ type ++ "." ++ tbl_name t in
  exists body,
    part = Lua.tableOpen prefix (tbl_name t) ++ body ++ Lua.tableClose prefix
    /\ in_order (lua_column_part core inst type prefix) (columns t) body.

(** The part of one of the two databases in the descriptor text: nothing
    when the file has no such database *)
Definition lua_database_part (core inst : option Database) (type : string)
    (db : option Database) (part : string) : Prop :=
  match db with
  | None => part = ""
  | Some db =>
      exists body,
        part = body ++ Lua.databaseClose type
        /\ in_order (lua_table_part core inst type) (tables db) body
  end.

(** The databases of the descriptor emitter are in step with the
    databases [core] and [inst] as declared: same names, and each column
    object is the declared one as the emitter left it *)
Definition column_tracks (c s : obj) : Prop :=
  wf_obj s /\ emitted_from c s /\ get "name" s = get "name" c.

Definition table_tracks (t s : Table) : Prop :=
  tbl_name s = tbl_name t /\ Forall2 column_tracks (columns t) (columns s).

Definition database_tracks (d s : option Database) : Prop :=
  match d, s with
  | None, None => True
  | Some d, Some s =>
      db_name s = db_name d /\ Forall2 table_tracks (tables d) (tables s)
  | _, _ => False
  end.

Definition tracks (core inst : option Database) (st : Lua.state) : Prop :=
  database_tracks core (Lua.coreDatabase st)
  /\ database_tracks inst (Lua.instDatabase st).

(** What a run of the SQL emitter on [rest] leaves behind: the text of the
    last database it wrote, if it wrote any, and the exception, if any *)
Fixpoint written_last (databases : list Database) (i : nat)
    (rest : list Database) : option string * option error :=
  match rest with
  | [] => (None, None)
  | db :: rest' =>
      match Sql.databaseSql (i, db) databases with
      | Throw e => (None, Some e)
      | Ok dbSql =>
          match written_last databases (S i) rest' with
          | (None, r) => (Some dbSql, r)
          | (Some later, r) => (Some later, r)
          end
      end
  end.

(** A file system that does not fail, on the schemas directory [d]: what a
    handler's action leaves there, and what it answers *)
Definition serve (a : Server.action) (d : disk) : disk * Server.response :=
  match a with
  | Server.Respond r => (d, r)
  | Server.Readdir callback => (d, callback (inr (map fst d)))
  | Server.ReadFile file callback =>
      (d, callback match readFile file d with
                   | Some content => inr content
                   | None => inl Server.ENOENT
                   end)
  | Server.WriteFile file data callback =>
      (outputFileSync file data d, callback None)
  end.

(** A character that is not a slash *)
Definition not_slash (c : ascii) : bool := negb (nat_of_ascii c =? 47)%nat.

(** The table with the columns of each index replaced *)
Definition reindex (f : Index -> list string) (t : Table) : Table :=
  mkTable (tbl_name t) (tbl_type t) (columns t)
    (map (fun idx => mkIndex (idx_type idx) (f idx)) (indexes t)).

(** The properties of a column the SQL emitter reads *)
Definition sql_keys : list string :=
  ["name"; "type"; "size"; "unsigned"; "minValue"; "maxValue";
   "defaultValue"; "nullable"; "minLength"; "maxLength"; "minSize";
   "maxSize"; "values"; "column"; "ondelete"].

(** Two columns agree on what the SQL emitter reads of a column; two
    tables on their names, types and indexes and, column by column, on
    their columns; two databases on their names and, table by table, on
    their tables *)
Definition column_agrees (c c' : obj) : Prop :=
  forall k, In k sql_keys -> get k c' = get k c.

Definition table_agrees (t t' : Table) : Prop :=
  tbl_name t' = tbl_name t /\ tbl_type t' = tbl_type t
  /\ indexes t' = indexes t
  /\ Forall2 column_agrees (columns t) (columns t').

Definition database_agrees (d d' : Database) : Prop :=
  db_name d' = db_name d /\ Forall2 table_agrees (tables d) (tables d').

(** A value [objectToLua] refuses: [typeof value] is ["object"] *)
Definition is_nested (v : val) : bool :=
  match v with
  | Prim VNull | Arr _ | Obj _ => true
  | _ => false
  end.

(** The string a Lua reader takes from the inside of a double-quoted
    literal that uses the escapes of a backslash and of a double quote
    only: a line break or a bare double quote ends the literal early. *)
Fixpoint lua_unquote (s : string) : option string :=
  match s with
  | EmptyString => Some EmptyString
  | String c r =>
      if (nat_of_ascii c =? 92)%nat then
        match r with
        | String e r' =>
            if (nat_of_ascii e =? 92)%nat || (nat_of_ascii e =? 34)%nat
            then option_map (String e) (lua_unquote r')
            else None
        | EmptyString => None
        end
      else if (nat_of_ascii c =? 34)%nat || is_line_terminator c then None
      else option_map (String c) (lua_unquote r)
  end.

(** The column object at position [k] of table [j] *)
Definition column_at (db : option Database) (j k : nat) : option obj :=
  match db with
  | None => None
  | Some db =>
      match nth_error (tables db) j with
      | None => None
      | Some t => nth_error (columns t) k
      end
  end.

(** The database of the descriptor emitter that [type] names *)
Definition database_of (type : string) (st : Lua.state) : option Database :=
  if String.eqb type "core" then Lua.coreDatabase st else Lua.instDatabase st.

(** * Example schemas *)

Definition users_id : obj :=
  [("name", Prim (VStr "id")); ("type", Prim (VStr "serial"));
   ("size", Prim (VStr "INT"))].

Definition users_email : obj :=
  [("name", Prim (VStr "email")); ("type", Prim (VStr "string"));
   ("maxLength", Prim (VNum 50)); ("nullable", Prim (VBool true))].

Definition users_referrer : obj :=
  [("name", Prim (VStr "referrer")); ("type", Prim (VStr "integer"));
   ("size", Prim (VStr "INT")); ("unsigned", Prim (VBool true));
   ("nullable", Prim (VBool true))].

Definition users : Table :=
  mkTable "users" "fixed" [users_id; users_email; users_referrer]
    [mkIndex "primary" ["id"]].

Definition shop : Database := mkDatabase "shop" "fixed" [users].




(** A nullable declaration with a default and a delete action *)
Definition orders_customer : obj :=
  [("name", Prim (VStr "customer")); ("type", Prim (VStr "FK"));
   ("column", Prim (VStr "users.id")); ("nullable", Prim (VBool true));
   ("defaultValue", Prim (VNum 5)); ("ondelete", Prim (VStr "CASCADE"))].

(** A table with a column that has a default and a code column, and the
    declarations that refer to them *)
Definition accounts_level : obj :=
  [("name", Prim (VStr "level")); ("type", Prim (VStr "integer"));
   ("size", Prim (VStr "TINYINT")); ("unsigned", Prim (VBool true));
   ("defaultValue", Prim (VNum 0))].

Definition accounts_status : obj :=
  [("name", Prim (VStr "status")); ("type", Prim (VStr "code"));
   ("values", Arr (map entry (code_values [(0, "ACTIVE"); (1, "CLOSED")])))].

Definition accounts : Table :=
  mkTable "accounts" "fixed" [users_id; accounts_level; accounts_status] [].

Definition audit_level : obj :=
  [("name", Prim (VStr "levelSeen")); ("type", Prim (VStr "FK"));
   ("column", Prim (VStr "accounts.level")); ("defaultValue", Prim (VNum 7))].

Definition audit_status : obj :=
  [("name", Prim (VStr "statusSeen")); ("type", Prim (VStr "FK"));
   ("column", Prim (VStr "accounts.status"))].

Definition bank : Database := mkDatabase "bank" "fixed" [accounts].

(** A column whose explicit minimum is below the range of its size, and a
    signed autoIncrement column *)
Definition stock_count : obj :=
  [("name", Prim (VStr "count")); ("type", Prim (VStr "integer"));
   ("size", Prim (VStr "TINYINT")); ("unsigned", Prim (VBool true));
   ("minValue", Prim (VNum (-5)))].

Definition stock_position : obj :=
  [("name", Prim (VStr "position")); ("type", Prim (VStr "integer"));
   ("size", Prim (VStr "INT")); ("autoIncrement", Prim (VBool true))].

(** A column that declares its maximum only, with a default beyond the
    range of its size *)
Definition stock_shelf : obj :=
  [("name", Prim (VStr "shelf")); ("type", Prim (VStr "integer"));
   ("size", Prim (VStr "SMALLINT")); ("maxValue", Prim (VNum 500));
   ("defaultValue", Prim (VNum 40000))].

(** A serial column that declares bounds *)
Definition tickets_id : obj :=
  [("name", Prim (VStr "id")); ("type", Prim (VStr "serial"));
   ("size", Prim (VStr "INT")); ("minValue", Prim (VNum 5));
   ("maxValue", Prim (VNum 100))].

(** A column whose default is [null] *)
Definition stock_note : obj :=
  [("name", Prim (VStr "note")); ("type", Prim (VStr "integer"));
   ("size", Prim (VStr "INT")); ("defaultValue", Prim VNull)].

Definition notes : Database :=
  mkDatabase "notes" "fixed" [mkTable "stock" "fixed" [stock_note] []].

Definition warehouse : Database :=
  mkDatabase "warehouse" "fixed"
    [mkTable "stock" "fixed" [users_id; stock_count] []].

(** An instance database beside [shop], with a reference into it *)
Definition visits_customer : obj :=
  [("name", Prim (VStr "customer")); ("type", Prim (VStr "FK"));
   ("column", Prim (VStr "shop.users.id")); ("ondelete", Prim (VStr "CASCADE"))].

Definition tenant : Database :=
  mkDatabase "tenant" "instance"
    [mkTable "visits" "fixed" [users_id; visits_customer] []].



(** Code columns: codes up to 255, a code twice, a code above 255 *)
Definition kind_255 : obj :=
  [("name", Prim (VStr "kind")); ("type", Prim (VStr "code"));
   ("values", Arr (map entry (code_values [(0, "A"); (255, "B")])))].

Definition kind_twice : obj :=
  [("name", Prim (VStr "kind")); ("type", Prim (VStr "code"));
   ("values", Arr (map entry (code_values [(0, "A"); (0, "B")])))].

Definition kind_256 : obj :=
  [("name", Prim (VStr "kind")); ("type", Prim (VStr "code"));
   ("values", Arr (map entry (code_values [(256, "A")])))].

(** A code column with an entry that is [null] and one that is no object *)
Definition kind_null : obj :=
  [("name", Prim (VStr "kind")); ("type", Prim (VStr "code"));
   ("values", Arr [Prim VNull; Prim (VNum 7)])].

(** A table whose name the SQL emitter refuses *)
Definition orders_misnamed : Table := mkTable "Orders" "fixed" [users_id] [].

Definition tenant_misnamed : Database :=
  mkDatabase "tenant" "instance" [orders_misnamed].


(** A binary column of one size *)
Definition files_digest : obj :=
  [("name", Prim (VStr "digest")); ("type", Prim (VStr "binary"));
   ("minSize", Prim (VNum 32)); ("maxSize", Prim (VNum 32))].

(** A table with an FK declaration that has a delete action, and an index
    on a column it does not have *)
Definition orders : Table :=
  mkTable "orders" "fixed" [users_id; orders_customer]
    [mkIndex "primary" ["id"]; mkIndex "index" ["missing"]].

Definition shop_orders : Database := mkDatabase "shop" "fixed" [users; orders].

(** The same file with a comment and an autoIncrement mark on the column
    the declaration refers to, and another type of database *)
Definition users_id_noted : obj :=
  set "autoIncrement" (VBool true) (set "comments" (VStr "none") users_id).

Definition shop_orders_noted : Database :=
  mkDatabase "shop" "instance"
    [mkTable "users" "fixed" [users_id_noted; users_email; users_referrer]
       [mkIndex "primary" ["id"]];
     orders].

(** Reference paths of one segment and of four *)
Definition customer_dotless : obj :=
  [("name", Prim (VStr "customer")); ("type", Prim (VStr "FK"));
   ("column", Prim (VStr "users"))].

Definition customer_long : obj :=
  [("name", Prim (VStr "customer")); ("type", Prim (VStr "FK"));
   ("column", Prim (VStr "x.shop.users.id"))].

Definition customer_extra : obj :=
  [("name", Prim (VStr "customer")); ("type", Prim (VStr "FK"));
   ("column", Prim (VStr "users.id.shop.x"))].

(** A database that is neither fixed nor instance *)
Definition scratch : Database :=
  mkDatabase "scratch" "temporary" [mkTable "stock" "fixed" [stock_count] []].

(** * Properties *)

(** ** Property lists *)

Lemma get_set_same (k : string) (v : val) (o : obj) :
  get k (set k v o) = v.
Proof.
  induction o as [|[k' v'] r IH]; simpl.
  - now rewrite String.eqb_refl.
  - destruct (String.eqb k k') eqn:E; simpl; rewrite E; auto.
Qed.

Lemma get_set_other (k k' : string) (v : val) (o : obj) :
  String.eqb k' k = false -> get k' (set k v o) = get k' o.
Proof.
  intros N. induction o as [|[k0 v0] r IH]; simpl.
  - now rewrite N.
  - destruct (String.eqb k k0) eqn:E; simpl.
    + apply String.eqb_eq in E. subst k0. now rewrite N.
    + now rewrite IH.
Qed.

Lemma get_del_same (k : string) (o : obj) : get k (del k o) = VUndef.
Proof.
  induction o as [|[k' v'] r IH]; simpl; auto.
  destruct (String.eqb k k') eqn:E; simpl; auto. now rewrite E.
Qed.

Lemma get_del_other (k k' : string) (o : obj) :
  String.eqb k' k = false -> get k' (del k o) = get k' o.
Proof.
  intros N. induction o as [|[k0 v0] r IH]; simpl; auto.
  destruct (String.eqb k k0) eqn:E; simpl.
  - apply String.eqb_eq in E. subst k0. now rewrite N.
  - now rewrite IH.
Qed.

Lemma has_app (k : string) (a b : obj) :
  has k (a ++ b)%list = has k a || has k b.
Proof.
  induction a as [|[k' v'] a IH]; simpl; auto.
  now rewrite IH, orb_assoc.
Qed.

Lemma has_rev (k : string) (o : obj) : has k (List.rev o) = has k o.
Proof.
  induction o as [|[k' v'] o IH]; simpl; auto.
  rewrite has_app, IH. simpl. rewrite orb_false_r. apply orb_comm.
Qed.

Lemma has_In (k : string) (o : obj) : has k o = true <-> In k (map fst o).
Proof.
  induction o as [|[k' v'] o IH]; simpl.
  - split; [discriminate | tauto].
  - rewrite orb_true_iff, IH, String.eqb_eq. intuition.
Qed.

Lemma get_app_l (k : string) (a b : obj) :
  has k a = true -> get k (a ++ b)%list = get k a.
Proof.
  induction a as [|[k' v'] a IH]; simpl; intros H; try discriminate.
  destruct (String.eqb k k'); auto.
Qed.

Lemma get_app_r (k : string) (a b : obj) :
  has k a = false -> get k (a ++ b)%list = get k b.
Proof.
  induction a as [|[k' v'] a IH]; simpl; intros H; auto.
  destruct (String.eqb k k'); try discriminate; auto.
Qed.

Lemma get_absent (k : string) (o : obj) : has k o = false -> get k o = VUndef.
Proof.
  induction o as [|[k' v'] o IH]; simpl; intros H; auto.
  destruct (String.eqb k k'); try discriminate; auto.
Qed.

(** [Object.assign] reads back the source's value for a key of the source
    (the last one, should the list repeat the key) and the target's
    otherwise. *)
Lemma get_assign (k : string) (src target : obj) :
  get k (assign target src) =
  if has k src then get k (List.rev src) else get k target.
Proof.
  unfold assign. revert target.
  induction src as [|[k0 v0] r IH]; intros target; simpl; auto.
  rewrite IH. destruct (has k r) eqn:H.
  - rewrite orb_true_r. rewrite get_app_l; auto. now rewrite has_rev.
  - rewrite orb_false_r. destruct (String.eqb k k0) eqn:E.
    + apply String.eqb_eq in E. subst k0. rewrite get_set_same.
      rewrite get_app_r by (now rewrite has_rev). simpl.
      now rewrite String.eqb_refl.
    + now apply get_set_other.
Qed.

Lemma get_rev (k : string) (o : obj) :
  wf_obj o -> get k (List.rev o) = get k o.
Proof.
  unfold wf_obj. induction o as [|[k0 v0] r IH]; simpl; auto.
  intros ND. inversion ND as [|? ? NI ND']; subst.
  destruct (String.eqb k k0) eqn:E.
  - apply String.eqb_eq in E. subst k0.
    assert (Hk : has k r = false).
    { destruct (has k r) eqn:Hk; auto. apply has_In in Hk. contradiction. }
    rewrite get_app_r by (now rewrite has_rev). simpl.
    now rewrite String.eqb_refl.
  - destruct (has k r) eqn:Hk.
    + rewrite get_app_l by (now rewrite has_rev). auto.
    + rewrite get_app_r by (now rewrite has_rev). simpl. rewrite E.
      symmetry. now apply get_absent.
Qed.

(** A copy [Object.assign({}, o)] reads as [o] *)
Lemma get_assign_empty (k : string) (o : obj) :
  wf_obj o -> get k (assign [] o) = get k o.
Proof.
  intros W. rewrite get_assign. destruct (has k o) eqn:H.
  - now apply get_rev.
  - simpl. symmetry. now apply get_absent.
Qed.

Ltac obj_simpl :=
  repeat (rewrite get_set_same
          || (rewrite get_set_other by reflexivity)
          || rewrite get_del_same
          || (rewrite get_del_other by reflexivity)).

(** ** Integer bounds *)

Lemma integer_size_name (sz : Sql.int_size) :
  Sql.integer_size (VStr (Sql.size_name sz)) = Some sz.
Proof. destruct sz; reflexivity. Qed.

Lemma absolute_bounds (u : val) (sz : Sql.int_size) :
  (Sql.absMin u sz, Sql.absMax u sz) = documented_bounds sz (truthy u).
Proof. unfold Sql.absMin, Sql.absMax. destruct sz, (truthy u); reflexivity. Qed.

(** C2. For an integer column of each size and signedness, the bounds the
    SQL emitter validates the declared minimum, the declared maximum and
    the default against are the documented pair, and the descriptor
    emitter keeps each bound the column declares and gives a bound it
    does not declare the value of that pair, except that the minimum of
    an autoIncrement column is 1. *)
Theorem integer_bounds_table (col : obj) (sz : Sql.int_size) :
  get "type" col = VStr "integer" ->
  get "size" col = VStr (Sql.size_name sz) ->
  let lo := fst (documented_bounds sz (truthy (get "unsigned" col))) in
  let hi := snd (documented_bounds sz (truthy (get "unsigned" col))) in
  let minimum := get "minValue" col in
  let maximum := get "maxValue" col in
  let defaultValue := get "defaultValue" col in
  thrown (Sql.processIntegerColumn col)
  = (if defined minimum && lt_num minimum lo then Some RangeError
     else if defined maximum && gt_num maximum hi then Some RangeError
     else if defined defaultValue && negb (isSafeInteger defaultValue)
          then Some TypeError
     else if defined defaultValue
             && (lt_num defaultValue lo || gt_num defaultValue hi)
          then Some RangeError
     else None)
  /\ exists col',
       Lua.attachBounds col = Ok col'
       /\ get "minValue" col'
          = (if defined minimum then minimum
             else Prim (VNum (if truthy (get "autoIncrement" col) then 1
                              else lo)))
       /\ get "maxValue" col'
          = (if defined maximum then maximum else Prim (VNum hi)).
Proof.
  intros Ht Hs. cbv zeta.
  rewrite <- (absolute_bounds (get "unsigned" col) sz). cbn [fst snd].
  split.
  - unfold Sql.processIntegerColumn. rewrite Hs, integer_size_name.
    cbv zeta.
    repeat match goal with
           | |- context [throw_if ?c _] =>
               destruct c; cbn [throw_if bind thrown]; [reflexivity|]
           end.
    reflexivity.
  - assert (M : Lua.integerMax (get "size" col) (get "unsigned" col)
                = Some (Sql.absMax (get "unsigned" col) sz)).
    { rewrite Hs. unfold Lua.integerMax, Sql.absMax.
      destruct sz, (truthy (get "unsigned" col)); reflexivity. }
    assert (S : truthy (get "unsigned" col) = false ->
                Lua.signedMin (get "size" col)
                = Some (Sql.absMin (get "unsigned" col) sz)).
    { intros U. rewrite Hs. unfold Lua.signedMin, Sql.absMin. rewrite U.
      destruct sz; reflexivity. }
    unfold Lua.attachBounds. rewrite Ht.
    change (loose_eq (Prim (VStr "integer")) (VStr "integer")) with true.
    cbv iota.
    assert (Z0 : truthy (get "unsigned" col) = true ->
                 Sql.absMin (get "unsigned" col) sz = 0).
    { intros U. unfold Sql.absMin. now rewrite U. }
    destruct (defined (get "minValue" col)) eqn:Dmin; cbn [negb bind];
      [|destruct (truthy (get "autoIncrement" col));
        [|destruct (truthy (get "unsigned" col)) eqn:U;
          [rewrite (Z0 eq_refl) | rewrite (S eq_refl)]]];
      cbn [bind]; obj_simpl;
      (destruct (defined (get "maxValue" col)) eqn:Dmax; cbn [negb];
       [|rewrite M]);
      eexists; (split; [reflexivity|]); obj_simpl; rewrite ?Dmin, ?Dmax;
      split; reflexivity.
Qed.

Lemma integer_bounds_table_witness :
  thrown (Sql.processIntegerColumn stock_shelf) = Some RangeError
  /\ exists col',
       Lua.attachBounds stock_shelf = Ok col'
       /\ get "minValue" col' = VNum (-32768)
       /\ get "maxValue" col' = VNum 500.
Proof.
  exact (integer_bounds_table stock_shelf Sql.SMALLINT eq_refl eq_refl).
Defined.

(** C10. An integer column with explicit bounds is accepted by the SQL
    emitter exactly when its minimum is not below the absolute minimum and
    its maximum not above the absolute maximum, whatever the order of the
    two; the descriptor emitter takes the column as it is. *)
Theorem explicit_bounds_not_compared (col : obj) (sz : Sql.int_size)
    (lo hi : Z) :
  get "type" col = VStr "integer" ->
  get "size" col = VStr (Sql.size_name sz) ->
  get "minValue" col = VNum lo ->
  get "maxValue" col = VNum hi ->
  defined (get "defaultValue" col) = false ->
  accepted (Sql.processIntegerColumn col)
  = (Sql.absMin (get "unsigned" col) sz <=? lo)
    && (hi <=? Sql.absMax (get "unsigned" col) sz)
  /\ Lua.attachBounds col = Ok col.
Proof.
  intros Ht Hs Hlo Hhi Hd. split.
  - unfold Sql.processIntegerColumn.
    rewrite Hs, integer_size_name, Hlo, Hhi, Hd.
    unfold lt_num, gt_num. simpl.
    rewrite Z.gtb_ltb, (Z.leb_antisym lo), (Z.leb_antisym _ hi).
    destruct (lo <? _); simpl; auto.
    destruct (_ <? hi); simpl; auto.
  - unfold Lua.attachBounds. rewrite Ht, Hlo. simpl. now rewrite Hhi.
Qed.

Lemma explicit_bounds_not_compared_witness :
  let col : obj :=
    [("name", Prim (VStr "age")); ("type", Prim (VStr "integer"));
     ("size", Prim (VStr "TINYINT")); ("unsigned", Prim (VBool true));
     ("minValue", Prim (VNum 300)); ("maxValue", Prim (VNum 10))] in
  accepted (Sql.processIntegerColumn col) = true
  /\ Lua.attachBounds col = Ok col.
Proof.
  exact (explicit_bounds_not_compared
           [("name", Prim (VStr "age")); ("type", Prim (VStr "integer"));
            ("size", Prim (VStr "TINYINT")); ("unsigned", Prim (VBool true));
            ("minValue", Prim (VNum 300)); ("maxValue", Prim (VNum 10))]
           Sql.TINYINT 300 10 eq_refl eq_refl eq_refl eq_refl eq_refl).
Defined.

(** ** Timestamp columns *)

(** C6. A timestamp column with a default is accepted exactly when it is
    unsigned and the default is the number 0; a signed one throws [Error],
    an unsigned one with another default throws [RangeError]. *)
Theorem timestamp_default (col : obj) :
  defined (get "defaultValue" col) = true ->
  accepted (Sql.processTimestampColumn col)
  = truthy (get "unsigned" col) && strict_eq (get "defaultValue" col) (VNum 0)
  /\ thrown (Sql.processTimestampColumn col)
     = if negb (truthy (get "unsigned" col)) then Some Error
       else if negb (strict_eq (get "defaultValue" col) (VNum 0))
            then Some RangeError
            else None.
Proof.
  intros Hd. unfold Sql.processTimestampColumn. rewrite Hd.
  destruct (truthy (get "unsigned" col)); simpl; auto.
  destruct (strict_eq (get "defaultValue" col) (VNum 0)); simpl; auto.
Qed.

Lemma timestamp_default_witness :
  thrown (Sql.processTimestampColumn
            [("name", Prim (VStr "created")); ("type", Prim (VStr "timestamp"));
             ("unsigned", Prim (VBool true)); ("defaultValue", Prim (VNum 5))])
  = Some RangeError.
Proof.
  exact (proj2 (timestamp_default
                  [("name", Prim (VStr "created"));
                   ("type", Prim (VStr "timestamp"));
                   ("unsigned", Prim (VBool true));
                   ("defaultValue", Prim (VNum 5))] eq_refl)).
Defined.

(** ** Code columns *)

Lemma existsb_push {A : Type} (p : A -> bool) (l : list A) (x : A) :
  existsb p (push l x) = existsb p l || p x.
Proof.
  unfold push. rewrite existsb_app. simpl. now rewrite orb_false_r.
Qed.

Lemma overlaps_push {A : Type} (eqb : A -> A -> bool)
    (sym : forall a b, eqb a b = eqb b a) (seen l : list A) (x : A) :
  overlaps eqb (push seen x) l = overlaps eqb seen l || existsb (eqb x) l.
Proof.
  unfold overlaps. induction l as [|y l IH]; simpl; auto.
  rewrite IH, existsb_push, (sym x y).
  destruct (existsb (eqb y) seen), (eqb y x),
    (existsb (fun x0 => existsb (eqb x0) seen) l), (existsb (eqb x) l);
    reflexivity.
Qed.

Lemma prim_eqb_sym (a b : prim) : prim_eqb a b = prim_eqb b a.
Proof.
  destruct a as [| |x|x|x], b as [| |y|y|y]; simpl;
    auto using Z.eqb_sym, String.eqb_sym.
  now destruct x, y.
Qed.

Lemma same_value_sym (a b : val) : same_value a b = same_value b a.
Proof. destruct a, b; simpl; auto using prim_eqb_sym. Qed.

Lemma existsb_same_value (p : prim) (l : list prim) :
  existsb (same_value (Prim p)) (map Prim l) = existsb (prim_eqb p) l.
Proof. induction l as [|q l IH]; simpl; [reflexivity | now rewrite IH]. Qed.

Lemma has_duplicate_prims (l : list prim) :
  has_duplicate same_value (map Prim l) = has_duplicate prim_eqb l.
Proof.
  induction l as [|p l IH]; simpl; [reflexivity|].
  now rewrite IH, existsb_same_value.
Qed.

(** One iteration of the loop of [processCodeColumn] on a valid entry *)
Lemma code_step (st : Sql.code_state) (c : Z) (n : string) :
  valid_entry (c, n) ->
  Sql.processCodeValue st (entry (mkCodeval (VNum c) (VStr n)))
  = if existsb (Z.eqb c) (Sql.valueCodes st)
       || existsb (same_value (VStr n)) (Sql.valueNames st)
    then Throw ReferenceError
    else Ok (Sql.mkCodeState (push (Sql.valueCodes st) c)
               (push (Sql.valueNames st) (Prim (VStr n)))
               (Z.max (Sql.highestCode st) c)).
Proof.
  intros [[Hc0 Hc1] Hn]. simpl in Hc0, Hc1, Hn.
  unfold Sql.processCodeValue, entry, member.
  cbn [code value get String.eqb Ascii.eqb Bool.eqb bind].
  unfold as_safe_integer. cbn [to_string prim_to_string].
  replace ((- MAX_SAFE_INTEGER <=? c) && (c <=? MAX_SAFE_INTEGER)) with true
    by (symmetry; apply andb_true_iff; split; apply Z.leb_le;
        unfold MAX_SAFE_INTEGER in *; lia).
  replace (c <? 0) with false by (symmetry; apply Z.ltb_ge; lia).
  replace (if c >? Sql.highestCode st then c else Sql.highestCode st)
    with (Z.max (Sql.highestCode st) c)
    by (rewrite Z.gtb_ltb; destruct (Z.ltb_spec (Sql.highestCode st) c); lia).
  rewrite Hn. cbn [throw_if bind negb].
  destruct (existsb (Z.eqb c) (Sql.valueCodes st)); cbn [throw_if bind orb];
    auto.
  destruct (existsb (same_value (VStr n)) (Sql.valueNames st));
    cbn [throw_if bind]; auto.
Qed.

(** The loop of [processCodeColumn] over valid entries, from any state: it
    throws [ReferenceError] when a code or a name was seen before or occurs
    twice, and otherwise ends with every code and name recorded and the
    highest code kept. *)
Lemma code_loop (entries : list (Z * string)) :
  Forall valid_entry entries ->
  forall st : Sql.code_state,
    foldM Sql.processCodeValue st (map entry (code_values entries))
    = if overlaps Z.eqb (Sql.valueCodes st) (map fst entries)
         || has_duplicate Z.eqb (map fst entries)
         || overlaps same_value (Sql.valueNames st)
              (map (fun e => Prim (VStr (snd e))) entries)
         || has_duplicate same_value
              (map (fun e => Prim (VStr (snd e))) entries)
      then Throw ReferenceError
      else Ok (Sql.mkCodeState
                 (Sql.valueCodes st ++ map fst entries)
                 (Sql.valueNames st
                    ++ map (fun e => Prim (VStr (snd e))) entries)
                 (fold_left Z.max (map fst entries) (Sql.highestCode st))).
Proof.
  induction 1 as [|[c n] r Hv Hr IH]; intros st.
  - simpl. now rewrite !app_nil_r; destruct st.
  - change (map entry (code_values ((c, n) :: r)))
      with (entry (mkCodeval (VNum c) (VStr n)) :: map entry (code_values r)).
    cbn [foldM]. rewrite (code_step st c n Hv).
    cbn [map fst snd has_duplicate]. unfold overlaps at 1 2. cbn [existsb].
    fold (overlaps Z.eqb (Sql.valueCodes st) (map fst r)).
    fold (overlaps same_value (Sql.valueNames st)
            (map (fun e => Prim (VStr (snd e))) r)).
    destruct (existsb (Z.eqb c) (Sql.valueCodes st)) eqn:E1; cbn [orb bind].
    { reflexivity. }
    destruct (existsb (same_value (VStr n)) (Sql.valueNames st)) eqn:E2;
      cbn [orb bind].
    { now rewrite !orb_true_r. }
    rewrite IH. cbn [Sql.valueCodes Sql.valueNames Sql.highestCode].
    rewrite (overlaps_push Z.eqb Z.eqb_sym),
      (overlaps_push same_value same_value_sym).
    unfold push. rewrite <- !app_assoc. cbn [app].
    destruct (overlaps Z.eqb (Sql.valueCodes st) (map fst r)),
      (existsb (Z.eqb c) (map fst r)),
      (has_duplicate Z.eqb (map fst r)),
      (overlaps same_value (Sql.valueNames st)
         (map (fun e => Prim (VStr (snd e))) r)),
      (existsb (same_value (VStr n)) (map (fun e => Prim (VStr (snd e))) r)),
      (has_duplicate same_value (map (fun e => Prim (VStr (snd e))) r));
      reflexivity.
Qed.

Lemma has_duplicate_names (names : list string) :
  has_duplicate prim_eqb (map VStr names) = has_duplicate String.eqb names.
Proof.
  induction names as [|n r IH]; simpl; auto.
  rewrite IH. f_equal. clear. induction r as [|m r IH]; simpl; auto.
  now rewrite IH.
Qed.

(** The loop as [processCodeColumn] starts it *)
Lemma code_loop_start (entries : list (Z * string)) :
  Forall valid_entry entries ->
  foldM Sql.processCodeValue (Sql.mkCodeState [] [] 0)
    (map entry (code_values entries))
  = if has_duplicate Z.eqb (map fst entries)
       || has_duplicate String.eqb (map snd entries)
    then Throw ReferenceError
    else Ok (Sql.mkCodeState (map fst entries)
               (map Prim (map VStr (map snd entries)))
               (highest (map fst entries))).
Proof.
  intros He. rewrite (code_loop entries He).
  cbn [Sql.valueCodes Sql.valueNames Sql.highestCode app].
  assert (O : forall (A : Type) (eqb : A -> A -> bool) l,
             overlaps eqb [] l = false).
  { intros A eqb l. unfold overlaps. induction l; simpl; auto. }
  rewrite !O. cbn [orb]. rewrite orb_false_r.
  replace (map (fun e : Z * string => Prim (VStr (snd e))) entries)
    with (map Prim (map VStr (map snd entries))) by (now rewrite !map_map).
  rewrite has_duplicate_prims, has_duplicate_names. reflexivity.
Qed.

(** One accepted iteration of the loop of [processCodeColumn], whatever
    the two primitives of the entry *)
Lemma code_step_ok (st st1 : Sql.code_state) (v : codeval) :
  Sql.processCodeValue st (entry v) = Ok st1 ->
  exists c,
    code v = VNum c /\ 0 <= c
    /\ existsb (Z.eqb c) (Sql.valueCodes st) = false
    /\ existsb (same_value (Prim (value v))) (Sql.valueNames st) = false
    /\ st1 = Sql.mkCodeState (push (Sql.valueCodes st) c)
               (push (Sql.valueNames st) (Prim (value v)))
               (Z.max (Sql.highestCode st) c).
Proof.
  unfold Sql.processCodeValue, entry, member.
  cbn [get String.eqb Ascii.eqb Bool.eqb bind].
  destruct (as_safe_integer (code v)) as [c|] eqn:S; [|discriminate].
  assert (C : code v = VNum c).
  { unfold as_safe_integer in S.
    destruct (code v) as [| | |x|]; try discriminate.
    destruct (_ && _); [|discriminate]. now injection S as ->. }
  destruct (c <? 0) eqn:N; cbn [throw_if bind]; [discriminate|].
  destruct (negb _); cbn [throw_if bind]; [discriminate|].
  destruct (existsb (Z.eqb c) _) eqn:E1; cbn [throw_if bind]; [discriminate|].
  destruct (existsb (same_value _) _) eqn:E2; cbn [throw_if bind];
    [discriminate|].
  intros [= <-]. exists c. apply Z.ltb_ge in N. repeat split; auto.
  f_equal. rewrite Z.gtb_ltb.
  destruct (Z.ltb_spec (Sql.highestCode st) c); lia.
Qed.

(** The loop of [processCodeColumn] when it ends without an exception,
    whatever the primitives of the entries: every code is a number that is
    not negative, no code and no name was seen before or occurs twice, and
    the state holds them all and the highest code. *)
Lemma code_loop_ok (vs : list codeval) :
  forall st st' : Sql.code_state,
    foldM Sql.processCodeValue st (map entry vs) = Ok st' ->
    exists cs,
      map code vs = map VNum cs
      /\ Forall (fun c => 0 <= c) cs
      /\ Sql.valueCodes st' = (Sql.valueCodes st ++ cs)%list
      /\ Sql.highestCode st' = fold_left Z.max cs (Sql.highestCode st)
      /\ overlaps Z.eqb (Sql.valueCodes st) cs = false
      /\ has_duplicate Z.eqb cs = false
      /\ overlaps same_value (Sql.valueNames st)
           (map Prim (map value vs)) = false
      /\ has_duplicate prim_eqb (map value vs) = false.
Proof.
  induction vs as [|v vs IH]; intros st st'; cbn [foldM map].
  - intros [= <-]. exists []. rewrite app_nil_r. repeat split; constructor.
  - destruct (Sql.processCodeValue st (entry v)) as [st1|] eqn:P; cbn [bind];
      [|discriminate].
    intros H.
    destruct (code_step_ok _ _ _ P) as [c [C [C0 [E1 [E2 ->]]]]].
    destruct (IH _ _ H) as [cs [M [F [VC [HC [O1 [D1 [O2 D2]]]]]]]].
    cbn [Sql.valueCodes Sql.valueNames Sql.highestCode] in *.
    rewrite (overlaps_push Z.eqb Z.eqb_sym) in O1.
    rewrite (overlaps_push same_value same_value_sym) in O2.
    apply orb_false_elim in O1. destruct O1 as [O1 X1].
    apply orb_false_elim in O2. destruct O2 as [O2 X2].
    rewrite existsb_same_value in X2.
    exists (c :: cs). cbn [map fold_left has_duplicate].
    unfold overlaps in *. cbn [existsb].
    rewrite C, M, VC, HC, E1, O1, X1, X2, D1, D2.
    rewrite E2, O2.
    unfold push. rewrite <- app_assoc.
    repeat split; auto.
Qed.

Lemma has_duplicate_codes (cs : list Z) :
  has_duplicate prim_eqb (map VNum cs) = has_duplicate Z.eqb cs.
Proof.
  induction cs as [|c r IH]; simpl; auto.
  rewrite IH. f_equal. clear. induction r as [|m r IH]; simpl; auto.
  now rewrite IH.
Qed.

Lemma fold_max_bounds (cs : list Z) :
  forall h, h <= fold_left Z.max cs h
            /\ Forall (fun c => c <= fold_left Z.max cs h) cs.
Proof.
  induction cs as [|c cs IH]; intros h; cbn [fold_left].
  - split; [lia | constructor].
  - destruct (IH (Z.max h c)) as [L F]. split; [lia|].
    constructor; [lia | exact F].
Qed.

(** C5. A code column is accepted only when its value list is not empty,
    no code and no name occurs twice, every code is a number from 0 to
    255, and its default, if present, is one of its codes. When the
    entries are well-formed, the exception is [Error] for an empty list,
    [ReferenceError] for a code or a name that occurs twice, [RangeError]
    for a highest code above 255 (255 itself passes) and [ReferenceError]
    for a default that is not one of the codes. *)
Theorem code_column_validation (col : obj) (vs : list codeval) :
  get "values" col = Arr (map entry vs) ->
  (accepted (Sql.processCodeColumn col) = true ->
   vs <> []
   /\ has_duplicate prim_eqb (map code vs) = false
   /\ has_duplicate prim_eqb (map value vs) = false
   /\ Forall (fun v => exists c, code v = VNum c /\ 0 <= c <= 255) vs
   /\ (defined (get "defaultValue" col) = true ->
       existsb (fun v => strict_eq (get "defaultValue" col) (code v)) vs
       = true))
  /\ (forall entries,
        vs = code_values entries ->
        Forall valid_entry entries ->
        thrown (Sql.processCodeColumn col)
        = if Nat.eqb (List.length entries) 0 then Some Error
          else if has_duplicate Z.eqb (map fst entries)
                  || has_duplicate String.eqb (map snd entries)
               then Some ReferenceError
          else if 255 <? highest (map fst entries) then Some RangeError
          else if defined (get "defaultValue" col)
                  && negb (existsb
                             (fun c =>
                                strict_eq (get "defaultValue" col) (VNum c))
                             (map fst entries))
               then Some ReferenceError
          else None).
Proof.
  intros Hv. split.
  - unfold Sql.processCodeColumn. rewrite Hv. rewrite length_map.
    destruct (Nat.eqb (List.length vs) 0) eqn:E0; cbn [throw_if bind];
      [discriminate|].
    destruct (foldM _ _ (map entry vs)) as [st|] eqn:F; cbn [bind];
      [|discriminate].
    destruct (code_loop_ok _ _ _ F) as [cs [M [P [VC [HC [_ [D1 [_ D2]]]]]]]].
    cbn [Sql.valueCodes Sql.highestCode app] in VC, HC.
    rewrite Z.gtb_ltb.
    destruct (255 <? Sql.highestCode st) eqn:R; cbn [throw_if bind];
      [discriminate|].
    apply Z.ltb_ge in R.
    destruct (defined (get "defaultValue" col)
              && negb (existsb (fun c => strict_eq (get "defaultValue" col)
                                           (VNum c))
                         (Sql.valueCodes st))) eqn:DV;
      cbn [throw_if bind]; [discriminate|].
    intros _. split; [now destruct vs|].
    split; [now rewrite M, has_duplicate_codes|].
    split; [exact D2|]. split.
    + destruct (fold_max_bounds cs 0) as [_ B]. rewrite <- HC in B.
      clear -M P B R. revert cs M P B.
      induction vs as [|v vs IH]; intros [|c cs] M P B; try discriminate;
        constructor.
      * inversion M. inversion P. inversion B. subst. exists c.
        repeat split; auto; lia.
      * inversion M. inversion P. inversion B. subst. eauto.
    + intros D. rewrite D in DV. cbn [andb] in DV.
      apply negb_false_iff in DV. rewrite VC in DV.
      clear -M DV. revert cs M DV.
      induction vs as [|v vs IH]; intros [|c cs] M DV; try discriminate.
      inversion M as [[C M']]. cbn [existsb] in *. rewrite C.
      destruct (strict_eq (get "defaultValue" col) (VNum c)); cbn [orb] in *;
        eauto.
  - intros entries -> He. unfold Sql.processCodeColumn. rewrite Hv.
    rewrite length_map. unfold code_values at 1. rewrite length_map.
    destruct (Nat.eqb (List.length entries) 0) eqn:E0; [reflexivity|].
    cbn [throw_if bind].
    rewrite (code_loop_start entries He).
    destruct (has_duplicate Z.eqb (map fst entries)
              || has_duplicate String.eqb (map snd entries)); [reflexivity|].
    cbn [bind Sql.highestCode Sql.valueCodes]. rewrite Z.gtb_ltb.
    destruct (255 <? highest (map fst entries)); [reflexivity|].
    cbn [throw_if bind].
    destruct (defined (get "defaultValue" col)
              && negb (existsb (fun c => strict_eq (get "defaultValue" col)
                                           (VNum c))
                         (map fst entries))); reflexivity.
Qed.

Lemma code_column_validation_witness :
  thrown (Sql.processCodeColumn kind_255) = None
  /\ thrown (Sql.processCodeColumn kind_twice) = Some ReferenceError
  /\ thrown (Sql.processCodeColumn kind_256) = Some RangeError.
Proof.
  assert (V : forall c n, 0 <= c <= 256 -> Sql.is_code_name n = true ->
                          valid_entry (c, n)).
  { intros c n Hc Hn. split; [simpl; unfold MAX_SAFE_INTEGER; lia | exact Hn]. }
  split; [|split].
  - apply (proj2 (code_column_validation kind_255 _ eq_refl)
             [(0, "A"); (255, "B")] eq_refl).
    repeat constructor; apply V; (lia || reflexivity).
  - apply (proj2 (code_column_validation kind_twice _ eq_refl)
             [(0, "A"); (0, "B")] eq_refl).
    repeat constructor; apply V; (lia || reflexivity).
  - apply (proj2 (code_column_validation kind_256 _ eq_refl)
             [(256, "A")] eq_refl).
    repeat constructor; apply V; (lia || reflexivity).
Defined.

(** ** Two databases of one type *)

(** C9. When a file declares two databases of the same type, the file is
    not refused for it: the descriptor emitter's lookup finds the first of
    the two, the text is made of the tables of the first, and the second
    is read nowhere, so that the file compiles to what the first database
    alone compiles to. *)
Theorem same_type_second_ignored (d1 d2 : Database) :
  db_type d1 = db_type d2 ->
  Lua.compileSchema [d1; d2]
  = (if String.eqb (db_type d1) "fixed" then
       st <- Lua.writeDatabase "core" (Some d1)
               (Lua.mkState (Some d1) None (Lua.header ++ Lua.coreOpen d1)) ;;
       Ok (Lua.luaCode st ++ Lua.footer)
     else if String.eqb (db_type d1) "instance" then
       st <- Lua.writeDatabase "inst" (Some d1)
               (Lua.mkState None (Some d1) (Lua.header ++ Lua.instOpen)) ;;
       Ok (Lua.luaCode st ++ Lua.footer)
     else Ok (Lua.header ++ Lua.footer))
  /\ Lua.compileSchema [d1; d2] = Lua.compileSchema [d1].
Proof.
  intros H. unfold Lua.compileSchema. cbn [List.length Nat.ltb Nat.leb orb throw_if bind].
  cbn [find]. rewrite <- H.
  destruct (String.eqb (db_type d1) "fixed") eqn:E1.
  - assert (E2 : String.eqb (db_type d1) "instance" = false).
    { apply String.eqb_eq in E1. now rewrite E1. }
    rewrite E2. cbv zeta. unfold Lua.emit. cbn [Lua.writeDatabase bind].
    cbn [Lua.coreDatabase Lua.instDatabase Lua.luaCode]. split; reflexivity.
  - destruct (String.eqb (db_type d1) "instance") eqn:E2; cbv zeta;
      unfold Lua.emit; cbn [Lua.writeDatabase bind];
      cbn [Lua.coreDatabase Lua.instDatabase Lua.luaCode]; split; reflexivity.
Qed.

Lemma same_type_second_ignored_witness :
  Lua.compileSchema [shop; bank]
  = (st <- Lua.writeDatabase "core" (Some shop)
             (Lua.mkState (Some shop) None (Lua.header ++ Lua.coreOpen shop)) ;;
     Ok (Lua.luaCode st ++ Lua.footer))
  /\ Lua.compileSchema [shop; bank] = Lua.compileSchema [shop].
Proof. exact (same_type_second_ignored shop bank eq_refl). Defined.

(** ** Writing the SQL files *)

Lemma foldM_throws {A S : Type} (f : S -> A -> result S) (l : list A) :
  forall (x : A) (s : S),
    In x l -> (forall s', accepted (f s' x) = false) ->
    accepted (foldM f s l) = false.
Proof.
  induction l as [|y l IH]; intros x s I Hx; simpl; [contradiction I|].
  destruct I as [E|I].
  - subst y. specialize (Hx s). destruct (f s x); [discriminate | reflexivity].
  - destruct (f s y) as [s'|e]; simpl; [eauto | reflexivity].
Qed.

(** A table that fails makes the text of its database fail *)
Lemma databaseSql_throws (database : nat * Database)
    (databases : list Database) (t : Table) (e : error) :
  In t (tables (snd database)) ->
  Sql.processTable t database databases = Throw e ->
  exists e', Sql.databaseSql database databases = Throw e'.
Proof.
  intros I H. unfold Sql.databaseSql.
  match goal with |- exists _, foldM ?f ?s ?l = _ =>
    pose proof (foldM_throws f l t s I) as F; destruct (foldM f s l) end.
  - exfalso. assert (true = false); [|discriminate]. apply F.
    intros s'. now rewrite H.
  - eauto.
Qed.

Lemma compileDatabases_app (f : string) (databases : list Database)
    (pre rest : list Database) :
  forall (i : nat) (d : disk),
    Sql.compileDatabases f databases i (pre ++ rest) d
    = match Sql.compileDatabases f databases i pre d with
      | (d', None) =>
          Sql.compileDatabases f databases (i + List.length pre) rest d'
      | (d', Some e) => (d', Some e)
      end.
Proof.
  induction pre as [|db pre IH]; intros i d; simpl.
  - now rewrite Nat.add_0_r.
  - destruct (Sql.databaseSql (i, db) databases); auto.
    rewrite IH. now rewrite Nat.add_succ_r.
Qed.

(** C7. When a table of a database fails, the SQL emitter writes nothing
    for that database: the output directory is as the databases before it
    left it, so nothing is written if it is the first, and the first
    database's file stays if it is the second. *)
Theorem sql_all_or_nothing_per_database (f : string)
    (pre post : list Database) (db : Database) (d : disk)
    (t : Table) (e : error) :
  snd (Sql.compileDatabases f (pre ++ db :: post) 0 pre d) = None ->
  In t (tables db) ->
  Sql.processTable t (List.length pre, db) (pre ++ db :: post) = Throw e ->
  exists e',
    Sql.compileFile f (pre ++ db :: post) d
    = (fst (Sql.compileDatabases f (pre ++ db :: post) 0 pre d), Some e').
Proof.
  intros Hpre I H. unfold Sql.compileFile.
  rewrite (compileDatabases_app f (pre ++ db :: post) pre (db :: post) 0 d).
  destruct (Sql.compileDatabases f (pre ++ db :: post) 0 pre d) as [d' r].
  simpl in Hpre. subst r. simpl.
  destruct (databaseSql_throws (List.length pre, db) (pre ++ db :: post) t e I H)
    as [e' E].
  rewrite E. eauto.
Qed.

Lemma sql_all_or_nothing_per_database_witness :
  exists e' sql1,
    Sql.databaseSql (0%nat, shop) [shop; tenant_misnamed] = Ok sql1
    /\ Sql.compileFile "shop" [shop; tenant_misnamed] []
       = ([("shop.sql", sql1)], Some e').
Proof.
  destruct (sql_all_or_nothing_per_database "shop" [shop] [] tenant_misnamed
              [] orders_misnamed Error eq_refl (or_introl eq_refl) eq_refl)
    as [e' E].
  exists e'. eexists. split; [reflexivity | exact E].
Defined.

(** ** Resolving a foreign key *)




(** ** The clause of a foreign key *)

Lemma uint_chars (u : Decimal.uint) :
  string_forallb is_dec_char (DecimalString.NilEmpty.string_of_uint u) = true.
Proof. induction u; simpl; auto. Qed.

Lemma dec_chars (n : Z) : string_forallb is_dec_char (dec n) = true.
Proof.
  unfold dec. destruct (Z.to_int n) as [u|u]; simpl.
  - destruct u; try reflexivity; apply (uint_chars (_ u)).
  - destruct u; try reflexivity; apply (uint_chars (_ u)).
Qed.

Lemma replace_first_skip (pat rep : string) (c : ascii) (r : string) :
  prefix pat (String c r) = false ->
  replace_first pat rep (String c r) = String c (replace_first pat rep r).
Proof.
  intros H.
  change (replace_first pat rep (String c r))
    with (if prefix pat (String c r)
          then rep ++ drop (String.length pat) (String c r)
          else String c (replace_first pat rep r)).
  now rewrite H.
Qed.

Lemma strip_default_skip (c : ascii) (r : string) :
  prefix "DEFAULT " (String c r) = false ->
  strip_default (String c r) = String c (strip_default r).
Proof.
  intros H.
  change (strip_default (String c r))
    with (if prefix "DEFAULT " (String c r)
             && string_forallb (fun c => negb (is_line_terminator c))
                  (drop 8 (String c r))
          then EmptyString
          else String c (strip_default r)).
  now rewrite H.
Qed.

Lemma strip_default_hit (s : string) :
  string_forallb is_dec_char s = true ->
  strip_default ("DEFAULT " ++ s) = "".
Proof.
  intros H. unfold strip_default.
  assert (L : string_forallb (fun c => negb (is_line_terminator c)) s = true).
  { induction s as [|c s IH]; simpl in *; auto.
    apply andb_true_iff in H. destruct H as [Hc Hs].
    rewrite (IH Hs), andb_true_r.
    unfold is_dec_char, is_digit, in_range, is_line_terminator in *.
    destruct (nat_of_ascii c =? 10)%nat eqn:E1;
      [apply Nat.eqb_eq in E1; rewrite E1 in Hc; discriminate|].
    destruct (nat_of_ascii c =? 13)%nat eqn:E2;
      [apply Nat.eqb_eq in E2; rewrite E2 in Hc; discriminate|].
    reflexivity. }
  simpl. destruct s; simpl in *; now rewrite ?L.
Qed.

Lemma strip_default_dec (s : string) :
  string_forallb is_dec_char s = true -> strip_default s = s.
Proof.
  induction s as [|c s IH]; intros H; [reflexivity|].
  simpl in H. apply andb_true_iff in H. destruct H as [Hc Hs].
  rewrite strip_default_skip, IH; auto.
  cbn [prefix].
  destruct (ascii_dec "D" c) as [<-|]; [discriminate Hc | reflexivity].
Qed.

Lemma no_auto_increment (s : string) :
  string_forallb is_dec_char s = true ->
  replace_first "AUTO_INCREMENT" "" s = s.
Proof.
  induction s as [|c s IH]; intros H; [reflexivity|].
  simpl in H. apply andb_true_iff in H. destruct H as [Hc Hs].
  rewrite replace_first_skip, IH; auto.
  cbn [prefix].
  destruct (ascii_dec "A" c) as [<-|]; [discriminate Hc | reflexivity].
Qed.

(** A safe integer is rendered in plain decimal digits *)
Lemma safe_to_string (v : val) (x : Z) :
  as_safe_integer v = Some x -> to_string v = dec x.
Proof.
  unfold as_safe_integer. destruct v as [[| | |y|]| |]; try discriminate.
  destruct (_ && _) eqn:B; [|discriminate]. intros [= ->].
  apply andb_true_iff in B. destruct B as [L U].
  apply Z.leb_le in L, U. unfold MAX_SAFE_INTEGER in L, U.
  cbn [to_string prim_to_string]. unfold number_to_string.
  replace (Z.abs x <? 10 ^ 21) with true; [reflexivity|].
  symmetry. apply Z.ltb_lt.
  assert (2 ^ 53 < 10 ^ 21) by reflexivity. lia.
Qed.

(** What [processIntegerColumn] returns when it returns *)
Lemma processIntegerColumn_clause (col : obj) (d : string) :
  Sql.processIntegerColumn col = Ok d ->
  exists sz,
    Sql.integer_size (get "size" col) = Some sz
    /\ d = Sql.size_name sz ++ " "
           ++ (if truthy (get "unsigned" col) then "UNSIGNED" else "") ++ " "
           ++ Sql.null_clause (get "nullable" col) ++ " "
           ++ Sql.default_clause (get "defaultValue" col)
    /\ (defined (get "defaultValue" col) = false
        \/ exists x, get "defaultValue" col = VNum x
                     /\ to_string (get "defaultValue" col) = dec x).
Proof.
  unfold Sql.processIntegerColumn.
  destruct (Sql.integer_size (get "size" col)) as [sz|]; [|discriminate].
  destruct (defined (get "minValue" col) && _); [discriminate|].
  destruct (defined (get "maxValue" col) && _); [discriminate|].
  cbn [throw_if bind].
  destruct (defined (get "defaultValue" col)) eqn:D; cbn [andb].
  - destruct (isSafeInteger (get "defaultValue" col)) eqn:S; [|discriminate].
    cbn [negb throw_if bind]. destruct (_ || _); [discriminate|].
    cbn [throw_if bind]. intros [= <-]. exists sz. repeat split.
    right. unfold isSafeInteger in S.
    destruct (as_safe_integer (get "defaultValue" col)) as [x|] eqn:A;
      [|discriminate].
    exists x. split; [|exact (safe_to_string _ _ A)].
    unfold as_safe_integer in A.
    destruct (get "defaultValue" col) as [[| | |y|]| |]; try discriminate.
    destruct (_ && _); [|discriminate]. now injection A as ->.
  - cbn [throw_if bind]. intros [= <-]. exists sz. repeat split. now left.
Qed.

(** The clause of an integer or serial target that is not nullable, after
    the FK case removed its auto-increment and default and applied the
    declaration's nullability and default *)
Lemma fk_clause_from (sz : Sql.int_size) (u nullable : bool) (tail : string)
    (own : option Z) :
  tail = "" \/ tail = "AUTO_INCREMENT" \/ (exists x, tail = "DEFAULT " ++ dec x) ->
  (if nullable
   then replace_first "NOT NULL" "NULL"
          (strip_default
             (replace_first "AUTO_INCREMENT" ""
                (Sql.size_name sz ++ " " ++ (if u then "UNSIGNED" else "")
                 ++ " " ++ "NOT NULL" ++ " " ++ tail)))
   else strip_default
          (replace_first "AUTO_INCREMENT" ""
             (Sql.size_name sz ++ " " ++ (if u then "UNSIGNED" else "")
              ++ " " ++ "NOT NULL" ++ " " ++ tail)))
  ++ match own with Some y => " DEFAULT " ++ dec y | None => "" end
  = fk_clause sz u nullable own.
Proof.
  intros [->|[->|[x ->]]].
  - destruct sz, u, nullable; reflexivity.
  - destruct sz, u, nullable; reflexivity.
  - assert (E : strip_default
                  (replace_first "AUTO_INCREMENT" ""
                     (Sql.size_name sz ++ " " ++ (if u then "UNSIGNED" else "")
                      ++ " " ++ "NOT NULL" ++ " " ++ "DEFAULT " ++ dec x))
                = Sql.size_name sz ++ " " ++ (if u then "UNSIGNED" else "")
                  ++ " " ++ "NOT NULL" ++ " ").
    { destruct sz, u; cbn [Sql.size_name append];
        repeat (rewrite replace_first_skip by reflexivity);
        rewrite (no_auto_increment _ (dec_chars x));
        repeat (rewrite strip_default_skip by reflexivity);
        change (String "D" (String "E" (String "F" (String "A" (String "U"
                  (String "L" (String "T" (String " " (dec x)))))))))
          with ("DEFAULT " ++ dec x);
        rewrite (strip_default_hit _ (dec_chars x)); reflexivity. }
    rewrite E. destruct sz, u, nullable; reflexivity.
Qed.

Ltac destruct_matches :=
  repeat match goal with
         | |- context [match ?x with _ => _ end] => destruct x eqn:?
         | |- context [if ?x then _ else _] => destruct x eqn:?
         | |- context [let (_, _) := ?x in _] => destruct x eqn:?
         end.

(** The SQL emitter resolves an FK only to a column that is not nullable *)
Lemma resolveTarget_not_nullable (col : obj) (database : nat * Database)
    (databases : list Database) (t : Sql.fk_target) :
  Sql.resolveTarget col database databases = Ok t ->
  truthy (get "nullable" (Sql.targetCol t)) = false.
Proof.
  unfold Sql.resolveTarget, bind, throw_if.
  destruct_matches; try discriminate; intros [= <-]; cbn [Sql.targetCol].
  match goal with
  | H : (if ?c then _ else _) = Ok _ |- ?c = false =>
      destruct c; [discriminate H | reflexivity]
  end.
Qed.

(** The last step of the FK case: the declaration's own default *)
Lemma own_default (c : string) (dv : val) (idx idxes' : list string)
    (clause : string) :
  (if defined dv
   then throw_if (negb (isSafeInteger dv)) TypeError ;;;
        Ok (c ++ " DEFAULT " ++ to_string dv, idx)
   else Ok (c, idx)) = Ok (clause, idxes') ->
  clause = c ++ match as_safe_integer dv with
                | Some y => " DEFAULT " ++ dec y
                | None => ""
                end.
Proof.
  assert (N : forall s : string, s ++ "" = s).
  { induction s as [|a s IH]; simpl; congruence. }
  unfold isSafeInteger.
  destruct (as_safe_integer dv) as [y|] eqn:A.
  - rewrite (safe_to_string _ _ A).
    replace (defined dv) with true
      by (now destruct dv as [[| | |x|]| |]).
    cbn [negb throw_if bind]. now intros [= <- _].
  - destruct (defined dv); cbn [negb throw_if bind]; [discriminate|].
    intros [= <- _]. now rewrite N.
Qed.

(** The SQL half of C4: the clause of a resolved FK column *)
Lemma sql_fk_clause (colName : string) (col : obj) (database : nat * Database)
    (databases : list Database) (idxes idxes' : list string)
    (clause : string) :
  Sql.processFKColumn colName col database databases idxes
  = Ok (clause, idxes') ->
  exists t sz,
    Sql.resolveTarget col database databases = Ok t
    /\ Sql.integer_size (get "size" (Sql.targetCol t)) = Some sz
    /\ (strict_eq (get "type" (Sql.targetCol t)) (VStr "integer") = true
        \/ strict_eq (get "type" (Sql.targetCol t)) (VStr "serial") = true)
    /\ clause
       = fk_clause sz
           (strict_eq (get "type" (Sql.targetCol t)) (VStr "serial")
            || truthy (get "unsigned" (Sql.targetCol t)))
           (truthy (get "nullable" col))
           (as_safe_integer (get "defaultValue" col)).
Proof.
  unfold Sql.processFKColumn.
  destruct (Sql.resolveTarget col database databases) as [t|] eqn:R;
    [|discriminate].
  pose proof (resolveTarget_not_nullable _ _ _ _ R) as NN.
  cbn [bind]. cbv zeta.
  destruct (strict_eq (get "type" (Sql.targetCol t)) (VStr "integer")) eqn:TI.
  - destruct (Sql.processIntegerColumn (Sql.targetCol t)) as [d|] eqn:P;
      [|discriminate].
    destruct (processIntegerColumn_clause _ _ P) as [sz [Hsz [Hd Hdef]]].
    cbn [bind]. intros H. apply own_default in H.
    exists t, sz. repeat split; auto.
    assert (TS : strict_eq (get "type" (Sql.targetCol t)) (VStr "serial") = false).
    { destruct (get "type" (Sql.targetCol t)) as [[| | | |s]| |];
        try discriminate.
      simpl in TI |- *. apply String.eqb_eq in TI. now subst s. }
    rewrite TS. cbn [orb].
    rewrite <- (fk_clause_from sz (truthy (get "unsigned" (Sql.targetCol t)))
                  (truthy (get "nullable" col))
                  (Sql.default_clause (get "defaultValue" (Sql.targetCol t)))).
    2:{ unfold Sql.default_clause. destruct Hdef as [-> | [x [E S]]]; auto.
        right. right. exists x. now rewrite S, E. }
    unfold Sql.null_clause in Hd. rewrite NN in Hd. rewrite <- Hd.
    rewrite H. now destruct (truthy (get "nullable" col)).
  - destruct (strict_eq (get "type" (Sql.targetCol t)) (VStr "serial")) eqn:TS;
      [|discriminate].
    unfold Sql.processSerialColumn.
    destruct (Sql.integer_size (get "size" (Sql.targetCol t))) as [sz|] eqn:Hsz;
      [|discriminate].
    cbn [bind]. intros H. apply own_default in H.
    exists t, sz. repeat split; auto.
    rewrite TS. cbn [orb].
    rewrite <- (fk_clause_from sz true (truthy (get "nullable" col))
                  "AUTO_INCREMENT") by auto.
    rewrite H. now destruct (truthy (get "nullable" col)).
Qed.

(** ** The column of a foreign key in the descriptor *)

(** The bounds the descriptor emitter attaches are the closed form *)
Lemma bounds_of_resolved (o : obj) : bounds_of o = resolved_bounds o.
Proof.
  unfold bounds_of, resolved_bounds, Lua.attachBounds.
  destruct (loose_eq (get "type" o) (VStr "integer")).
  - destruct (defined (get "minValue" o)) eqn:Dmin; cbn [negb].
    + cbn [bind].
      destruct (defined (get "maxValue" o)) eqn:Dmax; cbn [negb bind];
        [reflexivity|].
      destruct (Lua.integerMax _ _); cbn [bind]; obj_simpl; reflexivity.
    + destruct (truthy (get "autoIncrement" o));
        [|destruct (truthy (get "unsigned" o));
          [|destruct (Lua.signedMin (get "size" o)); [|reflexivity]]];
        cbn [bind]; obj_simpl;
        (destruct (defined (get "maxValue" o)); cbn [negb bind];
         [obj_simpl; reflexivity
         |destruct (Lua.integerMax _ _); cbn [bind]; obj_simpl; reflexivity]).
  - destruct (loose_eq (get "type" o) (VStr "serial")); [|reflexivity].
    obj_simpl. destruct (Lua.serialMax _); cbn [bind]; obj_simpl; reflexivity.
Qed.

(** The bounds depend on six properties only *)
Lemma resolved_bounds_agree (o1 o2 : obj) :
  get "type" o1 = get "type" o2 ->
  get "size" o1 = get "size" o2 ->
  get "unsigned" o1 = get "unsigned" o2 ->
  get "autoIncrement" o1 = get "autoIncrement" o2 ->
  get "minValue" o1 = get "minValue" o2 ->
  get "maxValue" o1 = get "maxValue" o2 ->
  resolved_bounds o1 = resolved_bounds o2.
Proof.
  intros H1 H2 H3 H4 H5 H6. unfold resolved_bounds.
  now rewrite H1, H2, H3, H4, H5, H6.
Qed.

(** The object the FK branch of [writeTable] makes of a target [fkCol] for
    a declaration [column] *)
Lemma fk_copy_get (fkCol column : obj) (k : string) :
  wf_obj fkCol ->
  get k (del "values"
           (assign (assign [] fkCol)
              [("name", get "name" column);
               ("nullable", get "nullable" column)]))
  = if String.eqb k "values" then Prim VUndef
    else if String.eqb k "name" then get "name" column
    else if String.eqb k "nullable" then get "nullable" column
    else get k fkCol.
Proof.
  intros W. destruct (String.eqb k "values") eqn:E1.
  - apply String.eqb_eq in E1. subst k. apply get_del_same.
  - rewrite get_del_other by exact E1. rewrite get_assign.
    cbn [has List.rev app get].
    destruct (String.eqb k "name") eqn:E2; cbn [orb].
    { apply String.eqb_eq in E2. now subst k. }
    destruct (String.eqb k "nullable") eqn:E3; cbn [orb]; [reflexivity|].
    now apply get_assign_empty.
Qed.

(** The descriptor half of C4: the column of a resolved FK declaration *)
Lemma lua_fk_column (st : Lua.state) (type : string) (col : obj)
    (path : string) (dbref : option string) (table column : string)
    (fkCol : obj) :
  get "column" col = VStr path ->
  split_dot path = segments dbref table column ->
  lookup_column (fun v s => loose_eq v (VStr s))
    (lua_database st type dbref) table column = Found fkCol ->
  wf_obj fkCol ->
  exists column',
    Lua.resolveFK st type col = Ok column'
    /\ (forall k,
          get k column'
          = if String.eqb k "values" then Prim VUndef
            else if String.eqb k "name" then get "name" col
            else if String.eqb k "nullable" then get "nullable" col
            else get k fkCol)
    /\ bounds_of column' = bounds_of fkCol.
Proof.
  intros Hp Hs Hl W.
  exists (del "values"
            (assign (assign [] fkCol)
               [("name", get "name" col); ("nullable", get "nullable" col)])).
  split; [|split].
  - unfold Lua.resolveFK, Lua.fkTarget. rewrite Hp. cbn [as_string]. rewrite Hs.
    unfold lookup_column, lua_database in Hl.
    destruct dbref as [name|];
      cbn [segments List.length Nat.eqb Lua.item nth_error].
    + destruct (Lua.coreDatabase st) as [core|] eqn:Ec; [|discriminate].
      cbn [bind loose_eq].
      destruct (if String.eqb name (db_name core) then Some core
                else Lua.instDatabase st) as [db|]; [|discriminate].
      destruct (find _ (tables db)) as [t|]; [|discriminate].
      destruct (find _ (columns t)) as [c|]; [|discriminate].
      now injection Hl as ->.
    + cbn [bind].
      destruct (if String.eqb type "core" then Lua.coreDatabase st
                else Lua.instDatabase st) as [db|]; [|discriminate].
      cbn [loose_eq].
      destruct (find _ (tables db)) as [t|]; [|discriminate].
      destruct (find _ (columns t)) as [c|]; [|discriminate].
      now injection Hl as ->.
  - intros k. now apply fk_copy_get.
  - rewrite !bounds_of_resolved.
    apply resolved_bounds_agree; now rewrite fk_copy_get.
Qed.

(** C4, as the code has it. For an FK declaration with a reference path
    of two or three segments: when the SQL emitter resolves it, the target
    is an integer or serial column and the column clause is the
    declaration's name, the target's size and signedness, without its
    auto-increment and default, and the declaration's own nullability and
    default; a target of another type, a code column included, makes the
    SQL emitter throw [TypeError]; when the descriptor emitter finds a
    target that is not itself an FK declaration, the column it emits has
    the declaration's name and nullability, no enumerated values, and the
    target's type, size, signedness and default, and its bounds, which
    are those the emitter attaches to the target. *)
Theorem fk_column_resolved (col : obj) (database : nat * Database)
    (databases : list Database) (st : Lua.state)
    (type path : string) (dbref : option string) (table column : string) :
  get "type" col = VStr "FK" ->
  get "column" col = VStr path ->
  split_dot path = segments dbref table column ->
  (forall cols idxes cols' idxes',
      Sql.processColumn database databases (cols, idxes) col
      = Ok (cols', idxes') ->
      exists t sz,
        Sql.resolveTarget col database databases = Ok t
        /\ Sql.integer_size (get "size" (Sql.targetCol t)) = Some sz
        /\ (strict_eq (get "type" (Sql.targetCol t)) (VStr "integer") = true
            \/ strict_eq (get "type" (Sql.targetCol t)) (VStr "serial") = true)
        /\ cols'
           = push cols
               (to_string (get "name" col) ++ " "
                ++ fk_clause sz
                     (strict_eq (get "type" (Sql.targetCol t)) (VStr "serial")
                      || truthy (get "unsigned" (Sql.targetCol t)))
                     (truthy (get "nullable" col))
                     (as_safe_integer (get "defaultValue" col))))
  /\ (forall t idxes,
        Sql.resolveTarget col database databases = Ok t ->
        strict_eq (get "type" (Sql.targetCol t)) (VStr "integer") = false ->
        strict_eq (get "type" (Sql.targetCol t)) (VStr "serial") = false ->
        thrown (Sql.processFKColumn (to_string (get "name" col)) col database
                  databases idxes)
        = Some TypeError)
  /\ (forall fkCol,
        lookup_column (fun v s => loose_eq v (VStr s))
          (lua_database st type dbref) table column = Found fkCol ->
        wf_obj fkCol ->
        loose_eq (get "type" fkCol) (VStr "FK") = false ->
        exists column',
          Lua.resolveFK st type col = Ok column'
          /\ get "name" column' = get "name" col
          /\ get "nullable" column' = get "nullable" col
          /\ get "values" column' = VUndef
          /\ get "type" column' = get "type" fkCol
          /\ get "size" column' = get "size" fkCol
          /\ get "unsigned" column' = get "unsigned" fkCol
          /\ get "defaultValue" column' = get "defaultValue" fkCol
          /\ bounds_of column' = bounds_of fkCol).
Proof.
  intros Ht Hp Hs. split; [|split].
  - intros cols idxes cols' idxes'. unfold Sql.processColumn.
    cbv beta iota zeta. rewrite Ht.
    destruct (throw_if _ Error); cbn [bind]; [|discriminate].
    change (strict_eq (VStr "FK") (VStr "FK")) with true. cbv iota.
    destruct (Sql.processFKColumn _ col database databases idxes)
      as [[clause idxes1]|] eqn:P; cbn [bind]; [|discriminate].
    intros [= <- _].
    destruct (sql_fk_clause _ _ _ _ _ _ _ P) as [t [sz [R [Z [T ->]]]]].
    now exists t, sz.
  - intros t idxes R TI TS. unfold Sql.processFKColumn.
    rewrite R. cbn [bind]. cbv zeta. now rewrite TI, TS.
  - intros fkCol Hl W _.
    destruct (lua_fk_column st type col path dbref table column fkCol
                Hp Hs Hl W) as [column' [R [G B]]].
    exists column'. repeat split; auto; rewrite G; reflexivity.
Qed.

Lemma fk_column_resolved_witness :
  (exists t sz,
      Sql.resolveTarget orders_customer (0%nat, shop) [shop] = Ok t
      /\ Sql.integer_size (get "size" (Sql.targetCol t)) = Some sz
      /\ (strict_eq (get "type" (Sql.targetCol t)) (VStr "integer") = true
          \/ strict_eq (get "type" (Sql.targetCol t)) (VStr "serial") = true)
      /\ ["customer INT UNSIGNED NULL  DEFAULT 5"]
         = push []
             ("customer" ++ " "
              ++ fk_clause sz
                   (strict_eq (get "type" (Sql.targetCol t)) (VStr "serial")
                    || truthy (get "unsigned" (Sql.targetCol t)))
                   true (Some 5)))
  /\ (exists column',
        Lua.resolveFK (Lua.mkState (Some shop) None "") "core" orders_customer
        = Ok column'
        /\ get "name" column' = VStr "customer"
        /\ get "nullable" column' = VBool true
        /\ get "values" column' = VUndef
        /\ get "type" column' = VStr "serial"
        /\ get "size" column' = VStr "INT"
        /\ get "unsigned" column' = VUndef
        /\ get "defaultValue" column' = VUndef
        /\ bounds_of column' = bounds_of users_id).
Proof.
  destruct (fk_column_resolved orders_customer (0%nat, shop) [shop]
              (Lua.mkState (Some shop) None "") "core" "users.id" None
              "users" "id" eq_refl eq_refl eq_refl) as [S [_ L]].
  split.
  - exact (S [] [] ["customer INT UNSIGNED NULL  DEFAULT 5"]
             ["FOREIGN KEY (customer) REFERENCES users (id) ON DELETE CASCADE"]
             eq_refl).
  - apply (L users_id eq_refl); [|reflexivity].
    unfold wf_obj. repeat constructor; simpl; intuition discriminate.
Defined.

(** C4 as stated fails: in the descriptor the column of an FK declaration
    keeps the target's default, not the declaration's own; the SQL emitter
    rejects an FK to a code column; and the descriptor emitter leaves such
    a column with type code and without bounds. *)
Lemma fk_column_counterexample :
  (exists column',
      Lua.resolveFK (Lua.mkState (Some bank) None "") "core" audit_level
      = Ok column'
      /\ get "defaultValue" audit_level = VNum 7
      /\ get "defaultValue" column' = VNum 0)
  /\ thrown (Sql.processFKColumn "statusSeen" audit_status (0%nat, bank)
               [bank] [])
     = Some TypeError
  /\ (exists column',
        Lua.resolveFK (Lua.mkState (Some bank) None "") "core" audit_status
        = Ok column'
        /\ get "type" column' = VStr "code"
        /\ bounds_of column' = Ok (Prim VUndef, Prim VUndef)).
Proof.
  split; [|split].
  - eexists. split; [reflexivity|]. split; reflexivity.
  - reflexivity.
  - eexists. split; [reflexivity|]. split; reflexivity.
Qed.

(** ** The two emitters on integer bounds *)

Lemma strict_eq_true (v : val) (p : prim) : strict_eq v p = true -> v = Prim p.
Proof.
  destruct v as [q| |]; [|discriminate|discriminate].
  destruct q as [| |x|x|x], p as [| |y|y|y]; simpl; try discriminate; auto.
  - intros H. apply Bool.eqb_prop in H. now subst.
  - intros H. apply Z.eqb_eq in H. now subst.
  - intros H. apply String.eqb_eq in H. now subst.
Qed.

Lemma integer_size_inv (v : val) (sz : Sql.int_size) :
  Sql.integer_size v = Some sz -> v = Prim (VStr (Sql.size_name sz)).
Proof.
  unfold Sql.integer_size, Sql.INTEGER_SIZES. cbn [find].
  repeat match goal with
         | |- context [strict_eq v ?p] =>
             let E := fresh "E" in
             destruct (strict_eq v p) eqn:E;
             [apply strict_eq_true in E; now intros [= <-]|]
         end.
  discriminate.
Qed.

(** C1, as the code has it. For an integer or serial column that the SQL
    emitter accepts, the bounds step of the descriptor emitter does not
    fail. On an integer column it keeps each bound the column declares;
    a maximum that is not declared becomes the absolute maximum the SQL
    emitter validates against, and a minimum that is not declared becomes
    1 when the column is autoIncrement and the absolute minimum the SQL
    emitter validates against otherwise. On a serial column it sets the
    minimum 1 and the unsigned maximum of the size, whatever bounds the
    column declares. *)
Theorem emitters_agree_on_bounds (col : obj) (d : string) :
  (get "type" col = VStr "integer" ->
   Sql.processIntegerColumn col = Ok d ->
   exists sz,
     Sql.integer_size (get "size" col) = Some sz
     /\ bounds_of col
        = Ok (if defined (get "minValue" col) then get "minValue" col
              else if truthy (get "autoIncrement" col) then Prim (VNum 1)
              else Prim (VNum (Sql.absMin (get "unsigned" col) sz)),
              if defined (get "maxValue" col) then get "maxValue" col
              else Prim (VNum (Sql.absMax (get "unsigned" col) sz))))
  /\ (get "type" col = VStr "serial" ->
      Sql.processSerialColumn col = Ok d ->
      exists sz,
        Sql.integer_size (get "size" col) = Some sz
        /\ bounds_of col
           = Ok (Prim (VNum 1), Prim (VNum (Sql.INTEGER_MAX_UNSIGNED sz)))).
Proof.
  split.
  - intros Ht P.
    destruct (processIntegerColumn_clause _ _ P) as [sz [Hsz _]].
    exists sz. split; [exact Hsz|].
    rewrite bounds_of_resolved. unfold resolved_bounds. rewrite Ht.
    cbn [loose_eq String.eqb Ascii.eqb Bool.eqb].
    rewrite (integer_size_inv _ _ Hsz).
    unfold Sql.absMin, Sql.absMax.
    destruct (defined (get "minValue" col)), (defined (get "maxValue" col)),
      (truthy (get "autoIncrement" col)), (truthy (get "unsigned" col)) eqn:U;
      destruct sz; cbn; rewrite ?U; reflexivity.
  - intros Ht P. unfold Sql.processSerialColumn in P.
    destruct (Sql.integer_size (get "size" col)) as [sz|] eqn:Hsz;
      [|discriminate].
    exists sz. split; [reflexivity|].
    rewrite bounds_of_resolved. unfold resolved_bounds. rewrite Ht.
    cbn [loose_eq String.eqb Ascii.eqb Bool.eqb].
    rewrite (integer_size_inv _ _ Hsz). destruct sz; reflexivity.
Qed.

Lemma emitters_agree_on_bounds_witness :
  (exists sz,
      Sql.integer_size (get "size" users_referrer) = Some sz
      /\ bounds_of users_referrer
         = Ok (Prim (VNum (Sql.absMin (VBool true) sz)),
               Prim (VNum (Sql.absMax (VBool true) sz))))
  /\ (exists sz,
        Sql.integer_size (get "size" tickets_id) = Some sz
        /\ bounds_of tickets_id
           = Ok (Prim (VNum 1), Prim (VNum (Sql.INTEGER_MAX_UNSIGNED sz)))).
Proof.
  split.
  - exact (proj1 (emitters_agree_on_bounds users_referrer
                    "INT UNSIGNED NULL ") eq_refl eq_refl).
  - exact (proj2 (emitters_agree_on_bounds tickets_id
                    "INT UNSIGNED NOT NULL AUTO_INCREMENT") eq_refl eq_refl).
Defined.

(** C1 as stated fails. The SQL emitter rejects a column whose explicit
    minimum is below the range of its size and the descriptor emitter
    compiles the schema; the SQL emitter takes a [null] default as no
    default and the descriptor emitter rejects the column object that holds
    it; and for a signed autoIncrement column the descriptor emitter
    attaches the minimum 1 where the SQL emitter validates against the
    signed minimum of the size. *)
Lemma emitters_disagree_counterexample :
  thrown (Sql.databaseSql (0%nat, warehouse) [warehouse]) = Some RangeError
  /\ accepted (Lua.compileSchema [warehouse]) = true
  /\ accepted (Sql.databaseSql (0%nat, notes) [notes]) = true
  /\ thrown (Lua.compileSchema [notes]) = Some SyntaxError
  /\ accepted (Sql.processIntegerColumn stock_position) = true
  /\ bounds_of stock_position = Ok (Prim (VNum 1), Prim (VNum 2147483647))
  /\ Sql.absMin (get "unsigned" stock_position) Sql.INT = -2147483648.
Proof. vm_compute. repeat split. Qed.

(** ** Regeneration and order *)

Lemma append_assoc (a b c : string) : (a ++ b) ++ c = a ++ b ++ c.
Proof. induction a as [|x a IH]; simpl; congruence. Qed.

Lemma append_empty (a : string) : a ++ "" = a.
Proof. induction a as [|x a IH]; simpl; congruence. Qed.

Lemma foldM_ext {A S : Type} (f g : S -> A -> result S) (l : list A) :
  (forall s x, f s x = g s x) -> forall s, foldM f s l = foldM g s l.
Proof.
  intros E. induction l as [|x l IH]; intros s; simpl; auto.
  rewrite E. destruct (g s x); simpl; auto.
Qed.

(** A loop that appends a part per element leaves the parts in order *)
Lemma foldM_in_order {A : Type} (g : A -> result string) (l : list A) :
  forall s s',
    foldM (fun acc x => t <- g x ;; Ok (acc ++ t)) s l = Ok s' ->
    exists parts,
      Forall2 (fun x p => g x = Ok p) l parts /\ s' = s ++ flatten parts.
Proof.
  induction l as [|x l IH]; intros s s'; simpl.
  - intros [= <-]. exists []. split; [constructor | now rewrite append_empty].
  - destruct (g x) as [t|] eqn:G; simpl; [|discriminate].
    intros H. destruct (IH _ _ H) as [parts [F E]].
    exists (t :: parts). split; [now constructor|].
    simpl. now rewrite E, append_assoc.
Qed.

(** The properties of a column object are rendered in their order *)
Lemma lua_properties_in_order (o : obj) (s : string) :
  Lua.objectToLua o = Ok s ->
  exists body, s = "{" ++ body ++ "}" /\ in_order lua_property_part o body.
Proof.
  unfold Lua.objectToLua.
  rewrite (foldM_ext Lua.propertyToLua
             (fun acc kv =>
                t <- (v <- Lua.luaValue (snd kv) ;;
                      Ok (Lua.luaKey (fst kv) ++ " = " ++ v ++ ",")) ;;
                Ok (acc ++ t))).
  2:{ intros acc [k v]. unfold Lua.propertyToLua. cbn [fst snd].
      destruct (Lua.luaValue v); reflexivity. }
  destruct (foldM _ "{" o) as [luaCode|] eqn:F; cbn [bind]; [|discriminate].
  intros [= <-].
  destruct (foldM_in_order _ _ _ _ F) as [parts [F2 E]].
  exists (flatten parts). split.
  - rewrite E. now rewrite append_assoc.
  - exists parts. split; [|reflexivity].
    clear -F2. induction F2 as [|kv part l l' H F IH]; constructor; auto.
    destruct (Lua.luaValue (snd kv)) as [v|] eqn:V; [|discriminate].
    injection H as <-. now exists v.
Qed.

Lemma outputFileSync_twice (path a b : string) (d : disk) :
  outputFileSync path a (outputFileSync path b d) = outputFileSync path a d.
Proof.
  induction d as [|[p c] d IH]; simpl.
  - now rewrite String.eqb_refl.
  - destruct (String.eqb p path) eqn:E; simpl; rewrite E; congruence.
Qed.

Lemma compileDatabases_written (f : string) (databases : list Database)
    (rest : list Database) :
  forall (i : nat) (d : disk),
    Sql.compileDatabases f databases i rest d
    = (match fst (written_last databases i rest) with
       | Some dbSql => outputFileSync (f ++ ".sql") dbSql d
       | None => d
       end, snd (written_last databases i rest)).
Proof.
  induction rest as [|db rest IH]; intros i d; simpl; auto.
  destruct (Sql.databaseSql (i, db) databases) as [dbSql|e]; simpl; auto.
  rewrite IH.
  destruct (written_last databases (S i) rest) as [[later|] r]; simpl; auto.
  now rewrite outputFileSync_twice.
Qed.

(** A run of the SQL emitter that ends without an exception replaces
    [f.sql] by the SQL of the last database of the file *)
Lemma sql_run (f : string) (pre : list Database) (db : Database) (d : disk) :
  snd (Sql.compileFile f (pre ++ [db]) d) = None ->
  exists dbSql,
    Sql.databaseSql (List.length pre, db) (pre ++ [db]) = Ok dbSql
    /\ Sql.compileFile f (pre ++ [db]) d
       = (outputFileSync (f ++ ".sql") dbSql d, None).
Proof.
  unfold Sql.compileFile. rewrite compileDatabases_app.
  rewrite (compileDatabases_written f (pre ++ [db]) pre 0 d).
  destruct (written_last (pre ++ [db]) 0 pre) as [w [e|]]; [discriminate|].
  cbn [fst snd Sql.compileDatabases Nat.add].
  destruct (Sql.databaseSql (List.length pre, db) (pre ++ [db])) as [dbSql|e];
    [|discriminate].
  intros _. exists dbSql. split; [reflexivity|].
  destruct w; now rewrite ?outputFileSync_twice.
Qed.

Lemma sql_regeneration (f : string) (pre : list Database) (db : Database)
    (d : disk) :
  snd (Sql.compileFile f (pre ++ [db]) d) = None ->
  exists dbSql,
    Sql.databaseSql (List.length pre, db) (pre ++ [db]) = Ok dbSql
    /\ fst (Sql.compileFile f (pre ++ [db]) d)
       = outputFileSync (f ++ ".sql") dbSql d
    /\ Sql.compileFile f (pre ++ [db]) (fst (Sql.compileFile f (pre ++ [db]) d))
       = Sql.compileFile f (pre ++ [db]) d.
Proof.
  intros H. destruct (sql_run f pre db d H) as [dbSql [S E]].
  exists dbSql. split; [exact S|]. rewrite E. cbn [fst]. split; [reflexivity|].
  assert (H' : snd (Sql.compileFile f (pre ++ [db])
                      (outputFileSync (f ++ ".sql") dbSql d)) = None).
  { revert H. unfold Sql.compileFile. now rewrite !compileDatabases_written. }
  destruct (sql_run f pre db _ H') as [dbSql' [S' E']].
  rewrite E'. rewrite S in S'. injection S' as <-.
  now rewrite outputFileSync_twice.
Qed.

Lemma lua_regeneration (minify : string -> result string) (f : string)
    (databases : list Database) (d : disk) :
  snd (Lua.compileFile minify f databases d) = None ->
  exists text luaCode,
    Lua.compileSchema databases = Ok text
    /\ minify text = Ok luaCode
    /\ fst (Lua.compileFile minify f databases d)
       = outputFileSync (f ++ ".lua") luaCode d
    /\ Lua.compileFile minify f databases
         (fst (Lua.compileFile minify f databases d))
       = Lua.compileFile minify f databases d.
Proof.
  unfold Lua.compileFile.
  destruct (Lua.compileSchema databases) as [text|]; cbn [bind];
    [|discriminate].
  destruct (minify text) as [luaCode|] eqn:M; [|discriminate].
  intros _. exists text, luaCode. cbn [fst].
  rewrite outputFileSync_twice. repeat split; auto.
Qed.

(** *** The order of the SQL *)

(** What [processColumn] leaves in the index clauses *)
Lemma processColumn_indexes (database : nat * Database)
    (databases : list Database) (cols idxes cols' idxes' : list string)
    (col : obj) :
  Sql.processColumn database databases (cols, idxes) col = Ok (cols', idxes') ->
  if fk_action col then
    exists target,
      idxes' = push idxes
                 ("FOREIGN KEY (" ++ to_string (get "name" col)
                    ++ ") REFERENCES " ++ target
                    ++ ") ON DELETE " ++ to_string (get "ondelete" col))
  else idxes' = idxes.
Proof.
  unfold Sql.processColumn, fk_action. cbv beta iota zeta.
  destruct (throw_if _ _); cbn [bind]; [|discriminate].
  destruct (strict_eq (get "type" col) (VStr "FK")) eqn:FK.
  - unfold Sql.processFKColumn.
    destruct (Sql.resolveTarget col database databases) as [t|];
      cbn [bind]; [|discriminate].
    match goal with
    | |- context [bind (if strict_eq ?ty (VStr "integer") then ?a else ?b) _] =>
        destruct (if strict_eq ty (VStr "integer") then a else b) as [d|]
    end; cbn [bind]; [|discriminate].
    cbn [andb].
    destruct (defined (get "ondelete" col)
              && negb (loose_eq (get "ondelete" col) (VStr "NO ACTION")));
      destruct (defined (get "defaultValue" col));
      try (destruct (throw_if _ _); [|discriminate]); cbn [bind];
      intros [= _ <-]; try reflexivity;
      exists ((if Nat.eqb (fst (Sql.targetDatabase t)) (fst database) then ""
               else db_name (snd (Sql.targetDatabase t)) ++ ".")
              ++ tbl_name (Sql.targetTable t)
              ++ " (" ++ to_string (get "name" (Sql.targetCol t)));
      now rewrite !append_assoc.
  - cbn [andb].
    repeat match goal with
           | |- context [if ?c then _ else _] => destruct c
           end;
      try discriminate;
      match goal with |- context [bind (bind ?m _) _] => destruct m as [d|] end;
      cbn [bind]; try discriminate; now intros [= _ <-].
Qed.

Lemma foldM_push {A : Type} (g : A -> result string) (l : list A) :
  forall acc acc',
    foldM (fun acc x => c <- g x ;; Ok (push acc c)) acc l = Ok acc' ->
    exists new,
      acc' = (acc ++ new)%list /\ Forall2 (fun x c => g x = Ok c) l new.
Proof.
  induction l as [|x l IH]; intros acc acc'; cbn [foldM].
  - intros [= <-]. exists []. split; [now rewrite app_nil_r | constructor].
  - destruct (g x) as [c|] eqn:G; cbn [bind]; [|discriminate].
    intros H. destruct (IH _ _ H) as [new [-> F]].
    exists (c :: new). split; [unfold push; now rewrite <- app_assoc|].
    now constructor.
Qed.

(** What [processColumn] pushes: the clause it makes of the column,
    whatever the clauses gathered before *)
Lemma processColumn_clause (database : nat * Database)
    (databases : list Database) (cols idxes cols' idxes' : list string)
    (col : obj) :
  Sql.processColumn database databases (cols, idxes) col = Ok (cols', idxes') ->
  exists clause,
    cols' = push cols clause
    /\ Sql.processColumn database databases ([], idxes) col
       = Ok ([clause], idxes').
Proof.
  unfold Sql.processColumn. cbv beta iota zeta.
  destruct (throw_if _ _); cbn [bind]; [|discriminate].
  match goal with |- context [bind ?m _] => destruct m as [[d i]|] end;
    cbn [bind]; [|discriminate].
  intros [= <- <-]. eexists. split; reflexivity.
Qed.

(** The clauses of the columns of a table: one per column, in declaration
    order, and after the index clauses there were, the FOREIGN KEY clauses
    of the FK declarations with a delete action, in declaration order *)
Lemma sql_columns_in_order (database : nat * Database)
    (databases : list Database) (l : list obj) :
  forall cols idxes cols' idxes',
    foldM (Sql.processColumn database databases) (cols, idxes) l
    = Ok (cols', idxes') ->
    exists new fks,
      cols' = (cols ++ new)%list
      /\ idxes' = (idxes ++ fks)%list
      /\ Forall2 (sql_column_part database databases) l new
      /\ Forall2 fk_clause_part (filter fk_action l) fks.
Proof.
  induction l as [|c l IH]; intros cols idxes cols' idxes'; cbn [foldM].
  - intros [= <- <-]. exists [], []. rewrite !app_nil_r.
    repeat split; constructor.
  - destruct (Sql.processColumn database databases (cols, idxes) c)
      as [[cols1 idxes1]|] eqn:P; cbn [bind]; [|discriminate].
    intros H.
    pose proof (processColumn_indexes _ _ _ _ _ _ _ P) as PI.
    destruct (processColumn_clause _ _ _ _ _ _ _ P) as [clause [-> P0]].
    destruct (IH _ _ _ _ H) as [new [fks [-> [-> [F1 F2]]]]].
    cbn [filter]. destruct (fk_action c).
    + destruct PI as [target ->].
      eexists (clause :: new), (_ :: fks). unfold push.
      rewrite <- !app_assoc. repeat split; auto.
      * constructor; [eexists idxes, _; exact P0 | exact F1].
      * constructor; [now exists target | exact F2].
    + subst idxes1. exists (clause :: new), fks. unfold push.
      rewrite <- !app_assoc. repeat split; auto.
      constructor; [now exists idxes, idxes | exact F1].
Qed.

(** A table's statement *)
Lemma sql_table_statement (t : Table) (database : nat * Database)
    (databases : list Database) (s : string) :
  Sql.processTable t database databases = Ok s ->
  sql_table_part database databases t s.
Proof.
  unfold Sql.processTable.
  destruct (throw_if _ Error); [|discriminate]. cbn [bind].
  destruct (throw_if _ TypeError); [|discriminate]. cbn [bind].
  destruct (foldM _ [] (indexes t)) as [idx0|] eqn:I; [|discriminate].
  cbn [bind].
  destruct (foldM _ _ (columns t)) as [[cols idxes]|] eqn:F; [|discriminate].
  cbn [bind]. intros [= <-].
  destruct (foldM_push _ _ _ _ I) as [declared [-> FI]].
  destruct (sql_columns_in_order _ _ _ _ _ _ _ F) as [new [fks [-> [-> [F1 F2]]]]].
  exists new, declared, fks. simpl. repeat split; auto.
Qed.

Lemma sql_database_in_order (database : nat * Database)
    (databases : list Database) (dbSql : string) :
  Sql.databaseSql database databases = Ok dbSql ->
  exists rest,
    dbSql = Sql.prologue (snd database) ++ rest
    /\ in_order (sql_table_part database databases)
         (tables (snd database)) rest.
Proof.
  unfold Sql.databaseSql. intros H.
  destruct (foldM_in_order
              (fun t => Sql.processTable t database databases) _ _ _ H)
    as [parts [F E]].
  exists (flatten parts). split; [exact E|]. exists parts. split; [|reflexivity].
  clear -F. induction F as [|t s l l' H F IH]; constructor; auto.
  now apply sql_table_statement.
Qed.

(** *** The object of a column *)

Lemma keys_set (k : string) (v : val) (o : obj) :
  map fst (set k v o)
  = if has k o then map fst o else (map fst o ++ [k])%list.
Proof.
  induction o as [|[k0 v0] o IH]; simpl; [reflexivity|].
  destruct (String.eqb k k0) eqn:E; simpl; [reflexivity|].
  rewrite IH. now destruct (has k o).
Qed.

Lemma keys_del (k : string) (o : obj) :
  map fst (del k o) = filter (fun k' => negb (String.eqb k k')) (map fst o).
Proof.
  induction o as [|[k0 v0] o IH]; simpl; [reflexivity|].
  destruct (String.eqb k k0); simpl; now rewrite IH.
Qed.

Lemma has_del_any (k k' : string) (o : obj) :
  has k' (del k o) = negb (String.eqb k k') && has k' o.
Proof.
  induction o as [|[k0 v0] o IH]; simpl; [now rewrite andb_false_r|].
  destruct (String.eqb k k0) eqn:E; simpl.
  - apply String.eqb_eq in E. subst k0. rewrite IH.
    rewrite (String.eqb_sym k' k). now destruct (String.eqb k k').
  - rewrite IH. destruct (String.eqb k' k0) eqn:E'; simpl.
    + apply String.eqb_eq in E'. subst k0. now rewrite E.
    + reflexivity.
Qed.

Lemma has_not_In (k : string) (o : obj) :
  has k o = false <-> ~ In k (map fst o).
Proof.
  rewrite <- has_In. destruct (has k o); intuition discriminate.
Qed.

Lemma wf_set (k : string) (v : val) (o : obj) :
  wf_obj o -> wf_obj (set k v o).
Proof.
  unfold wf_obj. intros W. rewrite keys_set. destruct (has k o) eqn:H; auto.
  apply has_not_In in H.
  apply NoDup_rev in W. rewrite <- (rev_involutive (_ ++ _)).
  apply NoDup_rev. rewrite rev_unit. constructor; auto.
  now rewrite <- in_rev.
Qed.

Lemma wf_del (k : string) (o : obj) : wf_obj o -> wf_obj (del k o).
Proof.
  unfold wf_obj. intros W. rewrite keys_del. now apply NoDup_filter.
Qed.

Lemma set_absent (k : string) (v : val) (o : obj) :
  has k o = false -> set k v o = (o ++ [(k, v)])%list.
Proof.
  induction o as [|[k0 v0] o IH]; simpl; [reflexivity|].
  destruct (String.eqb k k0); simpl; [discriminate|].
  intros H. now rewrite IH.
Qed.

Lemma assign_wf (o : obj) :
  forall target,
    NoDup (map fst target ++ map fst o) ->
    assign target o = (target ++ o)%list.
Proof.
  unfold assign.
  induction o as [|[k v] o IH]; intros target W; simpl.
  - now rewrite app_nil_r.
  - assert (A : has k target = false).
    { apply has_not_In. intros I. simpl in W.
      apply NoDup_remove_2 in W. apply W. apply in_or_app. now left. }
    rewrite (set_absent _ _ _ A). rewrite IH.
    + now rewrite <- app_assoc.
    + rewrite map_app. simpl. rewrite <- app_assoc. exact W.
Qed.

Lemma assign_empty_wf (o : obj) : wf_obj o -> assign [] o = o.
Proof. intros W. now rewrite assign_wf. Qed.

Lemma has_set (k k' : string) (v : val) (o : obj) :
  has k' (set k v o) = String.eqb k' k || has k' o.
Proof.
  induction o as [|[k0 v0] o IH]; simpl.
  - now rewrite orb_false_r.
  - destruct (String.eqb k k0) eqn:E; simpl.
    + apply String.eqb_eq in E. subst k0.
      now destruct (String.eqb k' k).
    + rewrite IH. destruct (String.eqb k' k), (String.eqb k' k0); reflexivity.
Qed.

Lemma loose_eq_name (v : val) (a b : string) :
  string_to_number a = NaN ->
  String.eqb a b = false ->
  loose_eq v (VStr a) = true -> loose_eq v (VStr b) = false.
Proof.
  intros N D.
  destruct v as [[| |x|x|x]|l|o]; try discriminate; try reflexivity;
    unfold loose_eq; try (cbn [to_number]; rewrite N; discriminate);
    intros H; apply String.eqb_eq in H; now rewrite H.
Qed.

(** The relation of an emitted object to its source is kept by each step
    of the emitter *)
Lemma emitted_refl (c : obj) : emitted_from c c.
Proof.
  split; [|split].
  - exists []. rewrite app_nil_r. split; [|split; [easy | constructor]].
    induction c as [|[k v] c IH]; [reflexivity|].
    cbn [map fst filter has]. rewrite String.eqb_refl. cbn [orb]. f_equal.
    rewrite IH at 1. apply filter_ext_in. intros a I.
    apply has_In in I. rewrite I. now rewrite orb_true_r.
  - auto.
  - auto.
Qed.

Lemma set_not_deleted (k : string) : In k set_keys -> ~ In k deleted_keys.
Proof.
  unfold set_keys, deleted_keys. simpl.
  intros [<-|[<-|[<-|[<-|[<-|[]]]]]] [H|[H|[]]]; discriminate.
Qed.

Lemma emitted_set (source o : obj) (k : string) (v : val) :
  In k set_keys -> emitted_from source o -> emitted_from source (set k v o).
Proof.
  intros K [[added [E [I F]]] [Kept Same]].
  assert (NS : has k o = false -> has k source = false).
  { intros H. destruct (has k source) eqn:S; [|reflexivity].
    destruct (Kept k S) as [D|D]; [|congruence].
    now apply set_not_deleted in D. }
  split; [|split].
  - rewrite keys_set. destruct (has k o) eqn:H.
    + exists added. split; [|auto]. rewrite E. f_equal.
      apply filter_ext. intros a. rewrite has_set.
      destruct (String.eqb a k) eqn:A; [|reflexivity].
      apply String.eqb_eq in A. subst a. now rewrite H.
    + exists (added ++ [k])%list. split; [|split].
      * rewrite E, <- app_assoc. f_equal. apply filter_ext_in.
        intros a A. rewrite has_set.
        destruct (String.eqb a k) eqn:A'; [|reflexivity].
        apply String.eqb_eq in A'. subst a.
        apply has_In in A. rewrite (NS eq_refl) in A. discriminate.
      * intros a A. apply in_app_or in A. destruct A as [A|[<-|[]]]; auto.
      * apply Forall_app. split; [exact F|]. constructor; auto.
  - intros a A. destruct (Kept a A) as [D|D]; [now left | right].
    rewrite has_set, D. apply orb_true_r.
  - intros a N. rewrite <- (Same a N). apply get_set_other.
    apply String.eqb_neq. intros ->. apply N. apply in_or_app. now right.
Qed.

Lemma filter_filter {A : Type} (p q : A -> bool) (l : list A) :
  filter p (filter q l) = filter (fun x => p x && q x) l.
Proof.
  induction l as [|x l IH]; simpl; [reflexivity|].
  destruct (q x); simpl; rewrite ?andb_true_r, ?andb_false_r;
    [destruct (p x)|]; now rewrite IH.
Qed.

Lemma emitted_del (source o : obj) (k : string) :
  In k deleted_keys -> emitted_from source o -> emitted_from source (del k o).
Proof.
  intros K [[added [E [I F]]] [Kept Same]].
  split; [|split].
  - exists (filter (fun k' => negb (String.eqb k k')) added).
    split; [|split].
    + rewrite keys_del, E, filter_app, filter_filter. f_equal.
      apply filter_ext. intros a. now rewrite has_del_any.
    + intros a A. apply filter_In in A. now apply I.
    + apply Forall_forall. intros a A. apply filter_In in A.
      rewrite Forall_forall in F. now apply F.
  - intros a A. destruct (Kept a A) as [D|D]; [now left|].
    destruct (String.eqb k a) eqn:Ka.
    + apply String.eqb_eq in Ka. subst a. now left.
    + right. now rewrite has_del_any, Ka, D.
  - intros a N. rewrite <- (Same a N). apply get_del_other.
    apply String.eqb_neq. intros ->. apply N. apply in_or_app. now left.
Qed.

(** [attachBounds] and [finishColumn] are made of such steps *)
Lemma attachBounds_steps (P : obj -> Prop) (c c' : obj) :
  (forall k v o, In k ["minValue"; "maxValue"] -> P o -> P (set k v o)) ->
  P c -> Lua.attachBounds c = Ok c' -> P c'.
Proof.
  intros S Pc. unfold Lua.attachBounds. cbv zeta.
  destruct (loose_eq (get "type" c) (VStr "integer")).
  - match goal with |- bind ?m _ = _ -> _ => destruct m as [a|] eqn:M end;
      cbn [bind]; [|discriminate].
    assert (Pa : P a).
    { revert M. destruct_matches; try discriminate; intros [= <-];
        repeat apply S; simpl; auto. }
    destruct_matches; try discriminate; intros [= <-];
      repeat apply S; simpl; auto.
  - destruct_matches; try discriminate; intros [= <-];
      repeat apply S; simpl; auto.
Qed.

Lemma finishColumn_steps (P : obj -> Prop) (prefix : string) (c c' : obj)
    (cv : string) :
  (forall v o, P o -> P (set "_objectType" v o)) ->
  (forall k o, In k deleted_keys -> P o -> P (del k o)) ->
  P c -> Lua.finishColumn prefix c = Ok (c', cv) -> P c'.
Proof.
  intros S D Pc. unfold Lua.finishColumn, bind. cbv zeta.
  destruct_matches; try discriminate; intros [= <- _];
    repeat (apply S || apply D); simpl; auto.
Qed.

(** *** The databases during a run *)

Lemma find_tracks {A B : Type} (R : A -> B -> Prop) (p : A -> bool)
    (q : B -> bool) (l : list A) (l' : list B) :
  Forall2 R l l' ->
  (forall x y, R x y -> p x = q y) ->
  match find p l, find q l' with
  | Some x, Some y => R x y
  | None, None => True
  | _, _ => False
  end.
Proof.
  intros F E. induction F as [|x y l l' Rxy F IH]; simpl; [exact I|].
  rewrite (E x y Rxy). destruct (q y); auto.
Qed.

Lemma fkTarget_tracks (core inst : option Database) (st : Lua.state)
    (type : string) (c s : obj) :
  tracks core inst st ->
  Lua.fkTarget (Lua.coreDatabase st) (Lua.instDatabase st) type c = Ok s ->
  exists c', Lua.fkTarget core inst type c = Ok c' /\ column_tracks c' s.
Proof.
  intros [TC TI]. unfold Lua.fkTarget.
  destruct (as_string (get "column" c)) as [path|]; [|discriminate].
  cbv zeta.
  destruct (if Nat.eqb (List.length (split_dot path)) 3
            then (Lua.item (split_dot path) 0, Lua.item (split_dot path) 1,
                  Lua.item (split_dot path) 2)
            else (VUndef, Lua.item (split_dot path) 0,
                  Lua.item (split_dot path) 1))
    as [[fkDatabase fkTable] fkColName].
  assert (D : forall d d',
             database_tracks d d' ->
             match d' with
             | None => Throw TypeError
             | Some db =>
                 match find (fun t => loose_eq (VStr (tbl_name t)) fkTable)
                         (tables db) with
                 | None => Throw TypeError
                 | Some t =>
                     match find (fun col => loose_eq (get "name" col) fkColName)
                             (columns t) with
                     | None => Throw ReferenceError
                     | Some fkCol => Ok fkCol
                     end
                 end
             end = Ok s ->
             exists c',
               match d with
               | None => Throw TypeError
               | Some db =>
                   match find (fun t => loose_eq (VStr (tbl_name t)) fkTable)
                           (tables db) with
                   | None => Throw TypeError
                   | Some t =>
                       match find (fun col => loose_eq (get "name" col) fkColName)
                               (columns t) with
                       | None => Throw ReferenceError
                       | Some fkCol => Ok fkCol
                       end
                   end
               end = Ok c' /\ column_tracks c' s).
  { intros [d|] [d'|]; simpl; try contradiction; try discriminate.
    intros [_ FT].
    pose proof (find_tracks table_tracks
                  (fun t => loose_eq (VStr (tbl_name t)) fkTable)
                  (fun t => loose_eq (VStr (tbl_name t)) fkTable)
                  _ _ FT) as X.
    destruct (find _ (tables d)) as [t|]; destruct (find _ (tables d')) as [t'|];
      try discriminate;
      try (exfalso; apply X; intros x y [N _]; now rewrite N).
    assert (T : table_tracks t t')
      by (apply X; intros x y [N _]; now rewrite N).
    destruct T as [_ FC].
    pose proof (find_tracks column_tracks
                  (fun col => loose_eq (get "name" col) fkColName)
                  (fun col => loose_eq (get "name" col) fkColName)
                  _ _ FC) as Y.
    destruct (find _ (columns t)) as [x|]; destruct (find _ (columns t')) as [x'|];
      try discriminate;
      try (exfalso; apply Y; intros a b [_ [_ N]]; now rewrite N).
    intros [= <-]. exists x. split; [reflexivity|].
    apply Y. intros a b [_ [_ N]]. now rewrite N. }
  destruct fkDatabase.
  - cbn [bind]. apply D. now destruct (String.eqb type "core").
  - destruct core as [d|], (Lua.coreDatabase st) as [d'|]; simpl in TC;
      try contradiction; try discriminate.
    cbn [bind]. destruct TC as [N FT]. rewrite N.
    apply D. destruct (loose_eq _ _); [simpl; auto | exact TI].
  - destruct core as [d|], (Lua.coreDatabase st) as [d'|]; simpl in TC;
      try contradiction; try discriminate.
    cbn [bind]. destruct TC as [N FT]. rewrite N.
    apply D. destruct (loose_eq _ _); [simpl; auto | exact TI].
  - destruct core as [d|], (Lua.coreDatabase st) as [d'|]; simpl in TC;
      try contradiction; try discriminate.
    cbn [bind]. destruct TC as [N FT]. rewrite N.
    apply D. destruct (loose_eq _ _); [simpl; auto | exact TI].
  - destruct core as [d|], (Lua.coreDatabase st) as [d'|]; simpl in TC;
      try contradiction; try discriminate.
    cbn [bind]. destruct TC as [N FT]. rewrite N.
    apply D. destruct (loose_eq _ _); [simpl; auto | exact TI].
Qed.

Lemma Forall2_set_nth {A B : Type} (R : A -> B -> Prop) (f : B -> B)
    (l : list A) (l' : list B) :
  Forall2 R l l' ->
  forall n x,
    nth_error l n = Some x ->
    (forall y, nth_error l' n = Some y -> R x (f y)) ->
    Forall2 R l (Lua.set_nth n f l').
Proof.
  induction 1 as [|a b l l' Rab F IH]; intros [|n] x; simpl;
    try discriminate.
  - intros [= ->] H. constructor; auto.
  - intros N H. constructor; eauto.
Qed.

Lemma Forall2_nth {A B : Type} (R : A -> B -> Prop) (l : list A)
    (l' : list B) :
  Forall2 R l l' ->
  forall n x, nth_error l n = Some x ->
  exists y, nth_error l' n = Some y /\ R x y.
Proof.
  induction 1 as [|a b l l' Rab F IH]; intros [|n] x; simpl;
    try discriminate; eauto.
  intros [= ->]. eauto.
Qed.

(** Storing what a column was made into keeps the databases in step with
    their declarations *)
Lemma database_tracks_store (d s : option Database) (j k : nat)
    (c column : obj) :
  database_tracks d s ->
  column_at d j k = Some c ->
  column_tracks c column ->
  database_tracks d (option_map (Lua.store_column j k column) s).
Proof.
  destruct d as [d|], s as [s|]; simpl; try contradiction; try discriminate.
  intros [N FT] At T. split; [exact N|].
  destruct (nth_error (tables d) j) as [t|] eqn:Nt; [|discriminate].
  apply (Forall2_set_nth _ _ _ _ FT j t Nt).
  intros t' Nt'. destruct (Forall2_nth _ _ _ FT j t Nt) as [t'' [E [Nm FC]]].
  rewrite Nt' in E. injection E as <-.
  split; [exact Nm|]. cbn [columns].
  apply (Forall2_set_nth _ _ _ _ FC k c At). intros _ _. exact T.
Qed.

Lemma tracks_update (core inst : option Database) (type : string)
    (j k : nat) (c column : obj) (st : Lua.state) :
  tracks core inst st ->
  column_at (if String.eqb type "core" then core else inst) j k = Some c ->
  column_tracks c column ->
  tracks core inst (Lua.update_column type j k column st).
Proof.
  intros [TC TI] At T. unfold Lua.update_column, tracks.
  destruct (String.eqb type "core"); cbn [Lua.coreDatabase Lua.instDatabase];
    split; auto; eapply database_tracks_store; eauto.
Qed.

Lemma tracks_emit (core inst : option Database) (text : string)
    (st : Lua.state) :
  tracks core inst st -> tracks core inst (Lua.emit text st).
Proof. auto. Qed.

(** The name and the nullability of the column are kept by the bounds
    step and the last step of [writeColumn] *)
Lemma attachBounds_get (k : string) (c c' : obj) :
  String.eqb k "minValue" = false -> String.eqb k "maxValue" = false ->
  Lua.attachBounds c = Ok c' -> get k c' = get k c.
Proof.
  intros N1 N2 H.
  apply (attachBounds_steps (fun o => get k o = get k c) c c'); auto.
  intros k' v o [<-|[<-|[]]] E; now rewrite get_set_other.
Qed.

Lemma finishColumn_get (k prefix : string) (c c' : obj) (cv : string) :
  ~ In k deleted_keys -> String.eqb k "_objectType" = false ->
  Lua.finishColumn prefix c = Ok (c', cv) -> get k c' = get k c.
Proof.
  intros N1 N2 H.
  apply (finishColumn_steps (fun o => get k o = get k c) prefix c c' cv); auto.
  - intros v o E. now rewrite get_set_other.
  - intros k' o I E. rewrite get_del_other; auto.
    apply String.eqb_neq. intros ->. contradiction.
Qed.

Lemma finishColumn_type (prefix : string) (c c' : obj) (cv : string) :
  Lua.finishColumn prefix c = Ok (c', cv) ->
  get "_objectType" c' = VStr "column".
Proof.
  unfold Lua.finishColumn, bind. cbv zeta.
  destruct_matches; try discriminate; intros [= <- _]; obj_simpl; reflexivity.
Qed.

(** [codeValuesLua] is the text of the column's values, or empty *)
Lemma finishColumn_values (prefix : string) (c c' : obj) (cv : string) :
  Lua.finishColumn prefix c = Ok (c', cv) ->
  lua_code_values (prefix ++ "." ++ to_string (get "name" c)) c cv.
Proof.
  unfold Lua.finishColumn, lua_code_values. cbv zeta. obj_simpl.
  destruct (loose_eq (get "type" c) (VStr "code") && truthy (get "values" c)).
  - destruct (get "values" c) as [p|l|o]; try discriminate.
    destruct (Lua.codeValues _ l) as [text|] eqn:V; cbn [bind];
      [|discriminate].
    intros [= _ <-]. now exists l.
  - now intros [= _ <-].
Qed.

Lemma luaCode_update_column (type : string) (j k : nat) (c : obj)
    (st : Lua.state) :
  Lua.luaCode (Lua.update_column type j k c st) = Lua.luaCode st.
Proof. unfold Lua.update_column. now destruct (String.eqb type "core"). Qed.

Lemma attachBounds_emitted (source c c' : obj) :
  emitted_from source c -> Lua.attachBounds c = Ok c' ->
  emitted_from source c'.
Proof.
  apply attachBounds_steps. intros k v o I. apply emitted_set.
  unfold set_keys. simpl in *. tauto.
Qed.

Lemma finishColumn_emitted (source : obj) (prefix : string) (c c' : obj)
    (cv : string) :
  emitted_from source c -> Lua.finishColumn prefix c = Ok (c', cv) ->
  emitted_from source c'.
Proof.
  apply finishColumn_steps.
  - intros v o. apply emitted_set. unfold set_keys. simpl. tauto.
  - intros k o. apply emitted_del.
Qed.

Lemma attachBounds_wf (c c' : obj) :
  wf_obj c -> Lua.attachBounds c = Ok c' -> wf_obj c'.
Proof. apply attachBounds_steps. intros k v o _. apply wf_set. Qed.

Lemma finishColumn_wf (prefix : string) (c c' : obj) (cv : string) :
  wf_obj c -> Lua.finishColumn prefix c = Ok (c', cv) -> wf_obj c'.
Proof.
  apply finishColumn_steps.
  - intros v o. apply wf_set.
  - intros k o _. apply wf_del.
Qed.

Section Columns.

Variables core inst : option Database.

(** What [writeColumn] appends, and what it leaves in the databases *)
Lemma writeColumn_part (type : string) (j : nat) (t : Table)
    (st : Lua.state) (k : nat) (c : obj) (st' : Lua.state) :
  column_at (if String.eqb type "core" then core else inst) j k = Some c ->
  wf_obj c ->
  tracks core inst st ->
  Lua.writeColumn type j t st (k, c) = Ok st' ->
  tracks core inst st'
  /\ exists part,
       lua_column_part core inst type
         ("Schema." ++ type ++ "." ++ tbl_name t) c part
       /\ Lua.luaCode st' = Lua.luaCode st ++ part.
Proof.
  intros At W T. unfold Lua.writeColumn. cbv zeta.
  destruct (loose_eq (get "type" c) (VStr "FK")) eqn:FK.
  - unfold Lua.resolveFK at 1.
    destruct (Lua.fkTarget _ _ type c) as [s|] eqn:FT; cbn [bind];
      [|discriminate].
    destruct (fkTarget_tracks _ _ _ _ _ _ T FT) as [c' [FT' [Ws [Es Ns]]]].
    rewrite (assign_empty_wf s Ws). unfold assign. cbn [fold_left fst snd].
    set (c0 := del "values"
                 (set "nullable" (get "nullable" c)
                    (set "name" (get "name" c) s))).
    destruct (Lua.attachBounds c0) as [c1|] eqn:B; cbn [bind]; [|discriminate].
    destruct (Lua.finishColumn _ c1) as [[c2 cv]|] eqn:F; cbn [bind];
      [|discriminate].
    destruct (Lua.objectToLua c2) as [lua|] eqn:O; cbn [bind]; [|discriminate].
    intros [= <-]. split; [now apply tracks_emit|].
    destruct (lua_properties_in_order _ _ O) as [body [-> P]].
    assert (G : forall key,
               ~ In key deleted_keys ->
               String.eqb key "_objectType" = false ->
               String.eqb key "minValue" = false ->
               String.eqb key "maxValue" = false ->
               get key c2 = get key c0).
    { intros key N1 N2 N3 N4.
      rewrite (finishColumn_get key _ _ _ _ N1 N2 F).
      apply (attachBounds_get key _ _ N3 N4 B). }
    assert (Nm : get "name" c2 = get "name" c).
    { rewrite G; try reflexivity.
      - unfold c0. now obj_simpl.
      - unfold deleted_keys. simpl. intuition discriminate. }
    assert (Nl : get "nullable" c2 = get "nullable" c).
    { rewrite G; try reflexivity.
      - unfold c0. now obj_simpl.
      - unfold deleted_keys. simpl. intuition discriminate. }
    eexists. split.
    + exists c', c2, body, cv.
      split; [unfold lua_source; now rewrite FK|].
      split.
      { eapply (finishColumn_emitted c'); [|exact F].
        apply (attachBounds_emitted c' c0 c1); [|exact B].
        unfold c0. apply emitted_del; [unfold deleted_keys; simpl; tauto|].
        apply emitted_set; [unfold set_keys; simpl; tauto|].
        apply emitted_set; [unfold set_keys; simpl; tauto|].
        exact Es. }
      split; [exact Nm|]. split; [exact Nl|].
      split; [exact (finishColumn_type _ _ _ _ F)|].
      split; [exact P|].
      split; [|reflexivity].
      pose proof (finishColumn_values _ _ _ _ F) as V.
      unfold lua_code_values in *.
      rewrite (loose_eq_name _ "FK" "code") by
        (auto; vm_compute; reflexivity).
      cbn [andb].
      assert (V1 : get "values" c1 = VUndef).
      { rewrite (attachBounds_get "values" _ _ eq_refl eq_refl B).
        unfold c0. apply get_del_same. }
      rewrite V1 in V. cbn [truthy] in V. rewrite andb_false_r in V.
      exact V.
    + unfold Lua.emit. cbn [Lua.luaCode]. now rewrite Nm.
  - cbn [bind].
    destruct (Lua.attachBounds c) as [c1|] eqn:B; cbn [bind]; [|discriminate].
    destruct (Lua.finishColumn _ c1) as [[c2 cv]|] eqn:F; cbn [bind];
      [|discriminate].
    destruct (Lua.objectToLua c2) as [lua|] eqn:O; cbn [bind]; [|discriminate].
    intros [= <-].
    destruct (lua_properties_in_order _ _ O) as [body [-> P]].
    assert (G : forall key,
               ~ In key deleted_keys ->
               String.eqb key "_objectType" = false ->
               String.eqb key "minValue" = false ->
               String.eqb key "maxValue" = false ->
               get key c2 = get key c).
    { intros key N1 N2 N3 N4.
      rewrite (finishColumn_get key _ _ _ _ N1 N2 F).
      apply (attachBounds_get key _ _ N3 N4 B). }
    assert (ND : forall key, In key set_keys -> ~ In key deleted_keys)
      by exact set_not_deleted.
    assert (Nm : get "name" c2 = get "name" c).
    { apply G; try reflexivity. apply ND. unfold set_keys. simpl. tauto. }
    assert (Nl : get "nullable" c2 = get "nullable" c).
    { apply G; try reflexivity. apply ND. unfold set_keys. simpl. tauto. }
    assert (E : emitted_from c c2).
    { eapply (finishColumn_emitted c); [|exact F].
      apply (attachBounds_emitted c c c1); [|exact B].
      apply emitted_refl. }
    assert (W2 : wf_obj c2).
    { eapply finishColumn_wf; [|exact F].
      now apply (attachBounds_wf c c1). }
    split.
    + apply tracks_emit. apply (tracks_update _ _ _ _ _ c); auto.
      split; [exact W2|]. split; [exact E | exact Nm].
    + eexists. split.
      * exists c, c2, body, cv.
        split; [unfold lua_source; now rewrite FK|].
        split; [exact E|].
        split; [exact Nm|]. split; [exact Nl|].
        split; [exact (finishColumn_type _ _ _ _ F)|].
        split; [exact P|].
        split; [|reflexivity].
        pose proof (finishColumn_values _ _ _ _ F) as V.
        unfold lua_code_values in *.
        rewrite (attachBounds_get "type" _ _ eq_refl eq_refl B) in V.
        rewrite (attachBounds_get "values" _ _ eq_refl eq_refl B) in V.
        rewrite (attachBounds_get "name" _ _ eq_refl eq_refl B) in V.
        exact V.
      * unfold Lua.emit. cbn [Lua.luaCode].
        rewrite luaCode_update_column. now rewrite Nm.
Qed.

End Columns.

(** *** The order of the descriptor text *)

(** A loop over positions and elements that appends a part per element
    leaves the parts in order *)
Lemma foldM_emit_in_order {A : Type}
    (f : Lua.state -> nat * A -> result Lua.state)
    (P : A -> string -> Prop) (I : Lua.state -> Prop) (l0 : list A) :
  (forall st k x st',
      nth_error l0 k = Some x -> I st -> f st (k, x) = Ok st' ->
      I st'
      /\ exists part, P x part /\ Lua.luaCode st' = Lua.luaCode st ++ part) ->
  forall l i st st',
    (forall n x, nth_error l n = Some x -> nth_error l0 (i + n) = Some x) ->
    I st ->
    foldM f st (combine (seq i (List.length l)) l) = Ok st' ->
    I st'
    /\ exists text,
         in_order P l text /\ Lua.luaCode st' = Lua.luaCode st ++ text.
Proof.
  intros Hf. induction l as [|x l IH]; intros i st st' N Ist;
    cbn [List.length seq combine foldM].
  - intros [= <-]. split; [exact Ist|]. exists "".
    split; [|now rewrite append_empty].
    exists []. split; [constructor | reflexivity].
  - destruct (f st (i, x)) as [st1|] eqn:F; cbn [bind]; [|discriminate].
    intros H.
    assert (N0 : nth_error l0 i = Some x).
    { rewrite <- (Nat.add_0_r i). now apply N. }
    destruct (Hf _ _ _ _ N0 Ist F) as [I1 [part [Pp E1]]].
    assert (N1 : forall n y, nth_error l n = Some y ->
                             nth_error l0 (S i + n) = Some y).
    { intros n y E. rewrite Nat.add_succ_comm. now apply N. }
    destruct (IH _ _ _ N1 I1 H) as [I2 [text [[parts [F2 ->]] E2]]].
    split; [exact I2|].
    exists (part ++ flatten parts). split.
    + exists (part :: parts). split; [now constructor | reflexivity].
    + now rewrite E2, E1, append_assoc.
Qed.

Section Tables.

Variables core inst : option Database.

(** What [writeTable] appends *)
Lemma writeTable_part (type : string) (db : Database) (st : Lua.state)
    (j : nat) (t : Table) (st' : Lua.state) :
  (if String.eqb type "core" then core else inst) = Some db ->
  nth_error (tables db) j = Some t ->
  Forall wf_obj (columns t) ->
  tracks core inst st ->
  Lua.writeTable type st (j, t) = Ok st' ->
  tracks core inst st'
  /\ exists part,
       lua_table_part core inst type t part
       /\ Lua.luaCode st' = Lua.luaCode st ++ part.
Proof.
  intros Db Nt W T. unfold Lua.writeTable. cbv zeta.
  destruct (foldM _ _ (Lua.indexed (columns t))) as [st1|] eqn:F;
    cbn [bind]; [|discriminate].
  intros [= <-].
  assert (Step : forall st k c st',
             nth_error (columns t) k = Some c ->
             tracks core inst st ->
             Lua.writeColumn type j t st (k, c) = Ok st' ->
             tracks core inst st'
             /\ exists part,
                  lua_column_part core inst type
                    ("Schema." ++ type ++ "." ++ tbl_name t) c part
                  /\ Lua.luaCode st' = Lua.luaCode st ++ part).
  { intros s k c s' N. apply writeColumn_part.
    - rewrite Db. cbn [column_at]. now rewrite Nt.
    - rewrite Forall_forall in W. apply W. eapply nth_error_In; eauto. }
  destruct (foldM_emit_in_order _ _ _ (columns t) Step (columns t) 0%nat _ _
              (fun n x E => E) (tracks_emit _ _ _ _ T) F)
    as [T1 [body [O E]]].
  split; [now apply tracks_emit|].
  eexists. split.
  - exists body. split; [reflexivity | exact O].
  - unfold Lua.emit in *. cbn [Lua.luaCode] in *. rewrite E.
    now rewrite !append_assoc.
Qed.

(** What [writeDatabase] appends *)
Lemma writeDatabase_part (type : string) (db : option Database)
    (st st' : Lua.state) :
  (if String.eqb type "core" then core else inst) = db ->
  match db with Some db => wf_database db | None => True end ->
  tracks core inst st ->
  Lua.writeDatabase type db st = Ok st' ->
  tracks core inst st'
  /\ exists part,
       lua_database_part core inst type db part
       /\ Lua.luaCode st' = Lua.luaCode st ++ part.
Proof.
  intros Db W T. unfold Lua.writeDatabase. destruct db as [db|].
  - destruct (foldM _ _ (Lua.indexed (tables db))) as [st1|] eqn:F;
      cbn [bind]; [|discriminate].
    intros [= <-].
    assert (Step : forall st j t st',
               nth_error (tables db) j = Some t ->
               tracks core inst st ->
               Lua.writeTable type st (j, t) = Ok st' ->
               tracks core inst st'
               /\ exists part,
                    lua_table_part core inst type t part
                    /\ Lua.luaCode st' = Lua.luaCode st ++ part).
    { intros s j t s' N. apply (writeTable_part type db); auto.
      unfold wf_database in W. rewrite Forall_forall in W. apply W.
      eapply nth_error_In; eauto. }
    destruct (foldM_emit_in_order _ _ _ (tables db) Step (tables db) 0%nat _ _
                (fun n x E => E) T F)
      as [T1 [body [O E]]].
    split; [now apply tracks_emit|].
    eexists. split.
    + exists body. split; [reflexivity | exact O].
    + unfold Lua.emit. cbn [Lua.luaCode]. rewrite E. now rewrite append_assoc.
  - intros [= <-]. split; [exact T|]. exists "". split; [reflexivity|].
    now rewrite append_empty.
Qed.

End Tables.

Lemma database_tracks_refl (db : option Database) :
  match db with Some db => wf_database db | None => True end ->
  database_tracks db db.
Proof.
  destruct db as [db|]; simpl; [|auto]. intros W. split; [reflexivity|].
  unfold wf_database in W. induction W as [|t l Wt W IH]; constructor; auto.
  split; [reflexivity|].
  induction Wt as [|c r Wc Wt IH']; constructor; auto.
  split; [exact Wc|]. split; [apply emitted_refl | reflexivity].
Qed.

Lemma find_wf (p : Database -> bool) (databases : list Database) :
  Forall wf_database databases ->
  match find p databases with Some db => wf_database db | None => True end.
Proof.
  intros W. destruct (find p databases) as [db|] eqn:F; [|exact I].
  apply find_some in F. rewrite Forall_forall in W. now apply W.
Qed.

(** The descriptor text: the core database's part, then the instance
    database's, wherever the file declares them *)
Lemma lua_schema_in_order (databases : list Database) (text : string) :
  Forall wf_database databases ->
  Lua.compileSchema databases = Ok text ->
  let core := find (fun db => String.eqb (db_type db) "fixed") databases in
  let inst := find (fun db => String.eqb (db_type db) "instance") databases in
  exists corePart instPart,
    text
    = Lua.header
      ++ match core with Some core => Lua.coreOpen core | None => "" end
      ++ match inst with Some _ => Lua.instOpen | None => "" end
      ++ corePart ++ instPart ++ Lua.footer
    /\ lua_database_part core inst "core" core corePart
    /\ lua_database_part core inst "inst" inst instPart.
Proof.
  intros W. unfold Lua.compileSchema.
  destruct (throw_if _ SyntaxError); cbn [bind]; [|discriminate]. cbv zeta.
  set (core := find (fun db => String.eqb (db_type db) "fixed") databases).
  set (inst := find (fun db => String.eqb (db_type db) "instance") databases).
  pose proof (find_wf (fun db => String.eqb (db_type db) "fixed") _ W) as Wc.
  pose proof (find_wf (fun db => String.eqb (db_type db) "instance") _ W)
    as Wi.
  fold core in Wc. fold inst in Wi.
  match goal with |- bind (Lua.writeDatabase _ _ ?s) _ = _ -> _ =>
    set (st0 := s) end.
  assert (T0 : tracks core inst st0).
  { unfold st0, tracks.
    destruct core, inst; cbn [Lua.emit Lua.coreDatabase Lua.instDatabase];
      split; now apply database_tracks_refl. }
  destruct (Lua.writeDatabase "core" core st0) as [st1|] eqn:W1;
    cbn [bind]; [|discriminate].
  destruct (writeDatabase_part core inst "core" core st0 st1 eq_refl Wc T0 W1)
    as [T1 [corePart [P1 E1]]].
  destruct (Lua.writeDatabase "inst" inst st1) as [st2|] eqn:W2;
    cbn [bind]; [|discriminate].
  destruct (writeDatabase_part core inst "inst" inst st1 st2 eq_refl Wi T1 W2)
    as [T2 [instPart [P2 E2]]].
  intros [= <-].
  exists corePart, instPart. split; [|split; assumption].
  rewrite E2, E1. unfold st0.
  destruct core; destruct inst; unfold Lua.emit; cbn [Lua.luaCode];
    rewrite ?append_assoc; reflexivity.
Qed.

(** C8, as the code has it. A run of either emitter that ends without
    an exception replaces its output file by the text it makes of the
    input, the SQL emitter by the SQL of the last database of the file,
    and leaves the rest of the directory as it was, so that running the
    emitter again on the same input leaves the same bytes and the same
    outcome. The SQL of a database is its tables' statements in
    declaration order, each with its column clauses in declaration order,
    then the clauses of its declared indexes, then the FOREIGN KEY clauses
    of its FK declarations. The descriptor text holds the core database's
    part and then the instance database's, whatever their order in the
    file; in each the tables are in declaration order, in each table the
    columns, and in each column object the properties of the declared
    column it is made from (for an FK declaration, the column it refers
    to) that the emitter keeps, in their order, followed by those the
    emitter adds. *)
Theorem regeneration_and_order :
  (forall f pre db d,
      snd (Sql.compileFile f (pre ++ [db]) d) = None ->
      exists dbSql,
        Sql.databaseSql (List.length pre, db) (pre ++ [db]) = Ok dbSql
        /\ fst (Sql.compileFile f (pre ++ [db]) d)
           = outputFileSync (f ++ ".sql") dbSql d
        /\ Sql.compileFile f (pre ++ [db])
             (fst (Sql.compileFile f (pre ++ [db]) d))
           = Sql.compileFile f (pre ++ [db]) d)
  /\ (forall minify f databases d,
        snd (Lua.compileFile minify f databases d) = None ->
        exists text luaCode,
          Lua.compileSchema databases = Ok text
          /\ minify text = Ok luaCode
          /\ fst (Lua.compileFile minify f databases d)
             = outputFileSync (f ++ ".lua") luaCode d
          /\ Lua.compileFile minify f databases
               (fst (Lua.compileFile minify f databases d))
             = Lua.compileFile minify f databases d)
  /\ (forall database databases dbSql,
        Sql.databaseSql database databases = Ok dbSql ->
        exists rest,
          dbSql = Sql.prologue (snd database) ++ rest
          /\ in_order (sql_table_part database databases)
               (tables (snd database)) rest)
  /\ (forall databases text,
        Forall wf_database databases ->
        Lua.compileSchema databases = Ok text ->
        let core :=
          find (fun db => String.eqb (db_type db) "fixed") databases in
        let inst :=
          find (fun db => String.eqb (db_type db) "instance") databases in
        exists corePart instPart,
          text
          = Lua.header
            ++ match core with Some core => Lua.coreOpen core | None => "" end
            ++ match inst with Some _ => Lua.instOpen | None => "" end
            ++ corePart ++ instPart ++ Lua.footer
          /\ lua_database_part core inst "core" core corePart
          /\ lua_database_part core inst "inst" inst instPart).
Proof.
  split; [exact sql_regeneration|].
  split; [exact lua_regeneration|].
  split; [exact sql_database_in_order | exact lua_schema_in_order].
Qed.

Ltac wf_schema :=
  unfold wf_database, wf_obj; repeat constructor; simpl; intuition discriminate.

Lemma regeneration_and_order_witness :
  (exists dbSql,
      Sql.databaseSql (1%nat, tenant) [shop; tenant] = Ok dbSql
      /\ fst (Sql.compileFile "shop" [shop; tenant] [("shop.sql", "")])
         = [("shop.sql", dbSql)])
  /\ (exists dbSql rest,
        Sql.databaseSql (0%nat, shop) [shop; tenant] = Ok dbSql
        /\ dbSql = Sql.prologue shop ++ rest
        /\ in_order (sql_table_part (0%nat, shop) [shop; tenant])
             (tables shop) rest)
  /\ (exists text corePart instPart,
        Lua.compileSchema [tenant; shop] = Ok text
        /\ text = Lua.header ++ Lua.coreOpen shop ++ Lua.instOpen
                  ++ corePart ++ instPart ++ Lua.footer
        /\ lua_database_part (Some shop) (Some tenant) "core" (Some shop)
             corePart
        /\ lua_database_part (Some shop) (Some tenant) "inst" (Some tenant)
             instPart).
Proof.
  destruct regeneration_and_order as [R [_ [S L]]]. split; [|split].
  - destruct (R "shop" [shop] tenant [("shop.sql", "")] eq_refl)
      as [dbSql [E [W _]]].
    exists dbSql. split; [exact E | exact W].
  - assert (E : exists s, Sql.databaseSql (0%nat, shop) [shop; tenant] = Ok s)
      by (eexists; reflexivity).
    destruct E as [dbSql E]. destruct (S _ _ _ E) as [rest [E1 O]].
    now exists dbSql, rest.
  - assert (E : exists s, Lua.compileSchema [tenant; shop] = Ok s)
      by (eexists; reflexivity).
    destruct E as [text E].
    assert (W : Forall wf_database [tenant; shop]) by wf_schema.
    destruct (L _ _ W E) as [c [i [E1 [O1 O2]]]].
    now exists text, c, i.
Defined.

(** C8 as stated fails on the order of the databases and on the
    properties of an FK declaration. A file that declares its instance
    database first compiles to the very text of the file that declares it
    second, and in that text the core database's table comes before the
    instance database's, which was declared first. The object of an FK
    declaration has the properties of the column it refers to, in the
    order of that column, and not those of the declaration. *)
Lemma declaration_order_counterexample :
  (exists text i j,
      Lua.compileSchema [tenant; shop] = Ok text
      /\ Lua.compileSchema [shop; tenant] = Ok text
      /\ index 0 "Schema.core.users = {}" text = Some i
      /\ index 0 "Schema.inst.visits = {}" text = Some j
      /\ (i < j)%nat)
  /\ map fst orders_customer
     = ["name"; "type"; "column"; "nullable"; "defaultValue"; "ondelete"]
  /\ (exists column,
        Lua.resolveFK (Lua.mkState (Some shop_orders) None "") "core"
          orders_customer = Ok column
        /\ map fst column = ["name"; "type"; "size"; "nullable"]).
Proof.
  split; [|split].
  - eexists. eexists. eexists.
    split; [vm_compute; reflexivity|].
    split; [vm_compute; reflexivity|].
    split; [vm_compute; reflexivity|].
    split; [vm_compute; reflexivity|].
    vm_compute. repeat constructor.
  - reflexivity.
  - eexists. split; vm_compute; reflexivity.
Qed.

(** * Further properties of the code *)

(** ** The input directory *)

Lemma take_drop (n : nat) (s : string) : take n s ++ drop n s = s.
Proof.
  revert s; induction n as [|n IH]; intros [|c r]; simpl; try reflexivity.
  now rewrite IH.
Qed.

Lemma take_app_length (a b : string) : take (String.length a) (a ++ b) = a.
Proof. induction a as [|c a IH]; simpl; [now destruct b | now rewrite IH]. Qed.

Lemma drop_app_length (a b : string) : drop (String.length a) (a ++ b) = b.
Proof. induction a as [|c a IH]; simpl; [reflexivity | exact IH]. Qed.

Lemma length_append (a b : string) :
  String.length (a ++ b) = (String.length a + String.length b)%nat.
Proof. induction a as [|c a IH]; simpl; [reflexivity | now rewrite IH]. Qed.

Lemma is_json_file_append (n : string) : is_json_file (n ++ ".json") = true.
Proof.
  unfold is_json_file. rewrite length_append. simpl String.length.
  replace (String.length n + 5 - 5)%nat with (String.length n) by lia.
  now rewrite drop_app_length.
Qed.

Lemma slice_end_append (n : string) : slice_end 5 (n ++ ".json") = n.
Proof.
  unfold slice_end. rewrite length_append. simpl String.length.
  replace (String.length n + 5 - 5)%nat with (String.length n) by lia.
  apply take_app_length.
Qed.

Lemma slice_end_json (f : string) :
  is_json_file f = true -> slice_end 5 f ++ ".json" = f.
Proof.
  unfold is_json_file, slice_end. intros H. apply String.eqb_eq in H.
  rewrite <- H. apply take_drop.
Qed.

(** X1. The schema names taken from a directory, each with [.json] put
    back, are the directory's files that end in [.json], in their order;
    and a directory of the files [n.json] gives back the names [n]. *)
Theorem schema_names_round_trip (files names : list string) :
  map (fun f => f ++ ".json") (schemaNames files) = filter is_json_file files
  /\ schemaNames (map (fun n => n ++ ".json") names) = names.
Proof.
  split.
  - unfold schemaNames. induction files as [|f files IH]; [reflexivity|].
    simpl. destruct (is_json_file f) eqn:J; [|exact IH].
    simpl. now rewrite IH, slice_end_json.
  - unfold schemaNames. induction names as [|n names IH]; [reflexivity|].
    simpl. rewrite is_json_file_append. simpl.
    now rewrite slice_end_append, IH.
Qed.

(** ** The files the SQL emitter writes *)

Lemma readFile_written (path data : string) (d : disk) :
  readFile path (outputFileSync path data d) = Some data.
Proof.
  induction d as [|[p c] d IH]; simpl.
  - now rewrite String.eqb_refl.
  - destruct (String.eqb p path) eqn:E; simpl; rewrite E; auto.
Qed.

Lemma readFile_other (path other data : string) (d : disk) :
  other <> path ->
  readFile other (outputFileSync path data d) = readFile other d.
Proof.
  intros N. induction d as [|[p c] d IH]; simpl.
  - destruct (String.eqb path other) eqn:E; [|reflexivity].
    apply String.eqb_eq in E. congruence.
  - destruct (String.eqb p path) eqn:E; simpl.
    + apply String.eqb_eq in E. subst p.
      destruct (String.eqb path other) eqn:E'; [|reflexivity].
      apply String.eqb_eq in E'. congruence.
    + now rewrite IH.
Qed.

(** X2. The SQL emitter, on the input file [f], leaves every file of the
    output directory but [f.sql] as it was, whether it fails or not. *)
Theorem sql_writes_only_its_file (f : string) (databases : list Database)
    (d : disk) (other : string) :
  other <> f ++ ".sql" ->
  readFile other (fst (Sql.compileFile f databases d)) = readFile other d.
Proof.
  intros N. unfold Sql.compileFile. rewrite compileDatabases_written. simpl.
  destruct (fst (written_last databases 0 databases)); [|reflexivity].
  now apply readFile_other.
Qed.

Lemma sql_writes_only_its_file_witness :
  readFile "shop.lua"
    (fst (Sql.compileFile "shop" [shop; tenant] [("shop.lua", "return {}")]))
  = readFile "shop.lua" [("shop.lua", "return {}")].
Proof. apply sql_writes_only_its_file. discriminate. Defined.

(** X3. When the SQL emitter compiles a file without an exception, the
    file [f.sql] holds the SQL of the last database of the file, and of that
    one only: each database is written to the same path. *)
Theorem sql_last_database_wins (f : string) (pre : list Database)
    (db : Database) (d : disk) :
  snd (Sql.compileFile f (pre ++ [db]) d) = None ->
  exists dbSql,
    Sql.databaseSql (List.length pre, db) (pre ++ [db]) = Ok dbSql
    /\ readFile (f ++ ".sql") (fst (Sql.compileFile f (pre ++ [db]) d))
       = Some dbSql.
Proof.
  unfold Sql.compileFile. rewrite compileDatabases_app.
  destruct (Sql.compileDatabases f (pre ++ [db]) 0 pre d) as [d' [e|]];
    [discriminate|].
  simpl.
  destruct (Sql.databaseSql (List.length pre, db) (pre ++ [db])) as [dbSql|e];
    [|discriminate].
  simpl. intros _. exists dbSql. split; [reflexivity|].
  apply readFile_written.
Qed.

Lemma sql_last_database_wins_witness :
  exists dbSql,
    Sql.databaseSql (1%nat, tenant) [shop; tenant] = Ok dbSql
    /\ readFile "shop.sql" (fst (Sql.compileFile "shop" [shop; tenant] []))
       = Some dbSql.
Proof.
  apply (sql_last_database_wins "shop" [shop] tenant []).
  vm_compute. reflexivity.
Defined.

Lemma compile_app (pre post : list (string * list Database)) :
  forall d : disk,
    Sql.compile (pre ++ post) d
    = match Sql.compile pre d with
      | (d', None) => Sql.compile post d'
      | (d', Some e) => (d', Some e)
      end.
Proof.
  induction pre as [|[f databases] pre IH]; intros d; simpl; [reflexivity|].
  destruct (Sql.compileFile f databases d) as [d' [e|]]; auto.
Qed.

(** X4. The first input file on which the SQL emitter throws ends the
    batch: the files after it are not compiled, whatever they hold, and the
    output directory is as the files before it, and the databases of the
    failing file before the failing one, left it. *)
Theorem sql_batch_stops_at_first_failure
    (pre post : list (string * list Database)) (f : string)
    (databases : list Database) (d : disk) (e : error) :
  snd (Sql.compile pre d) = None ->
  snd (Sql.compileFile f databases (fst (Sql.compile pre d))) = Some e ->
  Sql.compile (pre ++ (f, databases) :: post) d
  = (fst (Sql.compileFile f databases (fst (Sql.compile pre d))), Some e).
Proof.
  intros P F. rewrite compile_app.
  destruct (Sql.compile pre d) as [d' [e'|]]; [discriminate|].
  simpl in *.
  destruct (Sql.compileFile f databases d') as [d'' [e'|]]; [|discriminate].
  simpl in *. congruence.
Qed.

Lemma sql_batch_stops_at_first_failure_witness :
  Sql.compile [("shop", [shop]); ("tenant", [tenant_misnamed]); ("bank", [bank])]
    []
  = (fst (Sql.compileFile "tenant" [tenant_misnamed]
            (fst (Sql.compile [("shop", [shop])] []))), Some Error).
Proof.
  apply (sql_batch_stops_at_first_failure [("shop", [shop])] [("bank", [bank])]);
    vm_compute; reflexivity.
Defined.

Lemma append_inj_l (a b c : string) : a ++ b = a ++ c -> b = c.
Proof.
  induction a as [|x a IH]; simpl; intros H; [exact H|].
  injection H. exact IH.
Qed.

Lemma sql_not_lua (f : string) : f ++ ".lua" <> f ++ ".sql".
Proof. intros H. apply append_inj_l in H. discriminate. Qed.

(** X5. The two emitters do not disturb each other: run on the same input
    file in either order, they leave the same content in every file of the
    output directory, and each ends as it does when run alone. *)
Theorem emitters_commute (minify : string -> result string) (f : string)
    (databases : list Database) (d : disk) :
  let sql := Sql.compileFile f databases in
  let lua := Lua.compileFile minify f databases in
  (forall path, readFile path (fst (sql (fst (lua d))))
                = readFile path (fst (lua (fst (sql d)))))
  /\ snd (sql (fst (lua d))) = snd (sql d)
  /\ snd (lua (fst (sql d))) = snd (lua d).
Proof.
  cbv zeta. unfold Sql.compileFile, Lua.compileFile.
  rewrite !compileDatabases_written. simpl.
  destruct (fst (written_last databases 0 databases)) as [dbSql|];
    destruct (luaCode <- Lua.compileSchema databases ;; minify luaCode)
      as [luaCode|e]; simpl; repeat split; auto.
  intros path.
  destruct (string_dec path (f ++ ".sql")) as [S|S].
  - subst path. rewrite readFile_written.
    rewrite readFile_other
      by (intros H; symmetry in H; revert H; apply sql_not_lua).
    now rewrite readFile_written.
  - rewrite readFile_other by exact S.
    destruct (string_dec path (f ++ ".lua")) as [L|L].
    + subst path. now rewrite !readFile_written.
    + rewrite !readFile_other by assumption. reflexivity.
Qed.

(** ** Columns in the SQL emitter *)




(** X7. A binary column that is accepted is rendered with a fixed width
    exactly when its minimum size is its maximum size, a minimum that is
    not declared counting as 0; a declared minimum is between 1 and the
    maximum. *)
Theorem binary_column_width (col : obj) (clause : string) :
  Sql.processBinaryColumn col = Ok clause ->
  exists maxSize rest,
    as_safe_integer (get "maxSize" col) = Some maxSize
    /\ let minSize := match as_safe_integer (get "minSize" col) with
                      | Some m => m
                      | None => 0
                      end in
       clause = (if minSize =? maxSize then "BINARY(" else "VARBINARY(")
                ++ dec maxSize ++ ") " ++ rest
       /\ (defined (get "minSize" col) = true -> 1 <= minSize <= maxSize).
Proof.
  unfold Sql.processBinaryColumn. cbv zeta.
  destruct (as_safe_integer (get "maxSize" col)) as [maxSize|]; [|discriminate].
  destruct (defined (get "minSize" col)) eqn:D.
  - destruct (as_safe_integer (get "minSize" col)) as [minSize|];
      [|discriminate].
    destruct ((minSize <? 1) || (minSize >? maxSize)) eqn:R;
      cbn [throw_if bind]; [discriminate|].
    apply orb_false_iff in R as [R1 R2]. apply Z.ltb_ge in R1.
    rewrite Z.gtb_ltb in R2. apply Z.ltb_ge in R2.
    match goal with |- context [bind ?m _] => destruct m as [dv|] end;
      cbn [bind]; [|discriminate].
    intros [= <-]. exists maxSize.
    exists (Sql.null_clause (get "nullable" col) ++ " " ++ Sql.default_clause dv).
    split; [reflexivity|]. split.
    + destruct (minSize =? maxSize); reflexivity.
    + lia.
  - assert (as_safe_integer (get "minSize" col) = None) as ->
      by (destruct (get "minSize" col) as [[| | | |]| |]; try discriminate D;
          reflexivity).
    cbn [bind].
    match goal with |- context [bind ?m _] => destruct m as [dv|] end;
      cbn [bind]; [|discriminate].
    intros [= <-]. exists maxSize.
    exists (Sql.null_clause (get "nullable" col) ++ " " ++ Sql.default_clause dv).
    split; [reflexivity|]. split.
    + destruct maxSize; reflexivity.
    + discriminate.
Qed.

Lemma binary_column_width_witness :
  exists maxSize rest,
    as_safe_integer (get "maxSize" files_digest) = Some maxSize
    /\ let minSize := match as_safe_integer (get "minSize" files_digest) with
                      | Some m => m
                      | None => 0
                      end in
       "BINARY(32) NOT NULL "
       = (if minSize =? maxSize then "BINARY(" else "VARBINARY(")
         ++ dec maxSize ++ ") " ++ rest
       /\ (defined (get "minSize" files_digest) = true ->
           1 <= minSize <= maxSize).
Proof. apply binary_column_width. reflexivity. Defined.

Lemma findi_agrees {A : Type} (R : A -> A -> Prop) (p : A -> bool)
    (l l' : list A) :
  Forall2 R l l' ->
  (forall x y, R x y -> p y = p x) ->
  forall n,
    match findi p n l, findi p n l' with
    | Some (i, x), Some (j, y) => i = j /\ R x y
    | None, None => True
    | _, _ => False
    end.
Proof.
  intros F E. induction F as [|x y l l' Rxy F IH]; intros n; simpl; [exact I|].
  rewrite (E x y Rxy). destruct (p x); [now split | apply IH].
Qed.

(** The columns of a column clause that does not depend on other columns *)
Lemma plain_columns_agree (col col' : obj) :
  column_agrees col col' ->
  Sql.processIntegerColumn col' = Sql.processIntegerColumn col
  /\ Sql.processSerialColumn col' = Sql.processSerialColumn col
  /\ Sql.processTimestampColumn col' = Sql.processTimestampColumn col
  /\ Sql.processStringColumn col' = Sql.processStringColumn col
  /\ Sql.processBinaryColumn col' = Sql.processBinaryColumn col
  /\ Sql.processBooleanColumn col' = Sql.processBooleanColumn col
  /\ Sql.processCodeColumn col' = Sql.processCodeColumn col.
Proof.
  intros H.
  assert (K := fun k I => H k I). unfold sql_keys in K.
  pose proof (K "size" ltac:(simpl; tauto)) as K3.
  pose proof (K "unsigned" ltac:(simpl; tauto)) as K4.
  pose proof (K "minValue" ltac:(simpl; tauto)) as K5.
  pose proof (K "maxValue" ltac:(simpl; tauto)) as K6.
  pose proof (K "defaultValue" ltac:(simpl; tauto)) as K7.
  pose proof (K "nullable" ltac:(simpl; tauto)) as K8.
  pose proof (K "minLength" ltac:(simpl; tauto)) as K9.
  pose proof (K "maxLength" ltac:(simpl; tauto)) as K10.
  pose proof (K "minSize" ltac:(simpl; tauto)) as K11.
  pose proof (K "maxSize" ltac:(simpl; tauto)) as K12.
  pose proof (K "values" ltac:(simpl; tauto)) as K13.
  clear K H.
  unfold Sql.processIntegerColumn, Sql.processSerialColumn,
    Sql.processTimestampColumn, Sql.processStringColumn,
    Sql.processBinaryColumn, Sql.processBooleanColumn, Sql.processCodeColumn.
  rewrite K3, K4, K5, K6, K7, K8, K9, K10, K11, K12, K13.
  repeat split; reflexivity.
Qed.

(** The target of an FK declaration in two files that agree *)
Lemma resolveTarget_agrees (col col' : obj) (i : nat) (db db' : Database)
    (databases databases' : list Database) :
  column_agrees col col' ->
  database_agrees db db' ->
  Forall2 database_agrees databases databases' ->
  match Sql.resolveTarget col (i, db) databases,
        Sql.resolveTarget col' (i, db') databases' with
  | Ok t, Ok t' =>
      fst (Sql.targetDatabase t') = fst (Sql.targetDatabase t)
      /\ db_name (snd (Sql.targetDatabase t'))
         = db_name (snd (Sql.targetDatabase t))
      /\ tbl_name (Sql.targetTable t') = tbl_name (Sql.targetTable t)
      /\ column_agrees (Sql.targetCol t) (Sql.targetCol t')
  | Throw e, Throw e' => e = e'
  | _, _ => False
  end.
Proof.
  intros C D F. unfold Sql.resolveTarget.
  rewrite (C "column") by (unfold sql_keys; simpl; tauto).
  destruct (as_string (get "column" col)) as [path|]; [|reflexivity].
  cbv zeta.
  destruct (pop (split_dot path)) as [[targetCol|] parts1]; [|reflexivity].
  destruct targetCol as [|a targetCol]; [reflexivity|].
  destruct (pop parts1) as [[targetTable|] parts2]; [|reflexivity].
  destruct targetTable as [|b targetTable]; [reflexivity|].
  destruct (pop parts2) as [targetDatabase parts3].
  assert (T : forall (j : nat) (d d' : Database),
             database_agrees d d' ->
             match
               match find (fun t => String.eqb (tbl_name t) (String b targetTable))
                       (tables d) with
               | None => Throw ReferenceError
               | Some t =>
                   match find (fun c => strict_eq (get "name" c)
                                          (VStr (String a targetCol)))
                           (columns t) with
                   | None => Throw ReferenceError
                   | Some c =>
                       throw_if (truthy (get "nullable" c)) TypeError ;;;
                       Ok (Sql.mkTarget (j, d) t c)
                   end
               end,
               match find (fun t => String.eqb (tbl_name t) (String b targetTable))
                       (tables d') with
               | None => Throw ReferenceError
               | Some t =>
                   match find (fun c => strict_eq (get "name" c)
                                          (VStr (String a targetCol)))
                           (columns t) with
                   | None => Throw ReferenceError
                   | Some c =>
                       throw_if (truthy (get "nullable" c)) TypeError ;;;
                       Ok (Sql.mkTarget (j, d') t c)
                   end
               end
             with
             | Ok t, Ok t' =>
                 fst (Sql.targetDatabase t') = fst (Sql.targetDatabase t)
                 /\ db_name (snd (Sql.targetDatabase t'))
                    = db_name (snd (Sql.targetDatabase t))
                 /\ tbl_name (Sql.targetTable t') = tbl_name (Sql.targetTable t)
                 /\ column_agrees (Sql.targetCol t) (Sql.targetCol t')
             | Throw e, Throw e' => e = e'
             | _, _ => False
             end).
  { intros j d d' [N FT].
    pose proof (find_tracks table_agrees
                  (fun t => String.eqb (tbl_name t) (String b targetTable))
                  (fun t => String.eqb (tbl_name t) (String b targetTable))
                  _ _ FT) as X.
    assert (XE : forall x y, table_agrees x y ->
                   String.eqb (tbl_name x) (String b targetTable)
                   = String.eqb (tbl_name y) (String b targetTable))
      by (intros x y [E _]; now rewrite E).
    specialize (X XE).
    destruct (find _ (tables d)) as [t|]; destruct (find _ (tables d')) as [t'|];
      try contradiction; [|reflexivity].
    destruct X as [TN [_ [_ FC]]].
    pose proof (find_tracks column_agrees
                  (fun c => strict_eq (get "name" c) (VStr (String a targetCol)))
                  (fun c => strict_eq (get "name" c) (VStr (String a targetCol)))
                  _ _ FC) as Y.
    assert (YE : forall x y, column_agrees x y ->
                   strict_eq (get "name" x) (VStr (String a targetCol))
                   = strict_eq (get "name" y) (VStr (String a targetCol))).
    { intros x y E. now rewrite (E "name") by (unfold sql_keys; simpl; tauto). }
    specialize (Y YE).
    destruct (find _ (columns t)) as [c|]; destruct (find _ (columns t')) as [c'|];
      try contradiction; [|reflexivity].
    rewrite (Y "nullable") by (unfold sql_keys; simpl; tauto).
    destruct (truthy (get "nullable" c)); cbn [throw_if bind]; [reflexivity|].
    cbn [Sql.targetDatabase Sql.targetTable Sql.targetCol fst snd]. auto. }
  destruct targetDatabase as [dbname|]; cbn [bind].
  - pose proof (findi_agrees database_agrees
                  (fun d => String.eqb (db_name d) dbname) _ _ F) as X.
    assert (XE : forall x y, database_agrees x y ->
                   String.eqb (db_name y) dbname = String.eqb (db_name x) dbname)
      by (intros x y [E _]; now rewrite E).
    specialize (X XE 0%nat).
    destruct (findi _ 0 databases) as [[j d]|];
      destruct (findi _ 0 databases') as [[j' d']|];
      try contradiction; [|reflexivity].
    destruct X as [<- X]. cbn [bind]. now apply T.
  - now apply T.
Qed.

Lemma foldM_agrees {A S : Type} (R : A -> A -> Prop)
    (f f' : S -> A -> result S) (l l' : list A) :
  Forall2 R l l' ->
  (forall s x y, R x y -> f' s y = f s x) ->
  forall s, foldM f' s l' = foldM f s l.
Proof.
  intros F E. induction F as [|x y l l' Rxy F IH]; intros s; simpl;
    [reflexivity|].
  rewrite (E s x y Rxy). destruct (f s x); simpl; auto.
Qed.

Lemma processFKColumn_agrees (colName : string) (col col' : obj) (i : nat)
    (db db' : Database) (databases databases' : list Database)
    (idxes : list string) :
  column_agrees col col' ->
  database_agrees db db' ->
  Forall2 database_agrees databases databases' ->
  Sql.processFKColumn colName col' (i, db') databases' idxes
  = Sql.processFKColumn colName col (i, db) databases idxes.
Proof.
  intros C D F. unfold Sql.processFKColumn.
  pose proof (resolveTarget_agrees col col' i db db' databases databases'
                C D F) as R.
  destruct (Sql.resolveTarget col (i, db) databases) as [t|e];
    destruct (Sql.resolveTarget col' (i, db') databases') as [t'|e'];
    try contradiction; [|now subst].
  destruct R as [E1 [E2 [E3 CT]]].
  destruct (plain_columns_agree _ _ CT) as [PI [PS _]].
  cbn [bind fst]. cbv zeta.
  rewrite E1, E2, E3, PI, PS.
  rewrite (CT "type"), (CT "name") by (unfold sql_keys; simpl; tauto).
  rewrite (C "ondelete"), (C "nullable"), (C "defaultValue")
    by (unfold sql_keys; simpl; tauto).
  reflexivity.
Qed.

Lemma processColumn_agrees (col col' : obj) (i : nat) (db db' : Database)
    (databases databases' : list Database) (acc : list string * list string) :
  column_agrees col col' ->
  database_agrees db db' ->
  Forall2 database_agrees databases databases' ->
  Sql.processColumn (i, db') databases' acc col'
  = Sql.processColumn (i, db) databases acc col.
Proof.
  intros C D F. unfold Sql.processColumn. destruct acc as [cols idxes].
  cbv zeta.
  rewrite (C "name"), (C "type") by (unfold sql_keys; simpl; tauto).
  rewrite (processFKColumn_agrees _ col col' i db db' databases databases')
    by assumption.
  destruct (plain_columns_agree _ _ C) as [-> [-> [-> [-> [-> [-> ->]]]]]].
  reflexivity.
Qed.

Lemma processTable_agrees (t t' : Table) (i : nat) (db db' : Database)
    (databases databases' : list Database) :
  table_agrees t t' ->
  database_agrees db db' ->
  Forall2 database_agrees databases databases' ->
  Sql.processTable t' (i, db') databases' = Sql.processTable t (i, db) databases.
Proof.
  intros [N [Ty [Ix FC]]] D F. unfold Sql.processTable. cbv zeta.
  rewrite N, Ty, Ix.
  destruct (throw_if _ Error); [|reflexivity]. cbn [bind].
  destruct (throw_if _ TypeError); [|reflexivity]. cbn [bind].
  destruct (foldM _ [] (indexes t)) as [idx0|]; [|reflexivity]. cbn [bind].
  rewrite (foldM_agrees column_agrees
             (Sql.processColumn (i, db) databases)
             (Sql.processColumn (i, db') databases') _ _ FC).
  - reflexivity.
  - intros s x y C. now apply processColumn_agrees.
Qed.

Lemma databaseSql_agrees (i : nat) (db db' : Database)
    (databases databases' : list Database) :
  database_agrees db db' ->
  Forall2 database_agrees databases databases' ->
  Sql.databaseSql (i, db') databases' = Sql.databaseSql (i, db) databases.
Proof.
  intros D F. unfold Sql.databaseSql. cbn [snd]. unfold Sql.prologue.
  destruct D as [N FT]. rewrite N.
  apply (foldM_agrees table_agrees _ _ _ _ FT).
  intros s x y T.
  now rewrite (processTable_agrees x y i db db' databases databases' T
                 (conj N FT) F).
Qed.

Lemma compileDatabases_agrees (f : string)
    (databases databases' rest rest' : list Database) :
  Forall2 database_agrees databases databases' ->
  Forall2 database_agrees rest rest' ->
  forall i d,
    Sql.compileDatabases f databases' i rest' d
    = Sql.compileDatabases f databases i rest d.
Proof.
  intros F R. induction R as [|db db' rest rest' D R IH]; intros i d; simpl;
    [reflexivity|].
  rewrite (databaseSql_agrees i db db' databases databases' D F).
  destruct (Sql.databaseSql (i, db) databases); auto.
Qed.

(** X8. The SQL emitter reads of a file the names of its databases and
    tables, the types and the indexes of its tables and fifteen properties
    of each column, and nothing else: two files that agree on these leave
    the same output directory and end alike. So [comments],
    [autoIncrement], the type of a database and any property the data
    model does not know change nothing in the SQL, on a column an FK
    declaration refers to as on any other. *)
Theorem sql_column_reads_only (f : string)
    (databases databases' : list Database) (d : disk) :
  Forall2 database_agrees databases databases' ->
  Sql.compileFile f databases' d = Sql.compileFile f databases d.
Proof.
  intros F. unfold Sql.compileFile. now apply compileDatabases_agrees.
Qed.

Lemma sql_column_reads_only_witness :
  Sql.compileFile "shop" [shop_orders_noted] []
  = Sql.compileFile "shop" [shop_orders] [].
Proof.
  apply sql_column_reads_only.
  assert (R : forall c, column_agrees c c) by (intros c k _; reflexivity).
  repeat constructor; auto.
  intros k I. unfold sql_keys in I. simpl in I.
  repeat (destruct I as [<-|I]; [reflexivity|]). contradiction.
Defined.

(** ** Tables in the SQL emitter *)

(** X9. The statement of a table that is accepted has one clause for each
    column, then the clause of each declared index, in declaration order,
    and then one FOREIGN KEY clause for each FK declaration whose
    [ondelete] is defined and is not ["NO ACTION"], in declaration order:
    the FOREIGN KEY clauses come after every declared index. *)
Theorem sql_table_clauses (t : Table) (database : nat * Database)
    (databases : list Database) (s : string) :
  Sql.processTable t database databases = Ok s ->
  exists cols declared fks,
    s = Sql.createTable (tbl_name t) (cols ++ declared ++ fks)
    /\ List.length cols = List.length (columns t)
    /\ Forall2 (fun idx clause => Sql.processIndex idx = Ok clause)
         (indexes t) declared
    /\ Forall2 (fun c clause =>
                  exists target,
                    clause = "FOREIGN KEY (" ++ to_string (get "name" c)
                             ++ ") REFERENCES " ++ target
                             ++ ") ON DELETE " ++ to_string (get "ondelete" c))
         (filter fk_action (columns t)) fks.
Proof.
  unfold Sql.processTable.
  destruct (throw_if _ Error); [|discriminate]. cbn [bind].
  destruct (throw_if _ TypeError); [|discriminate]. cbn [bind].
  destruct (foldM _ [] (indexes t)) as [idx0|] eqn:I; [|discriminate].
  cbn [bind].
  destruct (foldM _ _ (columns t)) as [[cols idxes]|] eqn:F; [|discriminate].
  cbn [bind]. intros [= <-].
  destruct (foldM_push _ _ _ _ I) as [declared [-> FI]].
  destruct (sql_columns_in_order _ _ _ _ _ _ _ F)
    as [new [fks [-> [-> [FC FK]]]]].
  exists new, declared, fks. simpl. repeat split; auto.
  symmetry. eapply Forall2_length; eauto.
Qed.

Lemma sql_table_clauses_witness :
  exists s,
    Sql.processTable orders (0%nat, shop_orders) [shop_orders] = Ok s
    /\ exists cols declared fks,
         s = Sql.createTable (tbl_name orders) (cols ++ declared ++ fks)
         /\ List.length cols = List.length (columns orders)
         /\ Forall2 (fun idx clause => Sql.processIndex idx = Ok clause)
              (indexes orders) declared
         /\ Forall2 (fun c clause =>
                       exists target,
                         clause = "FOREIGN KEY (" ++ to_string (get "name" c)
                                  ++ ") REFERENCES " ++ target
                                  ++ ") ON DELETE "
                                  ++ to_string (get "ondelete" c))
              (filter fk_action (columns orders)) fks.
Proof.
  eexists. split; [vm_compute; reflexivity|].
  apply (sql_table_clauses orders (0%nat, shop_orders) [shop_orders]).
  vm_compute. reflexivity.
Defined.

(** Whether [processColumn] throws, and what, does not depend on the
    clauses gathered so far *)
Lemma processColumn_thrown (database : nat * Database)
    (databases : list Database) (acc acc' : list string * list string)
    (col : obj) :
  thrown (Sql.processColumn database databases acc col)
  = thrown (Sql.processColumn database databases acc' col).
Proof.
  destruct acc as [cols idxes], acc' as [cols' idxes'].
  unfold Sql.processColumn. cbv beta iota zeta.
  destruct (throw_if _ _); cbn [bind]; [|reflexivity].
  destruct (strict_eq (get "type" col) (VStr "FK")).
  - unfold Sql.processFKColumn.
    destruct (Sql.resolveTarget col database databases) as [t|];
      cbn [bind]; [|reflexivity].
    match goal with
    | |- context [bind (if strict_eq ?ty (VStr "integer") then ?a else ?b) _] =>
        destruct (if strict_eq ty (VStr "integer") then a else b) as [d|]
    end; cbn [bind]; [|reflexivity].
    destruct (defined (get "defaultValue" col)); [|reflexivity].
    destruct (throw_if _ _); reflexivity.
  - repeat match goal with
           | |- context [if ?c then _ else _] => destruct c
           end;
      try reflexivity;
      match goal with |- context [bind (bind ?m _) _] => destruct m as [d|] end;
      reflexivity.
Qed.

Lemma foldM_processColumn_thrown (database : nat * Database)
    (databases : list Database) (l : list obj) :
  forall acc acc',
    thrown (foldM (Sql.processColumn database databases) acc l)
    = thrown (foldM (Sql.processColumn database databases) acc' l).
Proof.
  induction l as [|c l IH]; intros acc acc'; cbn [foldM]; [reflexivity|].
  pose proof (processColumn_thrown database databases acc acc' c) as T.
  destruct (Sql.processColumn database databases acc c);
    destruct (Sql.processColumn database databases acc' c);
    cbn [bind]; try discriminate; auto.
Qed.

Lemma foldM_processIndex_thrown (f : Index -> list string) (l : list Index) :
  forall acc acc',
    thrown (foldM (fun idxes idx => c <- Sql.processIndex idx ;; Ok (push idxes c))
              acc (map (fun idx => mkIndex (idx_type idx) (f idx)) l))
    = thrown (foldM (fun idxes idx => c <- Sql.processIndex idx ;; Ok (push idxes c))
                acc' l).
Proof.
  induction l as [|i l IH]; intros acc acc'; cbn [foldM map]; [reflexivity|].
  unfold Sql.processIndex at 1 3. cbn [idx_type].
  repeat match goal with
         | |- context [if ?c then _ else _] => destruct c
         end; cbn [bind]; auto.
Qed.

(** X10. The SQL emitter does not look at the columns an index names:
    whatever columns the indexes of a table are given, existing or not,
    the table is accepted or refused alike, with the same exception. *)
Theorem index_columns_not_checked (f : Index -> list string) (t : Table)
    (database : nat * Database) (databases : list Database) :
  thrown (Sql.processTable (reindex f t) database databases)
  = thrown (Sql.processTable t database databases).
Proof.
  unfold Sql.processTable, reindex. cbn [tbl_name tbl_type columns indexes].
  destruct (throw_if _ Error); [|reflexivity]. cbn [bind].
  destruct (throw_if _ TypeError); [|reflexivity]. cbn [bind].
  pose proof (foldM_processIndex_thrown f (indexes t) [] []) as TI.
  destruct (foldM _ [] (map _ (indexes t))) as [idx1|];
    destruct (foldM _ [] (indexes t)) as [idx0|];
    cbn [bind]; try discriminate; auto.
  pose proof (foldM_processColumn_thrown database databases (columns t)
                ([], idx1) ([], idx0)) as TC.
  destruct (foldM _ ([], idx1) (columns t)) as [[c1 i1]|];
    destruct (foldM _ ([], idx0) (columns t)) as [[c0 i0]|];
    cbn [bind]; try discriminate; auto.
Qed.

(** ** Reference paths *)

Lemma findi_unique (databases : list Database) :
  forall (n i : nat) (db : Database),
    nth_error databases i = Some db ->
    NoDup (map db_name databases) ->
    findi (fun d => String.eqb (db_name d) (db_name db)) n databases
    = Some ((n + i)%nat, db).
Proof.
  induction databases as [|x l IH]; intros n [|i] db; simpl;
    try discriminate.
  - intros [= ->] _. now rewrite String.eqb_refl, Nat.add_0_r.
  - intros N ND. inversion ND as [|? ? NI ND']; subst.
    destruct (String.eqb (db_name x) (db_name db)) eqn:E.
    + apply String.eqb_eq in E. exfalso. apply NI. rewrite E.
      apply in_map. eapply nth_error_In; eauto.
    + rewrite (IH (S n) i db N ND'). now rewrite Nat.add_succ_r.
Qed.

(** X11. In a file whose databases have different names, an FK declaration
    that names its own database in the path is compiled by the SQL emitter
    as the declaration with the two-segment path: same clause, same
    FOREIGN KEY clause without a database prefix, same exception. *)
Theorem own_database_reference (colName : string) (col : obj)
    (path path' table column : string) (i : nat) (db : Database)
    (databases : list Database) (tableSqlIdxes : list string) :
  nth_error databases i = Some db ->
  NoDup (map db_name databases) ->
  get "column" col = VStr path ->
  split_dot path = [table; column] ->
  split_dot path' = [db_name db; table; column] ->
  Sql.processFKColumn colName (set "column" (VStr path') col) (i, db)
    databases tableSqlIdxes
  = Sql.processFKColumn colName col (i, db) databases tableSqlIdxes.
Proof.
  intros N ND G S S'.
  assert (R : Sql.resolveTarget (set "column" (VStr path') col) (i, db) databases
              = Sql.resolveTarget col (i, db) databases).
  { unfold Sql.resolveTarget. rewrite get_set_same, G. cbn [as_string].
    rewrite S, S'. cbn.
    destruct column; [reflexivity|]. destruct table; [reflexivity|].
    now rewrite (findi_unique databases 0 i db N ND). }
  unfold Sql.processFKColumn. rewrite R.
  now rewrite !get_set_other by reflexivity.
Qed.

Lemma own_database_reference_witness :
  Sql.processFKColumn "customer"
    (set "column" (VStr "shop.users.id") orders_customer) (0%nat, shop_orders)
    [shop_orders] []
  = Sql.processFKColumn "customer" orders_customer (0%nat, shop_orders)
      [shop_orders] [].
Proof.
  apply (own_database_reference "customer" orders_customer "users.id"
           "shop.users.id" "users" "id"); try reflexivity.
  simpl. constructor; [simpl; tauto | constructor].
Defined.

Lemma split_dot_aux_no_dot (s : string) :
  forall cur,
    string_forallb (fun c => negb (nat_of_ascii c =? 46)%nat) s = true ->
    split_dot_aux cur s = [cur ++ s].
Proof.
  induction s as [|c s IH]; intros cur; simpl.
  - intros _. now rewrite append_empty.
  - intros H. apply andb_true_iff in H as [N H]. apply negb_true_iff in N.
    rewrite N, IH by exact H. now rewrite append_assoc.
Qed.

(** X12. The SQL emitter refuses with a ReferenceError an FK declaration
    whose path has no dot, the empty path among them: it finds no table
    in it, or no column. *)
Theorem sql_fk_path_without_dot (col : obj) (path : string)
    (database : nat * Database) (databases : list Database) :
  get "column" col = VStr path ->
  string_forallb (fun c => negb (nat_of_ascii c =? 46)%nat) path = true ->
  Sql.resolveTarget col database databases = Throw ReferenceError.
Proof.
  intros G N. unfold Sql.resolveTarget. rewrite G. cbn [as_string].
  unfold split_dot. rewrite split_dot_aux_no_dot by exact N.
  cbn. now destruct path.
Qed.

Lemma sql_fk_path_without_dot_witness :
  Sql.resolveTarget customer_dotless (0%nat, shop) [shop]
  = Throw ReferenceError.
Proof.
  apply (sql_fk_path_without_dot customer_dotless "users"); reflexivity.
Defined.

Lemma pop_push {A : Type} (l : list A) (x : A) :
  pop (l ++ [x])%list = (Some x, l).
Proof. unfold pop. rewrite rev_unit. now rewrite rev_involutive. Qed.

(** X13. Of a path of more than three segments the SQL emitter uses the
    last three, as database, table and column, and ignores the others. *)
Theorem sql_fk_path_uses_last_three (col : obj) (path path' : string)
    (pre : list string) (db table column : string)
    (database : nat * Database) (databases : list Database) :
  get "column" col = VStr path ->
  split_dot path = (pre ++ [db; table; column])%list ->
  split_dot path' = [db; table; column] ->
  Sql.resolveTarget col database databases
  = Sql.resolveTarget (set "column" (VStr path') col) database databases.
Proof.
  intros G S S'. unfold Sql.resolveTarget.
  rewrite get_set_same, G. cbn [as_string]. rewrite S, S'. cbv zeta.
  change (pre ++ [db; table; column])%list
    with (pre ++ [db] ++ [table] ++ [column])%list.
  change [db; table; column] with (([] ++ [db]) ++ [table] ++ [column])%list.
  rewrite !app_assoc, !pop_push. cbv beta iota.
  destruct column; [reflexivity|]. now destruct table.
Qed.

Lemma sql_fk_path_uses_last_three_witness :
  Sql.resolveTarget customer_long (0%nat, shop) [shop]
  = Sql.resolveTarget (set "column" (VStr "shop.users.id") customer_long)
      (0%nat, shop) [shop].
Proof.
  apply (sql_fk_path_uses_last_three customer_long "x.shop.users.id"
           "shop.users.id" ["x"] "shop" "users" "id"); reflexivity.
Defined.

(** X14. Of a path that has not three segments the descriptor emitter uses
    the first two, as table and column of the declaring database, and
    ignores the others: on a path of four segments the two emitters look
    for different columns. *)
Theorem lua_fk_path_uses_first_two (st : Lua.state) (type : string)
    (col : obj) (path path' : string) (table column : string)
    (rest : list string) :
  get "column" col = VStr path ->
  split_dot path = table :: column :: rest ->
  List.length rest <> 1%nat ->
  split_dot path' = [table; column] ->
  Lua.resolveFK st type col
  = Lua.resolveFK st type (set "column" (VStr path') col).
Proof.
  intros G S L S'. unfold Lua.resolveFK, Lua.fkTarget.
  rewrite get_set_same, !get_set_other by reflexivity.
  rewrite G. cbn [as_string]. rewrite S, S'.
  cbn [List.length Nat.eqb].
  destruct rest as [|x [|y rest]]; [reflexivity | contradiction L; reflexivity |].
  reflexivity.
Qed.

Lemma lua_fk_path_uses_first_two_witness :
  Lua.resolveFK (Lua.mkState (Some shop) None "") "core" customer_extra
  = Lua.resolveFK (Lua.mkState (Some shop) None "") "core"
      (set "column" (VStr "users.id") customer_extra).
Proof.
  apply (lua_fk_path_uses_first_two _ _ customer_extra "users.id.shop.x"
           "users.id" "users" "id" ["shop"; "x"]); try reflexivity.
  discriminate.
Defined.

(** ** Column objects in the descriptor emitter *)

Lemma luaValue_thrown (v : val) :
  thrown (Lua.luaValue v) = if is_nested v then Some SyntaxError else None.
Proof. destruct v as [[| | | |]| |]; reflexivity. Qed.

Lemma foldM_propertyToLua_thrown (o : obj) :
  forall acc,
    thrown (foldM Lua.propertyToLua acc o)
    = if existsb is_nested (map snd o) then Some SyntaxError else None.
Proof.
  induction o as [|[k v] o IH]; intros acc; cbn [foldM map existsb snd];
    [reflexivity|].
  unfold Lua.propertyToLua at 1.
  pose proof (luaValue_thrown v) as T.
  destruct (Lua.luaValue v) as [s|e]; cbn [bind]; destruct (is_nested v);
    try discriminate; cbn [orb thrown].
  - apply IH.
  - exact T.
Qed.

(** X15. [objectToLua] throws exactly when a property of the object is
    [null], an array or an object, and then a SyntaxError; every other
    object is rendered. *)
Theorem object_to_lua_rejects_nested (o : obj) :
  thrown (Lua.objectToLua o)
  = if existsb is_nested (map snd o) then Some SyntaxError else None.
Proof.
  unfold Lua.objectToLua.
  pose proof (foldM_propertyToLua_thrown o "{") as T.
  destruct (foldM Lua.propertyToLua "{" o); cbn [bind thrown] in *; exact T.
Qed.

Lemma nat_of_ascii_eqb (c : ascii) (n : nat) :
  (n < 256)%nat ->
  (nat_of_ascii c =? n)%nat = Ascii.eqb c (ascii_of_nat n).
Proof.
  intros L. destruct (Ascii.eqb c (ascii_of_nat n)) eqn:E.
  - apply Ascii.eqb_eq in E. subst c. rewrite nat_ascii_embedding by exact L.
    apply Nat.eqb_refl.
  - apply Nat.eqb_neq. intros N. apply Ascii.eqb_neq in E. apply E.
    rewrite <- (ascii_nat_embedding c). now rewrite N.
Qed.

Lemma lua_unquote_escape (s : string) :
  lua_unquote
    (Lua.replace_all_char (ascii_of_nat 34) (bsl ++ dq)
       (Lua.replace_all_char (ascii_of_nat 92) (bsl ++ bsl) s))
  = if string_forallb (fun c => negb (is_line_terminator c)) s
    then Some s else None.
Proof.
  induction s as [|c s IH]; [reflexivity|].
  cbn [string_forallb Lua.replace_all_char].
  destruct (Ascii.eqb c (ascii_of_nat 92)) eqn:B.
  - apply Ascii.eqb_eq in B. subst c.
    change (Lua.replace_all_char (ascii_of_nat 34) (bsl ++ dq)
              ((bsl ++ bsl) ++ ?r))
      with (String (ascii_of_nat 92) (String (ascii_of_nat 92)
              (Lua.replace_all_char (ascii_of_nat 34) (bsl ++ dq) r))).
    cbn [lua_unquote].
    change (nat_of_ascii (ascii_of_nat 92) =? 92)%nat with true.
    change (negb (is_line_terminator (ascii_of_nat 92))) with true.
    cbn [orb andb]. rewrite IH. now destruct (string_forallb _ s).
  - cbn [Lua.replace_all_char].
    destruct (Ascii.eqb c (ascii_of_nat 34)) eqn:Q.
    + apply Ascii.eqb_eq in Q. subst c.
      change ((bsl ++ dq) ++ ?r)
        with (String (ascii_of_nat 92) (String (ascii_of_nat 34) r)).
      cbn [lua_unquote].
      change (nat_of_ascii (ascii_of_nat 92) =? 92)%nat with true.
      change (nat_of_ascii (ascii_of_nat 34) =? 92)%nat with false.
      change (nat_of_ascii (ascii_of_nat 34) =? 34)%nat with true.
      change (negb (is_line_terminator (ascii_of_nat 34))) with true.
      cbn [orb andb]. rewrite IH. now destruct (string_forallb _ s).
    + cbn [lua_unquote].
      rewrite !nat_of_ascii_eqb by lia. rewrite B, Q. cbn [orb].
      destruct (is_line_terminator c); cbn [negb andb]; [reflexivity|].
      rewrite IH. now destruct (string_forallb _ s).
Qed.

(** X16. [objectToLua] renders a string property as a double-quoted
    literal that reads back as the string, backslashes and double quotes
    included, when the string has no line break; a line break is copied as
    it is and ends the literal early. *)
Theorem lua_string_reads_back (s : string) :
  exists body,
    Lua.luaValue (VStr s) = Ok (dq ++ body ++ dq)
    /\ lua_unquote body
       = if string_forallb (fun c => negb (is_line_terminator c)) s
         then Some s else None.
Proof. eexists. split; [reflexivity|]. apply lua_unquote_escape. Qed.

Lemma code_not_other (v : val) :
  loose_eq v (VStr "code") = true ->
  loose_eq v (VStr "FK") = false
  /\ loose_eq v (VStr "integer") = false
  /\ loose_eq v (VStr "serial") = false.
Proof.
  intros H. repeat split;
    apply (loose_eq_name v "code"); auto; vm_compute; reflexivity.
Qed.

(** Reading a property of an entry throws exactly on [null] and
    [undefined] *)
Lemma member_thrown (k : string) (v : val) :
  thrown (member k v) = if defined v then None else Some TypeError.
Proof. destruct v as [[| | | |]| |]; reflexivity. Qed.

Lemma codeValueLua_thrown (this : string) (l : list val) :
  forall acc,
    thrown (foldM (Lua.codeValueLua this) acc l)
    = if existsb (fun v => negb (defined v)) l then Some TypeError else None.
Proof.
  induction l as [|v l IH]; intros acc; cbn [foldM existsb]; [reflexivity|].
  unfold Lua.codeValueLua at 1.
  pose proof (member_thrown "value" v) as T1.
  pose proof (member_thrown "code" v) as T2.
  destruct (member "value" v) as [name|]; destruct (member "code" v) as [c|];
    destruct (defined v); try discriminate; cbn [bind negb orb thrown];
    auto.
Qed.

Lemma codesOf_thrown (l : list val) :
  thrown (Lua.codesOf l)
  = if existsb (fun v => negb (defined v)) l then Some TypeError else None.
Proof.
  unfold Lua.codesOf. generalize (@nil val).
  induction l as [|v l IH]; intros acc; cbn [foldM existsb]; [reflexivity|].
  pose proof (member_thrown "code" v) as T.
  destruct (member "code" v) as [c|]; destruct (defined v); try discriminate;
    cbn [bind negb orb thrown]; auto.
Qed.

Lemma codeValues_thrown (this : string) (l : list val) :
  thrown (Lua.codeValues this l)
  = if existsb (fun v => negb (defined v)) l then Some TypeError else None.
Proof.
  unfold Lua.codeValues.
  pose proof (codeValueLua_thrown this l "") as C.
  pose proof (codesOf_thrown l) as K.
  destruct (foldM (Lua.codeValueLua this) "" l) as [text|];
    destruct (Lua.codesOf l) as [codes|];
    destruct (existsb (fun v => negb (defined v)) l);
    try discriminate; cbn [bind thrown]; auto.
Qed.

(** X23. The descriptor emitter does not validate the values of a code
    column: a code column whose [values] is an array is emitted whatever
    entries the array holds, none at all, a code or a name twice, a code
    above 255, entries that are no objects. It throws a TypeError when an
    entry is [null], and otherwise a SyntaxError when a property of the
    column object it renders, which is the column without its [comments]
    and [values] and with its [_objectType] set, is [null], an array or
    an object. *)
Theorem lua_accepts_any_code_values (type : string) (j k : nat)
    (table : Table) (st : Lua.state) (column : obj) (l : list val) :
  loose_eq (get "type" column) (VStr "code") = true ->
  get "values" column = Arr l ->
  thrown (Lua.writeColumn type j table st (k, column))
  = if existsb (fun v => negb (defined v)) l then Some TypeError
    else if existsb is_nested
              (map snd
                 (del "values"
                    (set "_objectType" (VStr "column")
                       (del "comments" column))))
         then Some SyntaxError
    else None.
Proof.
  intros T V. destruct (code_not_other _ T) as [FK [TI TS]].
  unfold Lua.writeColumn. rewrite FK. cbn [bind].
  unfold Lua.attachBounds. rewrite TI, TS. cbn [bind].
  unfold Lua.finishColumn. cbv zeta. obj_simpl. rewrite T, V.
  cbn [truthy andb].
  match goal with
  | |- context [Lua.codeValues ?this l] =>
      pose proof (codeValues_thrown this l) as C;
      destruct (Lua.codeValues this l) as [text|]
  end;
    destruct (existsb (fun v => negb (defined v)) l); try discriminate C;
    cbn [bind thrown]; [|exact C].
  pose proof (foldM_propertyToLua_thrown
                (del "values"
                   (set "_objectType" (VStr "column") (del "comments" column)))
                "{") as O.
  unfold Lua.objectToLua.
  destruct (foldM Lua.propertyToLua "{" _); cbn [bind thrown] in *; exact O.
Qed.

Lemma lua_accepts_any_code_values_witness :
  thrown (Lua.writeColumn "core" 0 users (Lua.mkState (Some shop) None "")
            (0%nat, kind_twice)) = None
  /\ thrown (Lua.writeColumn "core" 0 users (Lua.mkState (Some shop) None "")
               (0%nat, kind_null)) = Some TypeError.
Proof.
  split.
  - apply (lua_accepts_any_code_values "core" 0 0 users
             (Lua.mkState (Some shop) None "") kind_twice
             (map entry (code_values [(0, "A"); (0, "B")])));
      reflexivity.
  - apply (lua_accepts_any_code_values "core" 0 0 users
             (Lua.mkState (Some shop) None "") kind_null
             [Prim VNull; Prim (VNum 7)]);
      reflexivity.
Defined.

(** ** Bounds in the descriptor emitter *)

Lemma has_del (k k' : string) (o : obj) :
  String.eqb k' k = false -> has k' (del k o) = has k' o.
Proof.
  intros N. induction o as [|[k0 v0] o IH]; simpl; auto.
  destruct (String.eqb k k0) eqn:E; simpl.
  - apply String.eqb_eq in E. subst k0. now rewrite N.
  - now rewrite IH.
Qed.

(** Writing to a property the value it has changes nothing *)
Lemma set_same (k : string) (v : val) (o : obj) :
  has k o = true -> get k o = v -> set k v o = o.
Proof.
  induction o as [|[k0 v0] o IH]; simpl; [discriminate|].
  destruct (String.eqb k k0) eqn:E; simpl.
  - intros _ <-. reflexivity.
  - intros H G. now rewrite IH.
Qed.

(** A column that reads as one with its bounds attached has them attached *)
Lemma attachBounds_settled (column column1 column2 : obj) :
  Lua.attachBounds column = Ok column1 ->
  get "type" column2 = get "type" column1 ->
  get "size" column2 = get "size" column1 ->
  get "minValue" column2 = get "minValue" column1 ->
  get "maxValue" column2 = get "maxValue" column1 ->
  has "minValue" column2 = has "minValue" column1 ->
  has "maxValue" column2 = has "maxValue" column1 ->
  Lua.attachBounds column2 = Ok column2.
Proof.
  intros H GT GS GMin GMax HMin HMax. revert H.
  unfold Lua.attachBounds at 1.
  destruct (loose_eq (get "type" column) (VStr "integer")) eqn:TI.
  - intros H.
    assert (P : loose_eq (get "type" column1) (VStr "integer") = true
                /\ defined (get "minValue" column1) = true
                /\ defined (get "maxValue" column1) = true).
    { revert H.
      destruct (defined (get "minValue" column)) eqn:DMin; cbn [negb bind];
        [|destruct (truthy (get "autoIncrement" column));
          [|destruct (truthy (get "unsigned" column));
            [|destruct (Lua.signedMin (get "size" column));
              [|discriminate]]]]; cbn [bind]; obj_simpl;
        (destruct (defined (get "maxValue" column)) eqn:DMax; cbn [negb];
         [|match goal with
           | |- context [Lua.integerMax ?a ?b] =>
               destruct (Lua.integerMax a b); [|discriminate]
           end]);
        intros [= <-]; obj_simpl; auto. }
    destruct P as [T [A B]]. unfold Lua.attachBounds.
    rewrite GT, GMin, T, A. cbn [negb bind]. now rewrite GMax, B.
  - destruct (loose_eq (get "type" column) (VStr "serial")) eqn:TS.
    + cbv zeta. obj_simpl.
      destruct (Lua.serialMax (get "size" column)) as [m|] eqn:SM;
        [|discriminate].
      intros [= <-]. revert GT GS GMin GMax HMin HMax. obj_simpl.
      rewrite !has_set. cbn [String.eqb Ascii.eqb Bool.eqb orb].
      intros GT GS GMin GMax HMin HMax.
      unfold Lua.attachBounds. rewrite GT, TI, TS. cbv zeta. obj_simpl.
      rewrite GS, SM.
      rewrite (set_same "minValue") by assumption.
      now rewrite (set_same "maxValue") by assumption.
    + intros [= <-]. unfold Lua.attachBounds. now rewrite GT, TI, TS.
Qed.

(** X17. Attaching bounds is idempotent: a column that has been given its
    bounds is left as it is when the bounds are attached again. *)
Theorem attach_bounds_idempotent (column column' : obj) :
  Lua.attachBounds column = Ok column' ->
  Lua.attachBounds column' = Ok column'.
Proof.
  intros H. now apply (attachBounds_settled column column' column').
Qed.

Lemma attach_bounds_idempotent_witness :
  Lua.attachBounds
    (set "maxValue" (VNum 4294967295) (set "minValue" (VNum 1) users_id))
  = Ok (set "maxValue" (VNum 4294967295) (set "minValue" (VNum 1) users_id)).
Proof. apply (attach_bounds_idempotent users_id). reflexivity. Defined.

Lemma integer_not_serial (v : val) :
  loose_eq v (VStr "serial") = true -> loose_eq v (VStr "integer") = false.
Proof.
  apply loose_eq_name; vm_compute; reflexivity.
Qed.

(** X18. The bounds the descriptor emitter fills in are in order: a serial
    column, and an integer column that declares neither bound, get a
    minimum that is below the maximum. *)
Theorem default_bounds_ordered (column column' : obj) :
  Lua.attachBounds column = Ok column' ->
  loose_eq (get "type" column) (VStr "serial") = true
  \/ (loose_eq (get "type" column) (VStr "integer") = true
      /\ defined (get "minValue" column) = false
      /\ defined (get "maxValue" column) = false) ->
  exists lo hi,
    get "minValue" column' = VNum lo /\ get "maxValue" column' = VNum hi
    /\ lo < hi.
Proof.
  unfold Lua.attachBounds. intros H [TS|[TI [DMin DMax]]].
  - rewrite (integer_not_serial _ TS), TS in H. cbv zeta in H.
    rewrite get_set_other in H by reflexivity.
    unfold Lua.serialMax in H.
    repeat match type of H with
           | context [if ?c then _ else _] => destruct c
           end; try discriminate;
      injection H as <-; obj_simpl; do 2 eexists;
      (split; [reflexivity | split; [reflexivity | lia]]).
  - rewrite TI, DMin in H. cbn [negb] in H.
    assert (M : forall lo c1,
               get "minValue" c1 = VNum lo ->
               get "maxValue" c1 = get "maxValue" column ->
               get "size" c1 = get "size" column ->
               get "unsigned" c1 = get "unsigned" column ->
               (forall hi, Lua.integerMax (get "size" column)
                             (get "unsigned" column) = Some hi -> lo < hi) ->
               (if negb (defined (get "maxValue" c1))
                then match Lua.integerMax (get "size" c1) (get "unsigned" c1) with
                     | Some m => Ok (set "maxValue" (VNum m) c1)
                     | None => Throw SyntaxError
                     end
                else Ok c1) = Ok column' ->
               exists lo hi,
                 get "minValue" column' = VNum lo
                 /\ get "maxValue" column' = VNum hi /\ lo < hi).
    { intros lo c1 G1 G2 G3 G4 L. rewrite G2, G3, G4, DMax. cbn [negb].
      destruct (Lua.integerMax _ _) as [hi|] eqn:IM; [|discriminate].
      intros [= <-]. exists lo, hi. obj_simpl. auto. }
    assert (Pos : forall hi, Lua.integerMax (get "size" column)
                               (get "unsigned" column) = Some hi -> 1 < hi).
    { unfold Lua.integerMax. intros hi.
      repeat match goal with
             | |- context [if ?c then _ else _] => destruct c
             end; intros [= <-]; lia. }
    destruct (truthy (get "autoIncrement" column)).
    + cbn [bind] in H. eapply M; [| | | | |exact H]; obj_simpl; auto.
    + destruct (truthy (get "unsigned" column)) eqn:U.
      * cbn [bind] in H. eapply M; [| | | | |exact H]; obj_simpl; auto.
        intros hi E. apply Pos in E. lia.
      * destruct (Lua.signedMin (get "size" column)) as [lo|] eqn:SM;
          [|discriminate].
        cbn [bind] in H. eapply M; [| | | | |exact H]; obj_simpl; auto.
        revert SM. unfold Lua.signedMin, Lua.integerMax. rewrite U.
        repeat match goal with
               | |- context [if ?c then _ else _] => destruct c
               end; intros SM hi E; try discriminate;
          injection SM as <-; injection E as <-; lia.
Qed.

Lemma default_bounds_ordered_witness :
  exists lo hi,
    get "minValue"
      (set "maxValue" (VNum 2147483647)
         (set "minValue" (VNum 1) stock_position)) = VNum lo
    /\ get "maxValue"
         (set "maxValue" (VNum 2147483647)
            (set "minValue" (VNum 1) stock_position)) = VNum hi
    /\ lo < hi.
Proof.
  apply (default_bounds_ordered stock_position); [reflexivity|].
  right. repeat split; reflexivity.
Defined.

Lemma nth_error_set_nth {A : Type} (f : A -> A) (l : list A) :
  forall n m,
    nth_error (Lua.set_nth n f l) m
    = if Nat.eqb n m then option_map f (nth_error l m) else nth_error l m.
Proof.
  induction l as [|x l IH]; intros [|n] [|m]; simpl; auto.
  now destruct (Nat.eqb n m).
Qed.

Lemma column_at_store (j k j' k' : nat) (column : obj) (db : option Database) :
  column_at (option_map (Lua.store_column j k column) db) j' k'
  = if Nat.eqb j j' && Nat.eqb k k'
    then option_map (fun _ => column) (column_at db j' k')
    else column_at db j' k'.
Proof.
  destruct db as [db|]; simpl; [|now destruct (Nat.eqb j j' && Nat.eqb k k')].
  rewrite nth_error_set_nth.
  destruct (Nat.eqb j j'); simpl; [|reflexivity].
  destruct (nth_error (tables db) j') as [t|]; simpl;
    [|now destruct (Nat.eqb k k')].
  rewrite nth_error_set_nth. now destruct (Nat.eqb k k').
Qed.

Lemma database_of_update (type : string) (j k : nat) (column : obj)
    (st : Lua.state) (text : string) :
  database_of type (Lua.emit text (Lua.update_column type j k column st))
  = option_map (Lua.store_column j k column) (database_of type st).
Proof.
  unfold database_of, Lua.update_column, Lua.emit.
  now destruct (String.eqb type "core").
Qed.

(** X19. Emitting a column that is not an FK declaration updates that
    column object and no other, and the object it leaves resolves to the
    bounds the column resolved to: an FK declaration gets the same bounds
    whether its target is emitted before it or after it. *)
Theorem emitted_column_keeps_bounds (type : string) (j k : nat)
    (table : Table) (st st' : Lua.state) (column : obj) :
  loose_eq (get "type" column) (VStr "FK") = false ->
  column_at (database_of type st) j k = Some column ->
  Lua.writeColumn type j table st (k, column) = Ok st' ->
  (exists stored,
     column_at (database_of type st') j k = Some stored
     /\ bounds_of stored = bounds_of column)
  /\ forall j' k',
       Nat.eqb j j' && Nat.eqb k k' = false ->
       column_at (database_of type st') j' k'
       = column_at (database_of type st) j' k'.
Proof.
  intros FK At. unfold Lua.writeColumn. rewrite FK. cbn [bind].
  destruct (Lua.attachBounds column) as [column1|] eqn:AB; [|discriminate].
  cbn [bind].
  destruct (Lua.finishColumn _ column1) as [[column2 codeValuesLua]|] eqn:FC;
    [|discriminate].
  cbn [bind].
  destruct (Lua.objectToLua column2) as [lua|]; [|discriminate].
  cbn [bind]. intros [= <-]. rewrite database_of_update. split.
  - exists column2. split.
    + rewrite column_at_store, !Nat.eqb_refl, At. reflexivity.
    + assert (G : forall key,
                 String.eqb key "comments" = false ->
                 String.eqb key "_objectType" = false ->
                 String.eqb key "values" = false ->
                 get key column2 = get key column1
                 /\ has key column2 = has key column1).
      { intros key N1 N2 N3. revert FC. unfold Lua.finishColumn. cbv zeta.
        destruct (loose_eq _ _ && truthy _).
        - destruct (get "values" _); try discriminate.
          destruct (Lua.codeValues _ _); cbn [bind]; [|discriminate].
          intros [= <- _].
          rewrite get_del_other, get_set_other, get_del_other by assumption.
          rewrite has_del, has_set, has_del by assumption.
          now rewrite N2.
        - intros [= <- _].
          rewrite get_set_other, get_del_other by assumption.
          rewrite has_set, has_del by assumption.
          now rewrite N2. }
      destruct (G "type" eq_refl eq_refl eq_refl) as [GT _].
      destruct (G "size" eq_refl eq_refl eq_refl) as [GS _].
      destruct (G "minValue" eq_refl eq_refl eq_refl) as [GMin HMin].
      destruct (G "maxValue" eq_refl eq_refl eq_refl) as [GMax HMax].
      unfold bounds_of.
      rewrite (attachBounds_settled column column1 column2) by assumption.
      rewrite AB. cbn [bind]. now rewrite GMin, GMax.
  - intros j' k' N. now rewrite column_at_store, N.
Qed.

Lemma emitted_column_keeps_bounds_witness :
  exists st',
    Lua.writeColumn "core" 0 users (Lua.mkState (Some shop) None "")
      (2%nat, users_referrer) = Ok st'
    /\ (exists stored,
          column_at (database_of "core" st') 0 2 = Some stored
          /\ bounds_of stored = bounds_of users_referrer)
    /\ forall j' k',
         Nat.eqb 0 j' && Nat.eqb 2 k' = false ->
         column_at (database_of "core" st') j' k'
         = column_at (database_of "core" (Lua.mkState (Some shop) None "")) j' k'.
Proof.
  eexists. split; [vm_compute; reflexivity|].
  apply (emitted_column_keeps_bounds "core" 0 2 users
           (Lua.mkState (Some shop) None "")); [reflexivity | reflexivity |].
  vm_compute. reflexivity.
Defined.

(** ** Databases in the descriptor emitter *)

Lemma find_none_forallb {A : Type} (p : A -> bool) (l : list A) :
  forallb (fun x => negb (p x)) l = true -> find p l = None.
Proof.
  induction l as [|x l IH]; simpl; [reflexivity|].
  destruct (p x); simpl; [discriminate | exact IH].
Qed.

(** X20. A file of one or two databases of which none is fixed or instance
    is accepted by the descriptor emitter and compiles to the bare
    skeleton: the databases are dropped, and none of their tables is
    looked at. *)
Theorem untyped_databases_dropped (databases : list Database) :
  (1 <= List.length databases <= 2)%nat ->
  forallb (fun db => negb (String.eqb (db_type db) "fixed")
                     && negb (String.eqb (db_type db) "instance"))
    databases = true ->
  Lua.compileSchema databases = Ok (Lua.header ++ Lua.footer).
Proof.
  intros L F. unfold Lua.compileSchema.
  replace ((List.length databases <? 1)%nat || (2 <? List.length databases)%nat)
    with false
    by (symmetry; apply orb_false_iff; split; apply Nat.ltb_ge; lia).
  cbn [throw_if bind].
  rewrite (find_none_forallb (fun db => String.eqb (db_type db) "fixed")),
    (find_none_forallb (fun db => String.eqb (db_type db) "instance")).
  - reflexivity.
  - rewrite forallb_forall in *. intros db I. specialize (F db I).
    now apply andb_true_iff in F.
  - rewrite forallb_forall in *. intros db I. specialize (F db I).
    now apply andb_true_iff in F.
Qed.

Lemma untyped_databases_dropped_witness :
  Lua.compileSchema [scratch] = Ok (Lua.header ++ Lua.footer).
Proof.
  apply untyped_databases_dropped; [simpl; lia | reflexivity].
Defined.

(** ** The schema server *)

Lemma string_forallb_app (p : ascii -> bool) (a b : string) :
  string_forallb p (a ++ b) = string_forallb p a && string_forallb p b.
Proof.
  induction a as [|c a IH]; simpl; [reflexivity|].
  now rewrite IH, andb_assoc.
Qed.

Lemma string_forallb_impl (p q : ascii -> bool) (s : string) :
  (forall c, p c = true -> q c = true) ->
  string_forallb p s = true -> string_forallb q s = true.
Proof.
  intros I. induction s as [|c s IH]; simpl; [reflexivity|].
  intros H. apply andb_true_iff in H as [H1 H2]. now rewrite (I c H1), IH.
Qed.

Lemma name_char_not_slash (c : ascii) :
  Server.is_name_char c = true -> not_slash c = true.
Proof.
  unfold Server.is_name_char, not_slash, is_lower, is_digit, is_underscore,
    in_range.
  rewrite !orb_true_iff, !andb_true_iff, !Nat.leb_le, !Nat.eqb_eq,
    negb_true_iff, Nat.eqb_neq.
  lia.
Qed.

(** X21. The server answers 400 to a schema name it finds invalid without
    calling the file system; for any other name, reading and writing go
    to the one file [name.json], whose name has no slash and at most 105
    characters, and which the listing takes for a schema. *)
Theorem schema_name_is_a_file_name (name : string) :
  if Server.invalid name then
    Server.getSchema name = Server.Respond (Server.sendStatus 400)
    /\ forall body,
         Server.putSchema name body = Server.Respond (Server.sendStatus 400)
  else
    let file := name ++ ".json" in
    (exists callback, Server.getSchema name = Server.ReadFile file callback)
    /\ (forall body,
          exists callback,
            Server.putSchema name body = Server.WriteFile file body callback)
    /\ string_forallb not_slash file = true
    /\ is_json_file file = true
    /\ (String.length file <= 105)%nat.
Proof.
  unfold Server.getSchema, Server.putSchema.
  destruct (Server.invalid name) eqn:V; [now split|].
  cbv zeta. split; [eauto|]. split; [eauto|].
  unfold Server.invalid in V. apply orb_false_iff in V as [_ V].
  apply negb_false_iff in V. unfold Server.is_schema_name in V.
  apply andb_true_iff in V as [V C]. apply andb_true_iff in V as [_ L].
  apply Nat.leb_le in L.
  repeat split.
  - rewrite string_forallb_app.
    rewrite (string_forallb_impl _ _ _ name_char_not_slash C). reflexivity.
  - apply is_json_file_append.
  - rewrite length_append. simpl. lia.
Qed.

Lemma append_inj_r (s a b : string) : a ++ s = b ++ s -> a = b.
Proof.
  revert b. induction a as [|c a IH]; intros [|c' b]; simpl; intros H.
  - reflexivity.
  - apply (f_equal String.length) in H. simpl in H. rewrite length_append in H.
    lia.
  - apply (f_equal String.length) in H. simpl in H. rewrite length_append in H.
    lia.
  - injection H as -> H. now rewrite (IH b H).
Qed.

Lemma In_written (path data : string) (d : disk) :
  In path (map fst (outputFileSync path data d)).
Proof.
  induction d as [|[p c] d IH]; simpl; [now left|].
  destruct (String.eqb p path) eqn:E; simpl.
  - left. now apply String.eqb_eq.
  - now right.
Qed.

(** X22. On a file system that does not fail, a PUT of a valid name
    answers 200; a GET of the name then answers the text that was put, the
    listing has the name, and a GET of any other name answers as it did
    before the PUT. *)
Theorem put_then_get (name body : string) (d : disk) :
  Server.invalid name = false ->
  let d' := fst (serve (Server.putSchema name body) d) in
  snd (serve (Server.putSchema name body) d) = Server.sendStatus 200
  /\ serve (Server.getSchema name) d' = (d', Server.send body)
  /\ (exists names,
        serve Server.getSchemas d' = (d', Server.sendList names)
        /\ In name names)
  /\ forall other,
       other <> name ->
       snd (serve (Server.getSchema other) d')
       = snd (serve (Server.getSchema other) d).
Proof.
  intros V. unfold Server.putSchema, Server.getSchema. rewrite V.
  cbn [serve fst snd]. split; [reflexivity|]. split.
  - now rewrite readFile_written.
  - split.
    + eexists. split; [reflexivity|].
      unfold schemaNames. rewrite <- (slice_end_append name) at 1.
      apply in_map. apply filter_In. split.
      * apply In_written.
      * apply is_json_file_append.
    + intros other N. destruct (Server.invalid other); [reflexivity|].
      cbn [serve snd]. rewrite readFile_other; [reflexivity|].
      intros E. apply append_inj_r in E. contradiction.
Qed.

Lemma put_then_get_witness :
  let d' := fst (serve (Server.putSchema "shop-v2.1" "[]") []) in
  snd (serve (Server.putSchema "shop-v2.1" "[]") []) = Server.sendStatus 200
  /\ serve (Server.getSchema "shop-v2.1") d' = (d', Server.send "[]")
  /\ (exists names,
        serve Server.getSchemas d' = (d', Server.sendList names)
        /\ In "shop-v2.1" names)
  /\ forall other,
       other <> "shop-v2.1" ->
       snd (serve (Server.getSchema other) d')
       = snd (serve (Server.getSchema other) []).
Proof. apply put_then_get. reflexivity. Defined.
